(** * C_SDE: dataflow analyzer and TTA block partitioner

    A shallow embedding of the analysis core of [C_SDE.py]
    ([DataflowAnalyzer] and [TTAGraphAnalyzer]) and the properties of it
    that the specification states.

    Modelling conventions.
    - Source text is the list [self.lines] of the analyzers (the result of
      [code.splitlines()]); a line is a [string], read as ASCII text:
      white space is the ASCII white space of [str.isspace], word characters
      are letters, digits and the underscore.
    - Line numbers are natural numbers counted from 1, as
      [enumerate(self.lines, 1)] gives them; [None] is [option]'s [None].
    - Python [dict]s are insertion-ordered association lists ([dict_set]
      overwrites in place, or appends a new key at the end).
    - [list(set(xs))] is [list_set xs]: the elements of [xs] without
      repetition.  Python leaves the order of a set unspecified; the model
      keeps first occurrences in order, and no theorem below depends on it:
      the theorems on the operation sequence, the dependency map and the
      reaching definitions are stated for every line-analysis table, and the
      end-to-end scenario states sets up to permutation.
    - The patterns given to [re] are values of the type [regex], run by a
      backtracking matcher with the priorities of Python's engine (leftmost
      start, greedy repetition, alternatives left to right).
    - Loops that mutate locals are folds over explicit state records
      ([LineAcc], [Builder], [Carve]); the [while] loop of the partitioner
      runs on fuel, shown sufficient by [carve_loop_finished]. *)

From Stdlib Require Import String Ascii List Arith Bool ZArith Lia.
From Stdlib Require Import Permutation Sorted.
From Stdlib Require Import DecimalString DecimalNat Decimal.
Import ListNotations.

Open Scope string_scope.
Open Scope list_scope.
Open Scope nat_scope.

Infix "+++" := String.append (right associativity, at level 60).

(** ** Characters and strings (Python [str] methods) *)

Module Str.

Definition code (c : ascii) : nat := nat_of_ascii c.

(** [str.isspace] on one character (also the class [\s]). *)
Definition is_space (c : ascii) : bool :=
  let n := code c in
  ((9 <=? n) && (n <=? 13)) || ((28 <=? n) && (n <=? 32)).

Definition is_digit (c : ascii) : bool :=
  let n := code c in (48 <=? n) && (n <=? 57).

Definition is_alpha_ (c : ascii) : bool :=
  let n := code c in
  ((65 <=? n) && (n <=? 90)) || ((97 <=? n) && (n <=? 122)) || (n =? 95).

(** The class [\w] (and [[a-zA-Z0-9_]]) on ASCII text. *)
Definition is_word (c : ascii) : bool := is_alpha_ c || is_digit c.

Fixpoint rev_onto (s acc : string) : string :=
  match s with
  | EmptyString => acc
  | String c s' => rev_onto s' (String c acc)
  end.

Definition rev (s : string) : string := rev_onto s EmptyString.

Fixpoint lstrip (s : string) : string :=
  match s with
  | EmptyString => EmptyString
  | String c s' => if is_space c then lstrip s' else s
  end.

Definition rstrip (s : string) : string := rev (lstrip (rev s)).

(** [s.strip()] *)
Definition strip (s : string) : string := rstrip (lstrip s).

(** [s.startswith(p)] *)
Definition startswith (p s : string) : bool := String.prefix p s.

(** [sub in s] *)
Fixpoint contains (sub s : string) : bool :=
  String.prefix sub s ||
  match s with
  | EmptyString => false
  | String _ s' => contains sub s'
  end.

(** [s.isdigit()] on ASCII text: non-empty and all digits. *)
Fixpoint all_digits (s : string) : bool :=
  match s with
  | EmptyString => true
  | String c s' => is_digit c && all_digits s'
  end.

Definition isdigit (s : string) : bool :=
  match s with
  | EmptyString => false
  | _ => all_digits s
  end.

(** [s.find(c)] for a one-character [c]; [None] stands for [-1]. *)
Fixpoint find_char (c : ascii) (s : string) : option nat :=
  match s with
  | EmptyString => None
  | String d s' =>
      if Ascii.eqb c d then Some 0
      else match find_char c s' with
           | Some n => Some (S n)
           | None => None
           end
  end.

(** [s.rfind(c)] *)
Fixpoint rfind_char (c : ascii) (s : string) : option nat :=
  match s with
  | EmptyString => None
  | String d s' =>
      match rfind_char c s' with
      | Some n => Some (S n)
      | None => if Ascii.eqb c d then Some 0 else None
      end
  end.

(** [s.find(sub)] *)
Fixpoint find (sub s : string) : option nat :=
  if String.prefix sub s then Some 0
  else match s with
       | EmptyString => None
       | String _ s' =>
           match find sub s' with
           | Some n => Some (S n)
           | None => None
           end
       end.

(** The slice [s[a:b]] for indices [0 <= a], [0 <= b]. *)
Definition slice (a b : nat) (s : string) : string := substring a (b - a) s.

(** [s[:n]] and [s[n:]] for [0 <= n]. *)
Definition take (n : nat) (s : string) : string := substring 0 n s.

Fixpoint drop (n : nat) (s : string) : string :=
  match n, s with
  | 0, _ => s
  | S n', String _ s' => drop n' s'
  | S _, EmptyString => EmptyString
  end.

(** [s.split(sep, 1)[1]] if [sep in s], else the empty string *)
Definition after_first (sep s : string) : string :=
  match find sep s with
  | Some n => drop (n + String.length sep) s
  | None => EmptyString
  end.

(** [s.split(c)] for a one-character separator. *)
Fixpoint split_char (c : ascii) (s : string) : list string :=
  match s with
  | EmptyString => [EmptyString]
  | String d s' =>
      if Ascii.eqb c d then EmptyString :: split_char c s'
      else match split_char c s' with
           | [] => [String d EmptyString]
           | w :: ws => String d w :: ws
           end
  end.

(** [s.count(c)] for a one-character [c]. *)
Fixpoint count_char (c : ascii) (s : string) : nat :=
  match s with
  | EmptyString => 0
  | String d s' => (if Ascii.eqb c d then 1 else 0) + count_char c s'
  end.

(** [str(n)] for a natural number. *)
Definition of_nat (n : nat) : string := NilEmpty.string_of_uint (Nat.to_uint n).

(** [x in xs] for a list of strings. *)
Definition mem (x : string) (xs : list string) : bool :=
  existsb (String.eqb x) xs.

End Str.

(** [list(set(xs))]: the elements of [xs], each once. *)
Fixpoint list_set (xs : list string) : list string :=
  match xs with
  | [] => []
  | x :: xs' => x :: filter (fun y => negb (String.eqb x y)) (list_set xs')
  end.

(** ** Python dictionaries as insertion-ordered association lists *)

Section Dict.
Context {K V : Type} (keq : K -> K -> bool).

Fixpoint dict_get (d : list (K * V)) (k : K) : option V :=
  match d with
  | [] => None
  | (k', v) :: d' => if keq k k' then Some v else dict_get d' k
  end.

Fixpoint dict_set (d : list (K * V)) (k : K) (v : V) : list (K * V) :=
  match d with
  | [] => [(k, v)]
  | (k', v') :: d' =>
      if keq k k' then (k', v) :: d' else (k', v') :: dict_set d' k v
  end.

Definition dict_mem (d : list (K * V)) (k : K) : bool :=
  match dict_get d k with Some _ => true | None => false end.

Definition dict_keys (d : list (K * V)) : list K := map fst d.
End Dict.

(** ** Regular expressions ([re]) *)

Module Re.

Inductive regex : Type :=
| Eps : regex
| Chr : (ascii -> bool) -> regex          (* one character of a class *)
| Cat : regex -> regex -> regex
| Alt : regex -> regex -> regex           (* r1|r2, r1 tried first *)
| Star : regex -> regex                   (* r*, greedy *)
| Grp : nat -> regex -> regex             (* capturing group number n *)
| WordB : regex.                          (* \b *)

Definition Plus (r : regex) : regex := Cat r (Star r).
Definition Opt (r : regex) : regex := Alt r Eps.
Definition Lit1 (c : ascii) : regex := Chr (Ascii.eqb c).
Definition NotC (c : ascii) : regex := Chr (fun d => negb (Ascii.eqb c d)).

Fixpoint Lit (s : string) : regex :=
  match s with
  | EmptyString => Eps
  | String c EmptyString => Lit1 c
  | String c s' => Cat (Lit1 c) (Lit s')
  end.

Fixpoint Alts (rs : list regex) : regex :=
  match rs with
  | [] => Chr (fun _ => false)
  | [r] => r
  | r :: rs' => Alt r (Alts rs')
  end.

Fixpoint Cats (rs : list regex) : regex :=
  match rs with
  | [] => Eps
  | [r] => r
  | r :: rs' => Cat r (Cats rs')
  end.

(** The position of the matcher in the subject string. *)
Record mstate : Type := MState {
  m_prev : option ascii;                  (* character before the position *)
  m_rest : string;                        (* text from the position on *)
  m_pos : nat;                            (* the position *)
  m_caps : list (nat * (nat * nat))       (* group -> (start, end), latest first *)
}.

Definition is_word_opt (o : option ascii) : bool :=
  match o with Some c => Str.is_word c | None => false end.

Definition next_char (s : string) : option ascii :=
  match s with EmptyString => None | String c _ => Some c end.

Definition at_boundary (st : mstate) : bool :=
  xorb (is_word_opt (m_prev st)) (is_word_opt (next_char (m_rest st))).

(** The loop of a greedy repetition: [step] matches the body once; an
    iteration must consume a character; [n] bounds the number of iterations
    by the length of the remaining text. *)
Definition star_loop (step : mstate -> (mstate -> option mstate) -> option mstate)
  (k : mstate -> option mstate) : nat -> mstate -> option mstate :=
  fix loop (n : nat) (st0 : mstate) {struct n} : option mstate :=
    match n with
    | 0 => k st0
    | S n' =>
        match step st0 (fun st1 => if m_pos st0 <? m_pos st1 then loop n' st1
                                   else None) with
        | Some res => Some res
        | None => k st0
        end
    end.

(** Backtracking match of [r] at [st], then the continuation [k]. *)
Fixpoint rmatch (r : regex) (st : mstate) (k : mstate -> option mstate)
  {struct r} : option mstate :=
  match r with
  | Eps => k st
  | Chr p =>
      match m_rest st with
      | String c s' =>
          if p c then k (MState (Some c) s' (S (m_pos st)) (m_caps st))
          else None
      | EmptyString => None
      end
  | Cat r1 r2 => rmatch r1 st (fun st1 => rmatch r2 st1 k)
  | Alt r1 r2 =>
      match rmatch r1 st k with
      | Some res => Some res
      | None => rmatch r2 st k
      end
  | Star r1 => star_loop (rmatch r1) k (String.length (m_rest st)) st
  | Grp g r1 =>
      rmatch r1 st
        (fun st1 => k (MState (m_prev st1) (m_rest st1) (m_pos st1)
                         ((g, (m_pos st, m_pos st1)) :: m_caps st1)))
  | WordB => if at_boundary st then k st else None
  end.

(** A match object: its span and its groups. *)
Record rmatch_obj : Type := Match {
  mo_start : nat;
  mo_end : nat;
  mo_caps : list (nat * (nat * nat));
  mo_after : mstate                       (* matcher position at [mo_end] *)
}.

Definition match_at (r : regex) (st : mstate) : option rmatch_obj :=
  match rmatch r (MState (m_prev st) (m_rest st) (m_pos st) []) Some with
  | Some e => Some (Match (m_pos st) (m_pos e) (m_caps e) e)
  | None => None
  end.

Definition advance (st : mstate) : option mstate :=
  match m_rest st with
  | String c s' => Some (MState (Some c) s' (S (m_pos st)) [])
  | EmptyString => None
  end.

(** The leftmost match at or after [st]; [fuel] bounds the start positions. *)
Fixpoint search_from (fuel : nat) (r : regex) (st : mstate) : option rmatch_obj :=
  match match_at r st with
  | Some m => Some m
  | None =>
      match fuel with
      | 0 => None
      | S fuel' =>
          match advance st with
          | Some st' => search_from fuel' r st'
          | None => None
          end
      end
  end.

Definition start_of (s : string) : mstate := MState None s 0 [].

(** [re.search(r, s)] *)
Definition search (r : regex) (s : string) : option rmatch_obj :=
  search_from (String.length s) r (start_of s).

Definition matches (r : regex) (s : string) : bool :=
  match search r s with Some _ => true | None => false end.

(** [m.group(g)] as a span, and as text of the subject [s]. *)
Fixpoint cap_span (caps : list (nat * (nat * nat))) (g : nat) : option (nat * nat) :=
  match caps with
  | [] => None
  | (g', sp) :: caps' => if g =? g' then Some sp else cap_span caps' g
  end.

Definition group (s : string) (m : rmatch_obj) (g : nat) : string :=
  match cap_span (mo_caps m) g with
  | Some (a, b) => Str.slice a b s
  | None => EmptyString
  end.

(** [re.finditer(r, s)]: the successive non-overlapping matches.  After an
    empty match the scan resumes one character further. *)
Fixpoint finditer_from (fuel : nat) (r : regex) (st : mstate) : list rmatch_obj :=
  match fuel with
  | 0 => []
  | S fuel' =>
      match search_from (String.length (m_rest st)) r st with
      | None => []
      | Some m =>
          if mo_start m <? mo_end m
          then m :: finditer_from fuel' r (mo_after m)
          else match advance (mo_after m) with
               | Some st' => m :: finditer_from fuel' r st'
               | None => [m]
               end
      end
  end.

Definition finditer (r : regex) (s : string) : list rmatch_obj :=
  finditer_from (S (String.length s)) r (start_of s).

(** [re.findall(r, s)] for a pattern with one group. *)
Definition findall1 (r : regex) (s : string) : list string :=
  map (fun m => group s m 1) (finditer r s).

(** [re.sub(r, repl, s)], the replacement computed from the match. *)
Fixpoint sub_spans (ms : list rmatch_obj) (repl : rmatch_obj -> string)
  (from : nat) (s : string) : string :=
  match ms with
  | [] => Str.drop from s
  | m :: ms' =>
      Str.slice from (mo_start m) s +++ repl m +++ sub_spans ms' repl (mo_end m) s
  end.

Definition sub (r : regex) (repl : rmatch_obj -> string) (s : string) : string :=
  sub_spans (finditer r s) repl 0 s.

End Re.

(** ** The patterns of the source *)

Module Pat.
Import Re.

(** [\s*], [\s+] and [[a-zA-Z_][a-zA-Z0-9_]* ], written IDENT in the comments below *)
Definition SP : regex := Star (Chr Str.is_space).
Definition SP1 : regex := Plus (Chr Str.is_space).
Definition IDENT : regex := Cat (Chr Str.is_alpha_) (Star (Chr Str.is_word)).

(** The double quote character. *)
Definition dquote : ascii := ascii_of_nat 34.

(** [(int|char|double|float|long|short|void)] as group 1, written (TYPES) below *)
Definition TYPE_KW : regex :=
  Grp 1 (Alts [Lit "int"; Lit "char"; Lit "double"; Lit "float";
               Lit "long"; Lit "short"; Lit "void"]).

(** [\b(TYPES)\s+IDENT\s*\([^)]*\)\s*{] *)
Definition FUNC_DEF : regex :=
  Cats [WordB; TYPE_KW; SP1; IDENT; SP; Lit "("; Star (NotC ")"); Lit ")";
        SP; Lit "{"].

(** [\*\s*(IDENT)\s*=] *)
Definition DEREF_ASSIGN : regex :=
  Cats [Lit "*"; SP; Grp 1 IDENT; SP; Lit "="].

(** [==] *)
Definition EQEQ : regex := Lit "==".

(** [\b(TYPES)\s*\*] *)
Definition PTR_TYPE : regex := Cats [WordB; TYPE_KW; SP; Lit "*"].

(** [\b(TYPES)\s*\*?\s*(IDENT)\s*=] *)
Definition DECL_INIT : regex :=
  Cats [WordB; TYPE_KW; SP; Opt (Lit "*"); SP; Grp 2 IDENT; SP; Lit "="].

(** [\b(TYPES)\s*\*?\s+(IDENT)\s*(?:,|;)] *)
Definition DECL_LIST : regex :=
  Cats [WordB; TYPE_KW; SP; Opt (Lit "*"); SP1; Grp 2 IDENT; SP;
        Alt (Lit ",") (Lit ";")].

(** [\b(TYPES)\s*(\*?)] *)
Definition DECL_TYPE : regex :=
  Cats [WordB; TYPE_KW; SP; Grp 2 (Opt (Lit "*"))].

(** [(IDENT)\s*(?:[,;])] *)
Definition DECL_NAME : regex :=
  Cats [Grp 1 IDENT; SP;
        Chr (fun c => Ascii.eqb c ","%char || Ascii.eqb c ";"%char)].

(** [\b(IDENT)\s*=] *)
Definition ASSIGN : regex := Cats [WordB; Grp 1 IDENT; SP; Lit "="].

(** [\*] *)
Definition STAR : regex := Lit "*".

(** [\b(if|while|for)\s*\(] *)
Definition CONTROL : regex :=
  Cats [WordB; Grp 1 (Alts [Lit "if"; Lit "while"; Lit "for"]); SP; Lit "("].

(** [(IDENT)\s*\(] *)
Definition CALL_HEAD : regex := Cats [Grp 1 IDENT; SP; Lit "("].

(** [(IDENT)\s*=] *)
Definition ASSIGN_TARGET : regex := Cats [Grp 1 IDENT; SP; Lit "="].

(** [\*\s*(IDENT)] *)
Definition DEREF : regex := Cats [Lit "*"; SP; Grp 1 IDENT].

(** [\bIDENT\s*\((ARGS)\)] with ARGS the class [[^)]] repeated, greedy *)
Definition CALL : regex :=
  Cats [WordB; IDENT; SP; Lit "("; Grp 1 (Star (NotC ")")); Lit ")"].

(** [\b(IDENT)\b] *)
Definition WORD : regex := Cats [WordB; Grp 1 IDENT; WordB].

(** [(IDENT)\s*\[([^\]]+)\]] *)
Definition ARRAY : regex :=
  Cats [Grp 1 IDENT; SP; Lit "["; Grp 2 (Plus (NotC "]")); Lit "]"].

(** A double quote, characters other than it, a double quote; and the same
    with single quotes. *)
Definition STRING_LIT : regex :=
  Cats [Lit1 dquote; Star (NotC dquote); Lit1 dquote].
Definition CHAR_LIT : regex := Cats [Lit "'"; Star (NotC "'"%char); Lit "'"].

(** [\b\d+\b] *)
Definition NUMBER : regex := Cats [WordB; Plus (Chr Str.is_digit); WordB].

(** [\b(IDENT)\.IDENT] *)
Definition FIELD : regex := Cats [WordB; Grp 1 IDENT; Lit "."; IDENT].

(** [free\s*\(\s*(IDENT)\s*\)] *)
Definition FREE : regex :=
  Cats [Lit "free"; SP; Lit "("; SP; Grp 1 IDENT; SP; Lit ")"].

(** [\b(TYPES)\s+main\s*\(] *)
Definition MAIN_SIG : regex :=
  Cats [WordB; TYPE_KW; SP1; Lit "main"; SP; Lit "("].

(** [\b(if|for|while)\s*\(] *)
Definition IF_FOR_WHILE : regex :=
  Cats [WordB; Grp 1 (Alts [Lit "if"; Lit "for"; Lit "while"]); SP; Lit "("].

(** [\b(for|while)\s*\(] *)
Definition LOOP_HEAD : regex :=
  Cats [WordB; Grp 1 (Alts [Lit "for"; Lit "while"]); SP; Lit "("].

(** [\bif\s*\(] *)
Definition IF_HEAD : regex := Cats [WordB; Lit "if"; SP; Lit "("].

(** [\belse\b] *)
Definition ELSE : regex := Cats [WordB; Lit "else"; WordB].

(** [\b(if|for|while|else|return)\b] *)
Definition KEYWORD : regex :=
  Cats [WordB;
        Grp 1 (Alts [Lit "if"; Lit "for"; Lit "while"; Lit "else"; Lit "return"]);
        WordB].

End Pat.

(** ** Data model of the dataflow analyzer *)

(** [{'definitions': [(line, details)], 'uses': [(line, details)]}] *)
Record VarRec : Type := mkVarRec {
  definitions : list (nat * string);
  uses : list (nat * string)
}.

(** [{'reads': [...], 'writes': [...], 'operation': ''}] *)
Record LineRecord : Type := mkLineRecord {
  reads : list string;
  writes : list string;
  operation : string
}.

Definition Variables : Type := list (string * VarRec).
Definition LineAnalysis : Type := list (nat * LineRecord).
Definition Dependencies : Type := list (string * list string).
Definition ReachingDefinitions : Type := list (nat * list string).

Definition var_get (vs : Variables) (x : string) : option VarRec :=
  dict_get String.eqb vs x.
Definition la_get (la : LineAnalysis) (n : nat) : option LineRecord :=
  dict_get Nat.eqb la n.

(** ** [DataflowAnalyzer.extract_variables_from_expression] *)

Definition c_keywords : list string :=
  ["int"; "char"; "double"; "float"; "long"; "short"; "void"; "signed";
   "unsigned"; "if"; "else"; "while"; "for"; "do"; "switch"; "case";
   "default"; "break"; "continue"; "return"; "sizeof"; "typedef"; "struct";
   "union"; "enum"; "static"; "extern"; "const"; "volatile"; "register";
   "auto"; "inline"; "restrict"; "NULL"].

(** The variables that one argument of a call contributes. *)
Definition call_arg_variables (arg0 : string) : list string :=
  let arg := Str.strip arg0 in
  if negb (String.eqb arg "") && negb (Str.isdigit arg) then
    (if Str.contains "*" arg then
       match Re.search Pat.DEREF arg with
       | Some m => let ptr_name := Re.group arg m 1 in [ptr_name; "*" +++ ptr_name]
       | None => []
       end
     else [])
    ++ filter (fun var => negb (Str.mem var ["int"; "char"; "double"; "float";
                                             "NULL"; "sizeof"]))
         (Re.findall1 Pat.WORD arg)
  else [].

Definition call_variables (expression : string) (call : Re.rmatch_obj) : list string :=
  let args := Str.strip (Re.group expression call 1) in
  if String.eqb args "" then []
  else flat_map call_arg_variables (Str.split_char "," args).

Definition array_variables (expression : string) (m : Re.rmatch_obj) : list string :=
  let arr_name := Re.group expression m 1 in
  let index_expr := Re.group expression m 2 in
  arr_name ::
  filter (fun var => negb (Str.mem var c_keywords) && (0 <? String.length var))
    (Re.findall1 Pat.WORD index_expr).

Definition extract_variables_from_expression (expression0 : string) : list string :=
  if String.eqb expression0 "" then []
  else
    (* remove comments first *)
    let expression :=
      match Str.find "//" expression0 with
      | Some comment_pos => Str.take comment_pos expression0
      | None => expression0
      end in
    (* pointer dereferences *)
    let variables :=
      flat_map (fun m => let ptr_name := Re.group expression m 1 in
                         [ptr_name; "*" +++ ptr_name])
        (Re.finditer Pat.DEREF expression) in
    (* function call arguments *)
    let variables :=
      variables ++ flat_map (call_variables expression)
                     (Re.finditer Pat.CALL expression) in
    (* array accesses *)
    let variables :=
      variables ++ flat_map (array_variables expression)
                     (Re.finditer Pat.ARRAY expression) in
    (* remove function calls, string literals and numbers *)
    let cleaned := Re.sub Pat.STRING_LIT (fun _ => "") expression in
    let cleaned := Re.sub Pat.CHAR_LIT (fun _ => "") cleaned in
    let cleaned := Re.sub Pat.NUMBER (fun _ => "") cleaned in
    let cleaned := Re.sub Pat.CALL (fun _ => "") cleaned in
    let cleaned := Re.sub Pat.DEREF (fun _ => "") cleaned in
    let cleaned := Re.sub (Re.Cats [Pat.IDENT; Pat.SP; Re.Lit "[";
                                    Re.Plus (Re.NotC "]"); Re.Lit "]"])
                     (fun _ => "") cleaned in
    let cleaned := Re.sub Pat.FIELD (fun m => Re.group cleaned m 1 +++ " ") cleaned in
    let variables :=
      variables ++ filter (fun m => negb (Str.mem m c_keywords)
                                    && (0 <? String.length m))
                     (Re.findall1 Pat.WORD cleaned) in
    list_set variables.

(** ** [add_variable_definition], [add_variable_use] *)

Definition add_variable_definition (variables : Variables) (var_name : string)
  (line_num : nat) (details : string) : Variables :=
  let r := match var_get variables var_name with
           | Some r => r
           | None => mkVarRec [] []
           end in
  dict_set String.eqb variables var_name
    (mkVarRec (definitions r ++ [(line_num, details)]) (uses r)).

Definition add_variable_use (variables : Variables) (var_name : string)
  (line_num : nat) (details : string) : Variables :=
  let r := match var_get variables var_name with
           | Some r => r
           | None => mkVarRec [] []
           end in
  dict_set String.eqb variables var_name
    (mkVarRec (definitions r) (uses r ++ [(line_num, details)])).

(** ** [DataflowAnalyzer.analyze_variables] *)

(** The locals of one iteration ([reads], [writes], [operation]) together
    with the variable table. *)
Record LineAcc : Type := mkLineAcc {
  acc_reads : list string;
  acc_writes : list string;
  acc_operation : string;
  acc_variables : Variables
}.

(** Skip empty lines, comments, and preprocessor lines. *)
Definition is_skipped (line : string) : bool :=
  let line_stripped := Str.strip line in
  String.eqb line_stripped "" || Str.startswith "//" line_stripped
  || Str.startswith "#" line_stripped.

Definition is_function_definition (line : string) : bool :=
  Re.matches Pat.FUNC_DEF line.

(** The guards of the [if]/[elif] chain, in the order of the source. *)
Definition is_deref_assignment (line : string) : bool :=
  Re.matches Pat.DEREF_ASSIGN line && negb (Re.matches Pat.EQEQ line)
  && negb (Re.matches Pat.PTR_TYPE line).
Definition is_decl_init (line : string) : bool := Re.matches Pat.DECL_INIT line.
Definition is_decl_list (line : string) : bool := Re.matches Pat.DECL_LIST line.
Definition is_assignment (line : string) : bool :=
  Re.matches Pat.ASSIGN line && negb (Re.matches Pat.EQEQ line)
  && negb (Re.matches Pat.STAR line).
Definition is_control (line : string) : bool := Re.matches Pat.CONTROL line.
Definition is_call (line : string) : bool := Re.matches Pat.CALL_HEAD line.
Definition is_return (line : string) : bool := Str.contains "return" line.

(** [line.split('=', 1)[1] if '=' in line else the empty string] *)
Definition assignment_part (line : string) : string := Str.after_first "=" line.

Definition deref_assignment_branch (i : nat) (line : string) (a : LineAcc) : LineAcc :=
  match Re.search Pat.DEREF_ASSIGN line with
  | Some deref_match =>
      let ptr_name := Re.group line deref_match 1 in
      let deref_name := "*" +++ ptr_name in
      let operation := "Pointer dereference assignment: *" +++ ptr_name +++ " = value" in
      let reads := acc_reads a ++ [ptr_name] in
      let writes := acc_writes a ++ [deref_name] in
      let variables := add_variable_definition (acc_variables a) deref_name i operation in
      let reads := reads ++ extract_variables_from_expression (assignment_part line) in
      mkLineAcc reads writes operation variables
  | None => a
  end.

Definition decl_init_branch (i : nat) (line : string) (a : LineAcc) : LineAcc :=
  match Re.search Pat.DECL_INIT line with
  | Some decl_match =>
      let var_name := Re.group line decl_match 2 in
      let writes := acc_writes a ++ [var_name] in
      let operation := "Declaration and assignment of " +++ var_name in
      let variables := add_variable_definition (acc_variables a) var_name i operation in
      let reads := acc_reads a ++ extract_variables_from_expression (assignment_part line) in
      mkLineAcc reads writes operation variables
  | None => a
  end.

Definition decl_list_branch (i : nat) (line : string) (a : LineAcc) : LineAcc :=
  match Re.search Pat.DECL_TYPE line with
  | Some type_match =>
      let is_pointer := String.eqb (Re.group line type_match 2) "*" in
      let remaining := Str.drop (Re.mo_end type_match) line in
      let var_names := Re.findall1 Pat.DECL_NAME remaining in
      fold_left
        (fun a var_name =>
           if negb (Str.mem var_name (acc_writes a)) then
             let writes := acc_writes a ++ [var_name] in
             let ptr_str := if is_pointer then " pointer" else "" in
             let operation := "Declaration of " +++ var_name +++ ptr_str in
             mkLineAcc (acc_reads a) writes operation
               (add_variable_definition (acc_variables a) var_name i operation)
           else a)
        var_names a
  | None => a
  end.

Definition assignment_branch (i : nat) (line : string) (a : LineAcc) : LineAcc :=
  match Re.search Pat.ASSIGN line with
  | Some assignment_match =>
      let var_name := Re.group line assignment_match 1 in
      let writes := acc_writes a ++ [var_name] in
      let operation := "Assignment to " +++ var_name in
      let variables := add_variable_definition (acc_variables a) var_name i operation in
      let reads := acc_reads a ++ extract_variables_from_expression (assignment_part line) in
      mkLineAcc reads writes operation variables
  | None => a
  end.

Definition control_branch (i : nat) (line : string) (a : LineAcc) : LineAcc :=
  match Re.search Pat.CONTROL line with
  | Some control_match =>
      let control_type := Re.group line control_match 1 in
      let operation := "Control flow: " +++ control_type +++ " statement" in
      let reads :=
        match Str.find_char "(" line, Str.find_char ")" line with
        | Some paren_start, Some paren_end =>
            let condition := Str.slice (paren_start + 1) paren_end line in
            acc_reads a ++ extract_variables_from_expression condition
        | _, _ => acc_reads a
        end in
      mkLineAcc reads (acc_writes a) operation (acc_variables a)
  | None => a
  end.

(** [line[:paren_start]], where [paren_start] may be [-1]. *)
Definition before_paren (paren_start : option nat) (line : string) : string :=
  match paren_start with
  | Some n => Str.take n line
  | None => Str.take (String.length line - 1) line
  end.

Definition call_branch (i : nat) (line : string) (a : LineAcc) : LineAcc :=
  match Re.search Pat.CALL_HEAD line with
  | Some func_match =>
      let func_name := Re.group line func_match 1 in
      let operation := "Function call: " +++ func_name +++ "()" in
      let paren_start := Str.find_char "(" line in
      let paren_end := Str.rfind_char ")" line in
      let reads :=
        match paren_start, paren_end with
        | Some ps, Some pe =>
            let args := Str.slice (ps + 1) pe line in
            acc_reads a ++ extract_variables_from_expression args
        | _, _ => acc_reads a
        end in
      let a := mkLineAcc reads (acc_writes a) operation (acc_variables a) in
      (* special handling for memory allocation functions *)
      if Str.mem func_name ["malloc"; "calloc"; "realloc"] && Str.contains "=" line then
        match Re.search Pat.ASSIGN_TARGET (before_paren paren_start line) with
        | Some assign_match =>
            let ptr_var := Re.group (before_paren paren_start line) assign_match 1 in
            if negb (Str.mem ptr_var (acc_writes a)) then
              let writes := acc_writes a ++ [ptr_var] in
              let operation := "Memory allocation: " +++ ptr_var +++ " = "
                               +++ func_name +++ "(...)" in
              mkLineAcc (acc_reads a) writes operation
                (add_variable_definition (acc_variables a) ptr_var i operation)
            else a
        | None => a
        end
      else a
  | None => a
  end.

Definition return_branch (i : nat) (line : string) (a : LineAcc) : LineAcc :=
  let operation := "Return statement" in
  let return_part := Str.after_first "return" line in
  mkLineAcc (acc_reads a ++ extract_variables_from_expression return_part)
    (acc_writes a) operation (acc_variables a).

(** The [if]/[elif] chain of the loop body: first matching rule wins. *)
Definition classify (i : nat) (line : string) (a : LineAcc) : LineAcc :=
  if is_deref_assignment line then deref_assignment_branch i line a
  else if is_decl_init line then decl_init_branch i line a
  else if is_decl_list line then decl_list_branch i line a
  else if is_assignment line then assignment_branch i line a
  else if is_control line then control_branch i line a
  else if is_call line then call_branch i line a
  else if is_return line then return_branch i line a
  else a.

(** The analyzer's tables. *)
Record Analyzer : Type := mkAnalyzer {
  variables : Variables;
  line_analysis : LineAnalysis
}.

(** One iteration of [for i, line in enumerate(self.lines, 1)]. *)
Definition analyze_line (i : nat) (line : string) (st : Analyzer) : Analyzer :=
  if is_skipped line then st
  else if is_function_definition line then st
  else
    let a := classify i line (mkLineAcc [] [] "" (variables st)) in
    let vars :=
      fold_left (fun vs var =>
                   add_variable_use vs var i ("Used in: " +++ acc_operation a))
        (acc_reads a) (acc_variables a) in
    mkAnalyzer vars
      (dict_set Nat.eqb (line_analysis st) i
         (mkLineRecord (list_set (acc_reads a)) (list_set (acc_writes a))
            (acc_operation a))).

Fixpoint analyze_lines (i : nat) (lines : list string) (st : Analyzer) : Analyzer :=
  match lines with
  | [] => st
  | line :: rest => analyze_lines (S i) rest (analyze_line i line st)
  end.

Definition analyze_variables (lines : list string) : Analyzer :=
  analyze_lines 1 lines (mkAnalyzer [] []).

(** ** [DataflowAnalyzer.build_dependencies] *)

Definition add_dependency (written_var : string) (deps : Dependencies)
  (read_var : string) : Dependencies :=
  let cur := match dict_get String.eqb deps written_var with
             | Some l => l
             | None => []
             end in
  if negb (String.eqb read_var written_var) && negb (Str.mem read_var cur)
  then dict_set String.eqb deps written_var (cur ++ [read_var])
  else deps.

Definition add_written (analysis : LineRecord) (deps : Dependencies)
  (written_var : string) : Dependencies :=
  let deps :=
    if dict_mem String.eqb deps written_var then deps
    else dict_set String.eqb deps written_var [] in
  fold_left (add_dependency written_var) (reads analysis) deps.

Definition build_dependencies (la : LineAnalysis) : Dependencies :=
  fold_left (fun deps entry => fold_left (add_written (snd entry)) (writes (snd entry)) deps)
    la [].

(** ** [DataflowAnalyzer.compute_reaching_definitions] *)

(** The body of the scan for the latest definition before [line_num];
    [None] is Python's [None]. *)
Definition latest_step (line_num : nat) (latest_def : option nat) (d : nat * string)
  : option nat :=
  let def_line := fst d in
  if def_line <? line_num then
    match latest_def with
    | None => Some def_line
    | Some l => if l <? def_line then Some def_line else latest_def
    end
  else latest_def.

Definition latest_definition (defs : list (nat * string)) (line_num : nat) : option nat :=
  fold_left (latest_step line_num) defs None.

(** The text "Line {latest_def} (defines {read_var})". *)
Definition reaching_entry (latest_def : nat) (read_var : string) : string :=
  "Line " +++ Str.of_nat latest_def +++ " (defines " +++ read_var +++ ")".

(** The entries that one read variable contributes.  [if latest_def:] is
    false for [None] and for [0]. *)
Definition reaching_of_read (vs : Variables) (line_num : nat) (read_var : string)
  : list string :=
  match var_get vs read_var with
  | Some r =>
      match latest_definition (definitions r) line_num with
      | Some (S n) => [reaching_entry (S n) read_var]
      | _ => []
      end
  | None => []
  end.

Definition reaching_of_line (vs : Variables) (line_num : nat) (analysis : LineRecord)
  : list string :=
  flat_map (reaching_of_read vs line_num) (reads analysis).

Definition compute_reaching_definitions (vs : Variables) (la : LineAnalysis)
  : ReachingDefinitions :=
  fold_left
    (fun rd line_num =>
       match la_get la line_num with
       | Some analysis =>
           dict_set Nat.eqb rd line_num (reaching_of_line vs line_num analysis)
       | None => rd
       end)
    (dict_keys la) [].

(** [DataflowAnalyzer.analyze] *)
Record Dataflow : Type := mkDataflow {
  df_variables : Variables;
  df_line_analysis : LineAnalysis;
  df_dependencies : Dependencies;
  df_reaching_definitions : ReachingDefinitions
}.

Definition analyze (lines : list string) : Dataflow :=
  let st := analyze_variables lines in
  mkDataflow (variables st) (line_analysis st)
    (build_dependencies (line_analysis st))
    (compute_reaching_definitions (variables st) (line_analysis st)).

(** ** [DataflowAnalyzer.build_operation_sequence] *)

Inductive OpKind : Type := WRITE | READ | KILL.

(** One element of the operation list; [kind] is the key "operation", and
    [next = None] is Python's [None], the terminal value. *)
Record Operation : Type := mkOperation {
  operation_id : nat;
  variable_name : string;
  kind : OpKind;
  line_number : nat;
  details : string;
  next : option nat
}.

(** The locals [operations], [operation_id] and [variable_definitions]. *)
Record Builder : Type := mkBuilder {
  operations : list Operation;
  next_id : nat;
  variable_definitions : list (string * nat)
}.

Definition emit (b : Builder) (var : string) (k : OpKind) (line_num : nat)
  (det : string) : Builder :=
  mkBuilder
    (operations b ++ [mkOperation (next_id b) var k line_num det (Some (next_id b + 1))])
    (next_id b + 1)
    (variable_definitions b).

Definition redefinition_details (var : string) (prev : nat) : string :=
  "Variable '" +++ var +++ "' redefined, killing previous definition from line "
  +++ Str.of_nat prev.

Definition freed_details (freed_var : string) : string :=
  "Memory freed for variable '" +++ freed_var +++ "'".

(** The body of [for var in analysis['writes']]. *)
Definition emit_write (line_num : nat) (analysis : LineRecord) (b : Builder)
  (var : string) : Builder :=
  let b :=
    match dict_get String.eqb (variable_definitions b) var with
    | Some prev => emit b var KILL line_num (redefinition_details var prev)
    | None => b
    end in
  let b := emit b var WRITE line_num (operation analysis) in
  mkBuilder (operations b) (next_id b)
    (dict_set String.eqb (variable_definitions b) var line_num).

(** The body of [for var in analysis['reads']]. *)
Definition emit_read (line_num : nat) (analysis : LineRecord) (b : Builder)
  (var : string) : Builder :=
  emit b var READ line_num (operation analysis).

(** [self.lines[line_num - 1]].  The keys of the line-analysis table are
    1-based line numbers, so [line_num - 1] is the index of the line.  For the
    key 0 the index is -1, which Python counts from the end of the list: the
    last line.  (On an empty list the index -1 raises IndexError; the model
    reads the empty text there, which emits nothing.) *)
Definition line_of_key (lines : list string) (line_num : nat) : string :=
  match line_num with
  | 0 => last lines ""
  | S i => nth i lines ""
  end.

(** The explicit KILL of a line that calls [free]. *)
Definition freed_variable (lines : list string) (line_num : nat) : option string :=
  let line := line_of_key lines line_num in
  if (line_num <=? length lines) && Str.contains "free(" line then
    match Re.search Pat.FREE line with
    | Some free_match => Some (Re.group line free_match 1)
    | None => None
    end
  else None.

Definition emit_free (lines : list string) (line_num : nat) (b : Builder) : Builder :=
  match freed_variable lines line_num with
  | Some freed_var => emit b freed_var KILL line_num (freed_details freed_var)
  | None => b
  end.

(** One iteration of [for line_num in sorted(self.line_analysis.keys())]. *)
Definition process_line (lines : list string) (b : Builder) (line_num : nat)
  (analysis : LineRecord) : Builder :=
  let b := fold_left (emit_write line_num analysis) (writes analysis) b in
  let b := fold_left (emit_read line_num analysis) (reads analysis) b in
  emit_free lines line_num b.

(** [sorted] on line numbers. *)
Fixpoint insert_sorted (n : nat) (l : list nat) : list nat :=
  match l with
  | [] => [n]
  | m :: l' => if n <=? m then n :: l else m :: insert_sorted n l'
  end.

Definition sorted (l : list nat) : list nat := fold_right insert_sorted [] l.

(** [operations[-1]["next"] = None] *)
Fixpoint terminate (ops : list Operation) : list Operation :=
  match ops with
  | [] => []
  | [o] => [mkOperation (operation_id o) (variable_name o) (kind o)
              (line_number o) (details o) None]
  | o :: ops' => o :: terminate ops'
  end.

Definition run_builder (la : LineAnalysis) (lines : list string)
  (keys : list nat) (b : Builder) : Builder :=
  fold_left
    (fun b line_num =>
       match la_get la line_num with
       | Some analysis => process_line lines b line_num analysis
       | None => b
       end)
    keys b.

Definition build_operation_sequence (la : LineAnalysis) (lines : list string)
  : list Operation :=
  terminate (operations (run_builder la lines (sorted (dict_keys la))
                           (mkBuilder [] 0 []))).

(** The operation sequence of a source text. *)
Definition source_operation_sequence (lines : list string) : list Operation :=
  build_operation_sequence (line_analysis (analyze_variables lines)) lines.

(** ** Data model of the TTA graph analyzer *)

Inductive NodeType : Type := START | LOOP | XOR | ACTIVITY | END.

Definition NodeType_eqb (a b : NodeType) : bool :=
  match a, b with
  | START, START | LOOP, LOOP | XOR, XOR | ACTIVITY, ACTIVITY | END, END => true
  | _, _ => false
  end.

(** A block; [block_lines] is the key 'lines'. *)
Record Block : Type := mkBlock {
  block_id : nat;
  node_type : NodeType;
  start_line : nat;
  end_line : nat;
  block_lines : list string;
  code_preview : string;
  operation_sequence : list Operation
}.

(** The line styles of [arc_type]: 'solid' is a sequential arc, 'dashed' a
    conditional arc and 'dotted' a loop-back arc. *)
Inductive ArcType : Type := solid | dashed | dotted.

(** An arc; [arc_from] and [arc_to] are the keys 'from' and 'to'. *)
Record Arc : Type := mkArc {
  arc_from : nat;
  arc_to : nat;
  arc_type : ArcType;
  description : string
}.

(** ** [TTAGraphAnalyzer._create_block] *)

(** [l.strip() and not l.strip().startswith('//')] *)
Definition meaningful (l : string) : bool :=
  negb (String.eqb (Str.strip l) "") && negb (Str.startswith "//" (Str.strip l)).

Definition preview_of (lines : list string) : string :=
  let meaningful_lines := map Str.strip (filter meaningful lines) in
  match meaningful_lines with
  | preview :: _ =>
      if 50 <? String.length preview then Str.take 47 preview +++ "..."
      else preview
  | [] => "{ ... }"
  end.

Definition _create_block (blocks : list Block) (block_id start_line end_line : nat)
  (lines : list string) (block_type : NodeType) : list Block :=
  blocks ++ [mkBlock block_id block_type start_line end_line lines
               (preview_of lines) []].

(** ** [TTAGraphAnalyzer.create_logical_blocks], second pass *)

(** The cursor [i], the counter [block_id] and [self.blocks]. *)
Record Carve : Type := mkCarve {
  cursor : nat;
  block_counter : nat;
  blocks : list Block
}.

Definition emit_block (st : Carve) (new_cursor start_line end_line : nat)
  (lines : list string) (block_type : NodeType) : Carve :=
  mkCarve new_cursor (block_counter st + 1)
    (_create_block (blocks st) (block_counter st) start_line end_line lines block_type).

(** The look-ahead of the [return] rule over the lines after the cursor,
    [j] being the index of the head of [rest]: the index of a closing brace
    to absorb, if any. *)
Fixpoint return_lookahead (rest : list string) (j : nat) : option nat :=
  match rest with
  | [] => None
  | next_line :: rest' =>
      let next_line_stripped := Str.strip next_line in
      if String.eqb next_line_stripped "}" then
        let remaining_braces := length (filter (Str.contains "}") rest') in
        if remaining_braces =? 0 then Some j else None
      else if negb (String.eqb next_line_stripped "")
              && negb (Str.startswith "//" next_line_stripped) then None
      else return_lookahead rest' (S j)
  end.

Definition return_rule (lines : list string) (st : Carve) : Carve :=
  let i := cursor st in
  let line := nth i lines "" in
  let line_num := i + 1 in
  match return_lookahead (skipn (i + 1) lines) (i + 1) with
  | Some j => emit_block st (j + 1) line_num (j + 1) [line; nth j lines ""] END
  | None => emit_block st (i + 1) line_num line_num [line] END
  end.

(** The lines collected after [else {] while the brace count is positive. *)
Fixpoint collect_braces (rest : list string) (brace_count : Z) : list string :=
  match rest with
  | [] => []
  | current_line :: rest' =>
      if (0 <? brace_count)%Z then
        current_line ::
        collect_braces rest'
          (brace_count + Z.of_nat (Str.count_char "{" current_line)
           - Z.of_nat (Str.count_char "}" current_line))%Z
      else []
  end.

Definition else_rule (lines : list string) (st : Carve) : Carve :=
  let i := cursor st in
  let line := nth i lines "" in
  let start_line := i + 1 in
  if Str.contains "{" line then
    let block_lines := line :: collect_braces (skipn (i + 1) lines) 1 in
    let i' := i + length block_lines in
    if 2 <? length block_lines then
      emit_block st i' start_line (start_line + length block_lines - 1) block_lines ACTIVITY
    else mkCarve i' (block_counter st) (blocks st)
  else
    let block_lines :=
      if i + 1 <? length lines then [line; nth (i + 1) lines ""] else [line] in
    emit_block st (i + length block_lines) start_line
      (start_line + length block_lines - 1) block_lines ACTIVITY.

Definition has_control_keyword (s : string) : bool :=
  existsb (fun keyword => Str.contains keyword s) ["if"; "for"; "while"; "else"].

(** [if '{' in line and i > 0:] with the test on the previous line. *)
Definition brace_rule_applies (lines : list string) (i : nat) : bool :=
  Str.contains "{" (nth i lines "") && (0 <? i)
  && has_control_keyword (Str.strip (nth (i - 1) lines "")).

(** The lines after an opening brace up to a control keyword or a closing
    brace: the lines kept and the number of lines passed. *)
Fixpoint collect_body (rest : list string) : list string * nat :=
  match rest with
  | [] => ([], 0)
  | current_line :: rest' =>
      let current_stripped := Str.strip current_line in
      if Re.matches Pat.KEYWORD current_stripped || Str.contains "}" current_stripped
      then ([], 0)
      else
        let (kept, passed) := collect_body rest' in
        (if negb (String.eqb current_stripped "")
            || Str.startswith "//" current_stripped
         then current_line :: kept else kept, S passed)
  end.

Definition brace_rule (lines : list string) (st : Carve) : Carve :=
  let i := cursor st in
  let start_line := i + 1 in
  let (block_lines, passed) := collect_body (skipn (i + 1) lines) in
  let i' := i + 1 + passed in
  if negb (length block_lines =? 0) && negb (length (filter meaningful block_lines) =? 0)
  then emit_block st i' start_line (start_line + length block_lines - 1) block_lines ACTIVITY
  else mkCarve i' (block_counter st) (blocks st).

(** The statements that follow a regular statement, up to a block boundary. *)
Fixpoint collect_run (rest : list string) : list string :=
  match rest with
  | [] => []
  | current_line :: rest' =>
      let current_stripped := Str.strip current_line in
      if String.eqb current_stripped ""
         || Str.startswith "#" current_stripped
         || Re.matches Pat.KEYWORD current_stripped
         || String.eqb current_stripped "}"
         || (Str.contains "}" current_stripped && negb (Str.contains "{" current_stripped))
      then []
      else current_line :: collect_run rest'
  end.

Definition regular_rule (lines : list string) (st : Carve) : Carve :=
  let i := cursor st in
  let line := nth i lines "" in
  let start_line := i + 1 in
  let block_lines := line :: collect_run (skipn (i + 1) lines) in
  let i' := i + length block_lines in
  if negb (length (filter meaningful block_lines) =? 0)
  then emit_block st i' start_line (start_line + length block_lines - 1) block_lines ACTIVITY
  else mkCarve i' (block_counter st) (blocks st).

(** One iteration of [while i < len(self.lines)]: the ordered rules. *)
Definition carve_step (lines : list string) (st : Carve) : Carve :=
  let i := cursor st in
  let line := nth i lines "" in
  let line_num := i + 1 in
  let line_stripped := Str.strip line in
  if String.eqb line_stripped "" || Str.startswith "#" line_stripped then
    mkCarve (i + 1) (block_counter st) (blocks st)
  else if Re.matches Pat.MAIN_SIG line then
    emit_block st (i + 1) line_num line_num [line] START
  else if Re.matches Pat.LOOP_HEAD line then
    emit_block st (i + 1) line_num line_num [line] LOOP
  else if Re.matches Pat.IF_HEAD line then
    emit_block st (i + 1) line_num line_num [line] XOR
  else if Str.contains "return" line then return_rule lines st
  else if Re.matches Pat.ELSE line then else_rule lines st
  else if brace_rule_applies lines i then brace_rule lines st
  else if negb (String.eqb line_stripped "") && negb (Str.startswith "//" line_stripped)
  then regular_rule lines st
  else mkCarve (i + 1) (block_counter st) (blocks st).

(** The [while] loop; every iteration moves the cursor forward, so
    [length lines] iterations are enough (lemma [carve_loop_finished]). *)
Fixpoint carve_loop (fuel : nat) (lines : list string) (st : Carve) : Carve :=
  match fuel with
  | 0 => st
  | S fuel' =>
      if cursor st <? length lines then carve_loop fuel' lines (carve_step lines st)
      else st
  end.

Definition carve_init : Carve := mkCarve 0 0 [].

Definition create_logical_blocks (lines : list string) : list Block :=
  blocks (carve_loop (length lines) lines carve_init).

(** ** [TTAGraphAnalyzer.create_logical_blocks], first pass

    The first pass fills the locals [control_structures] and [brace_stack];
    the second pass does not read them, so the block list does not depend on
    this pass. *)

Inductive StructKind : Type := FUNCTION | IF | FOR | WHILE | ELSE_KIND | BLOCK.

Record Discovery : Type := mkDiscovery {
  control_structures : list (StructKind * nat * option nat);
  brace_stack : list (StructKind * nat)
}.

Definition control_kind (line : string) : StructKind :=
  if Str.contains "if" line then IF
  else if Str.contains "for" line then FOR else WHILE.

(** The update of the last open structure that starts at [start_line]. *)
Fixpoint close_structure (rev_structures : list (StructKind * nat * option nat))
  (start_line line_num : nat) : list (StructKind * nat * option nat) :=
  match rev_structures with
  | [] => []
  | (k, s, e) :: rest =>
      match e with
      | None => if s =? start_line then (k, s, Some line_num) :: rest
                else (k, s, e) :: close_structure rest start_line line_num
      | Some _ => (k, s, e) :: close_structure rest start_line line_num
      end
  end.

Definition discover_line (d : Discovery) (line_num : nat) (line : string) : Discovery :=
  let line_stripped := Str.strip line in
  if String.eqb line_stripped "" || Str.startswith "//" line_stripped
     || Str.startswith "#" line_stripped then d
  else
    let d :=
      if Re.matches Pat.MAIN_SIG line then
        mkDiscovery (control_structures d ++ [(FUNCTION, line_num, None)])
          (if Str.contains "{" line then brace_stack d ++ [(FUNCTION, line_num)]
           else brace_stack d)
      else if Re.matches Pat.IF_FOR_WHILE line then
        mkDiscovery (control_structures d ++ [(control_kind line, line_num, None)])
          (if Str.contains "{" line then brace_stack d ++ [(control_kind line, line_num)]
           else brace_stack d)
      else if Re.matches Pat.ELSE line then
        mkDiscovery (control_structures d ++ [(ELSE_KIND, line_num, None)])
          (if Str.contains "{" line then brace_stack d ++ [(ELSE_KIND, line_num)]
           else brace_stack d)
      else if Str.contains "{" line && negb (has_control_keyword line) then
        mkDiscovery (control_structures d)
          (match brace_stack d with
           | [] => []
           | _ => brace_stack d ++ [(BLOCK, line_num)]
           end)
      else d in
    if Str.contains "}" line then
      match List.rev (brace_stack d) with
      | [] => d
      | (_, start_line) :: rev_stack =>
          mkDiscovery
            (List.rev (close_structure (List.rev (control_structures d)) start_line line_num))
            (List.rev rev_stack)
      end
    else d.

Fixpoint discover_from (line_num : nat) (lines : list string) (d : Discovery) : Discovery :=
  match lines with
  | [] => d
  | line :: rest => discover_from (S line_num) rest (discover_line d line_num line)
  end.

Definition discover_structures (lines : list string) : Discovery :=
  discover_from 1 lines (mkDiscovery [] []).

(** ** [TTAGraphAnalyzer.create_control_flow_arcs] and its searches *)

Definition type_at (blocks : list Block) (i : nat) : option NodeType :=
  option_map node_type (nth_error blocks i).

Definition has_type (blocks : list Block) (i : nat) (ts : list NodeType) : bool :=
  match type_at blocks i with
  | Some t => existsb (NodeType_eqb t) ts
  | None => false
  end.

(** [range(start, stop, -1)] *)
Definition range_down (start stop : Z) : list Z :=
  map (fun k => (start - Z.of_nat k)%Z) (seq 0 (Z.to_nat (start - stop))).

(** [range(start, stop)] on natural numbers. *)
Definition range (start stop : nat) : list nat := seq start (stop - start).

Definition _is_branch_block (blocks : list Block) (block_idx : nat) : bool :=
  existsb (fun i => has_type blocks (Z.to_nat i) [XOR])
    (range_down (Z.of_nat block_idx - 1) (Z.max 0 (Z.of_nat block_idx - 3))).

Definition _find_merge_point (blocks : list Block) (branch_idx : nat) : option nat :=
  List.find
    (fun i => has_type blocks i [LOOP; XOR; END]
              || (has_type blocks i [ACTIVITY] && negb (_is_branch_block blocks i)))
    (range (branch_idx + 1) (length blocks)).

Definition _find_xor_branches (blocks : list Block) (xor_idx : nat) : list nat :=
  let branches := if xor_idx + 1 <? length blocks then [xor_idx + 1] else [] in
  let true_branch_end := xor_idx + 1 in
  match nth_error blocks true_branch_end with
  | Some block =>
      if NodeType_eqb (node_type block) ACTIVITY then
        match nth_error blocks (true_branch_end + 1) with
        | Some next_block =>
            if NodeType_eqb (node_type next_block) ACTIVITY then
              let has_else := existsb (Str.contains "else") (block_lines next_block) in
              if has_else || (true_branch_end + 1 =? xor_idx + 2)
              then branches ++ [true_branch_end + 1]
              else branches
            else branches
        | None => branches
        end
      else branches
  | None => branches
  end.

Definition _is_loop_end (blocks : list Block) (block_idx : nat) : bool :=
  match nth_error blocks block_idx with
  | Some block => existsb (Str.contains "}") (block_lines block)
  | None => false
  end.

(** The first loop of [_find_loop_exit], over the indices [idxs]. *)
Fixpoint loop_exit_scan (blocks : list Block) (loop_idx : nat) (idxs : list nat)
  (loop_depth : nat) : option nat :=
  match idxs with
  | [] => None
  | i :: rest =>
      let loop_depth := if has_type blocks i [LOOP] then loop_depth + 1 else loop_depth in
      if (loop_depth =? 0) && has_type blocks i [XOR; LOOP; END] then Some i
      else if (loop_depth =? 0) && has_type blocks i [ACTIVITY] && (loop_idx + 2 <? i)
      then Some i
      else
        let loop_depth :=
          if (0 <? loop_depth) && _is_loop_end blocks i then loop_depth - 1
          else loop_depth in
        loop_exit_scan blocks loop_idx rest loop_depth
  end.

Definition _find_loop_exit (blocks : list Block) (loop_idx : nat) : option nat :=
  match loop_exit_scan blocks loop_idx (range (loop_idx + 1) (length blocks)) 0 with
  | Some i => Some i
  | None =>
      (* default to the END block *)
      List.find (fun i => has_type blocks i [END]) (range (loop_idx + 1) (length blocks))
  end.

Definition list_max (l : list nat) : nat := fold_right Nat.max 0 l.

(** The loop of [_find_loop_body_end], over the indices [idxs]. *)
Fixpoint loop_body_scan (blocks : list Block) (loop_exit : option nat)
  (idxs : list nat) (last_activity : option nat) : option nat :=
  match idxs with
  | [] => last_activity
  | i :: rest =>
      let stop := match loop_exit with
                  | Some e => e <=? i
                  | None => false
                  end in
      if stop then last_activity
      else if has_type blocks i [ACTIVITY] then
        loop_body_scan blocks loop_exit rest (Some i)
      else if has_type blocks i [XOR] then
        match _find_xor_branches blocks i with
        | [] => loop_body_scan blocks loop_exit rest last_activity
        | branches => loop_body_scan blocks loop_exit rest (Some (list_max branches))
        end
      else loop_body_scan blocks loop_exit rest last_activity
  end.

Definition _find_loop_body_end (blocks : list Block) (loop_idx : nat) : option nat :=
  loop_body_scan blocks (_find_loop_exit blocks loop_idx)
    (range (loop_idx + 1) (length blocks)) None.

(** The arcs that the block at index [i] contributes. *)
Definition arcs_of_block (blocks : list Block) (i : nat) (block : Block) : list Arc :=
  match node_type block with
  | START =>
      if i + 1 <? length blocks then [mkArc i (i + 1) solid "Function entry"] else []
  | ACTIVITY =>
      if _is_branch_block blocks i then
        match _find_merge_point blocks i with
        | Some merge_point => [mkArc i merge_point solid "Branch to merge"]
        | None => []
        end
      else if (i + 1 <? length blocks) && negb (has_type blocks (i + 1) [END])
      then [mkArc i (i + 1) solid "Sequential"]
      else []
  | LOOP =>
      (if i + 1 <? length blocks then [mkArc i (i + 1) dashed "Loop true"] else [])
      ++ match _find_loop_exit blocks i with
         | Some loop_exit => [mkArc i loop_exit dashed "Loop false"]
         | None => []
         end
      ++ match _find_loop_body_end blocks i with
         | Some loop_end => [mkArc loop_end i dotted "Loop back"]
         | None => []
         end
  | XOR =>
      let branches := _find_xor_branches blocks i in
      match branches with
      | [] => []
      | [b0] => [mkArc i b0 dashed "If true"]
      | b0 :: b1 :: _ => [mkArc i b0 dashed "If true"; mkArc i b1 dashed "If false"]
      end
  | END => []
  end.

Fixpoint arcs_from (blocks : list Block) (i : nat) (rest : list Block) : list Arc :=
  match rest with
  | [] => []
  | block :: rest' => arcs_of_block blocks i block ++ arcs_from blocks (S i) rest'
  end.

Definition create_control_flow_arcs (blocks : list Block) : list Arc :=
  arcs_from blocks 0 blocks.

(** ** [TTAGraphAnalyzer.assign_operation_sequences] and [analyze] *)

Definition assign_operation_sequences (ops : list Operation) (blocks : list Block)
  : list Block :=
  map (fun block =>
         mkBlock (block_id block) (node_type block) (start_line block)
           (end_line block) (block_lines block) (code_preview block)
           (filter (fun op => (start_line block <=? line_number op)
                              && (line_number op <=? end_line block)) ops))
    blocks.

Record TTAGraph : Type := mkTTAGraph {
  tta_blocks : list Block;
  tta_arcs : list Arc
}.

(** [TTAGraphAnalyzer.analyze] after [DataflowAnalyzer.analyze] on the same
    text. *)
Definition tta_analyze (lines : list string) : TTAGraph :=
  let blocks := create_logical_blocks lines in
  let arcs := create_control_flow_arcs blocks in
  mkTTAGraph (assign_operation_sequences (source_operation_sequence lines) blocks) arcs.

(** ** [CSyntaxDirectedEnvironment.check_syntax_errors]

    The list [self.syntax_errors] that the method builds; showing it in the
    error pane is left out. *)

(** The counters [brace_count], [paren_count], [bracket_count] and the
    messages so far. *)
Record SyntaxScan : Type := mkSyntaxScan {
  brace_count : Z;
  paren_count : Z;
  bracket_count : Z;
  syntax_errors : list string
}.

(** [line.count(open) - line.count(close)] *)
Definition count_diff (open close : ascii) (line : string) : Z :=
  (Z.of_nat (Str.count_char open line) - Z.of_nat (Str.count_char close line))%Z.

(** Skip comments and preprocessor lines. *)
Definition is_comment_or_preprocessor (line : string) : bool :=
  let line_stripped := Str.strip line in
  Str.startswith "//" line_stripped || Str.startswith "#" line_stripped.

(** [line.count(double quote) % 2 != 0] *)
Definition has_unterminated_string (line : string) : bool :=
  negb (Nat.even (Str.count_char Pat.dquote line)).

Definition unterminated_message (i : nat) : string :=
  "Line " +++ Str.of_nat i +++ ": Unterminated string".

(** One iteration of [for i, line in enumerate(lines, 1)]. *)
Definition scan_line (i : nat) (line : string) (s : SyntaxScan) : SyntaxScan :=
  if is_comment_or_preprocessor line then s
  else
    mkSyntaxScan
      (brace_count s + count_diff "{" "}" line)
      (paren_count s + count_diff "(" ")" line)
      (bracket_count s + count_diff "[" "]" line)
      (if has_unterminated_string line
       then syntax_errors s ++ [unterminated_message i]
       else syntax_errors s).

Fixpoint scan_lines (i : nat) (lines : list string) (s : SyntaxScan) : SyntaxScan :=
  match lines with
  | [] => s
  | line :: rest => scan_lines (S i) rest (scan_line i line s)
  end.

(** The message "Unmatched {what}: {abs(count)} extra", when the count is
    not zero. *)
Definition unmatched_message (what : string) (count : Z) : list string :=
  if (count =? 0)%Z then []
  else ["Unmatched " +++ what +++ ": " +++ Str.of_nat (Z.to_nat (Z.abs count))
        +++ " extra"].

Definition check_syntax_errors (lines : list string) : list string :=
  let s := scan_lines 1 lines (mkSyntaxScan 0 0 0 []) in
  syntax_errors s
  ++ unmatched_message "braces" (brace_count s)
  ++ unmatched_message "parentheses" (paren_count s)
  ++ unmatched_message "brackets" (bracket_count s).

(** ** [CSyntaxDirectedEnvironment.find_next_block] and [_find_xor_branches]

    [tta] is [self.tta_analyzer], [None] when no analysis has run; the
    branch type is the text 'true' or 'false'. *)

Definition gui_find_xor_branches (tta : option (list Block)) (xor_idx : nat) : list nat :=
  match tta with
  | Some blocks =>
      if xor_idx <? length blocks then _find_xor_branches blocks xor_idx else []
  | None => []
  end.

Definition find_next_block (tta : option (list Block)) (from_block : nat)
  (branch_type : string) : option nat :=
  match tta with
  | None => None
  | Some blocks =>
      if length blocks <=? from_block then None
      else
        let branches := _find_xor_branches blocks from_block in
        if String.eqb branch_type "true" && negb (length branches =? 0)
        then nth_error branches 0
        else if String.eqb branch_type "false" && (1 <? length branches)
        then nth_error branches 1
        else None
  end.

(** * Vocabulary of the statements *)

(** What an operation says, apart from its place in the chain. *)
Definition event (o : Operation) : string * OpKind * nat * string :=
  (variable_name o, kind o, line_number o, details o).

(** [b'] extends [b] by the operations [l]. *)
Definition extends (b b' : Builder) (l : list Operation) : Prop :=
  operations b' = operations b ++ l /\ next_id b' = next_id b + length l.

(** The operations of a line carry its number, and are numbered from
    the counter on. *)
Definition chained (start : nat) (l : list Operation) : Prop :=
  forall i o, nth_error l i = Some o ->
    operation_id o = start + i /\ next o = Some (start + i + 1).

(** All operations of [l] carry the line number [n]. *)
Definition of_line (n : nat) (l : list Operation) : Prop :=
  Forall (fun o => line_number o = n) l.

(** A step that extends the builder by a chained list of operations of
    line [n]. *)
Definition emits (n : nat) (b b' : Builder) (l : list Operation) : Prop :=
  extends b b' l /\ chained (next_id b) l /\ of_line n l.

(** The events emitted so far by a builder. *)
Definition events (b : Builder) : list (string * OpKind * nat * string) :=
  map event (operations b).

(** The definition line that the builder records for [w]
    ([variable_definitions[w]]), if any. *)
Definition recorded (b : Builder) (w : string) : option nat :=
  dict_get String.eqb (variable_definitions b) w.





(** [self.dependencies.get(w)] *)
Definition deps_get (deps : Dependencies) (w : string) : option (list string) :=
  dict_get String.eqb deps w.

(** The entry of [w] in the map, read as a list. *)
Definition entry_of (deps : Dependencies) (w : string) : list string :=
  match deps_get deps w with Some ds => ds | None => [] end.

(** The invariant of the loop of [build_dependencies] over the entries
    [done] of the table already visited. *)
Definition deps_inv (done : LineAnalysis) (deps : Dependencies) : Prop :=
  forall w,
    NoDup (entry_of deps w) /\ ~ In w (entry_of deps w) /\
    (deps_get deps w <> None <-> exists L r, In (L, r) done /\ In w (writes r)) /\
    (forall v, In v (entry_of deps w) <->
       v <> w /\ exists L r, In (L, r) done /\ In w (writes r) /\ In v (reads r)).

(** The same, in the middle of a line: [ws] are the written variables of the
    line [(L, r)] already visited. *)
Definition deps_inv_mid (done : LineAnalysis) (L : nat) (r : LineRecord)
  (ws : list string) (deps : Dependencies) : Prop :=
  forall w,
    NoDup (entry_of deps w) /\ ~ In w (entry_of deps w) /\
    (deps_get deps w <> None <->
       (exists L' r', In (L', r') done /\ In w (writes r')) \/ In w ws) /\
    (forall v, In v (entry_of deps w) <->
       v <> w /\ ((exists L' r', In (L', r') done /\ In w (writes r') /\ In v (reads r'))
                  \/ (In w ws /\ In v (reads r)))).

(** Splits an instance of the invariant into its five parts. *)
Ltac split_inv v :=
  split; [|split; [|split; [split|intro v; split]]].

(** [d] is the line of the nearest definition of [v] before [L]: the
    greatest line number, strictly less than [L], among the recorded
    definitions of [v]. *)
Definition nearest_definition (vs : Variables) (v : string) (L d : nat) : Prop :=
  exists rec, var_get vs v = Some rec /\
    (exists det, In (d, det) (definitions rec)) /\ d < L /\
    forall d' det', In (d', det') (definitions rec) -> d' < L -> d' <= d.

(** Line numbers are 1-based: no recorded definition has line number 0. *)
Definition definitions_positive (vs : Variables) : Prop :=
  forall x rec d det,
    var_get vs x = Some rec -> In (d, det) (definitions rec) -> 1 <= d.

(** [v] has a recorded definition before [L]. *)
Definition defined_before (vs : Variables) (v : string) (L : nat) : Prop :=
  exists rec d det, var_get vs v = Some rec /\ In (d, det) (definitions rec) /\ d < L.

(** A line that reaches the classifier: not blank, not a comment, not a
    preprocessor line, and not a function definition line (the loop skips
    those before storing a record). *)
Definition analyzable (line : string) : bool :=
  negb (is_skipped line) && negb (is_function_definition line).

(** No guard of the classifier chain holds for the line. *)
Definition no_rule_matches (line : string) : bool :=
  negb (is_deref_assignment line) && negb (is_decl_init line)
  && negb (is_decl_list line) && negb (is_assignment line)
  && negb (is_control line) && negb (is_call line) && negb (is_return line).

(** The numbers of the analyzable lines, the first line having number [i]. *)
Fixpoint analyzable_from (i : nat) (lines : list string) : list nat :=
  match lines with
  | [] => []
  | line :: rest =>
      (if analyzable line then [i] else []) ++ analyzable_from (S i) rest
  end.

(** The record stored for a line from the locals of its iteration. *)
Definition record_of (a : LineAcc) : LineRecord :=
  mkLineRecord (list_set (acc_reads a)) (list_set (acc_writes a)) (acc_operation a).

(** The preview of a block is computed from its captured lines. *)
Definition preview_ok (b : Block) : Prop :=
  code_preview b = preview_of (block_lines b) /\ operation_sequence b = [].

(** What one iteration does: the cursor moves forward and at most one block
    is appended. *)
Definition advances (st st' : Carve) : Prop :=
  cursor st < cursor st' /\
  exists bs, blocks st' = blocks st ++ bs /\ Forall preview_ok bs.

(** The states that the cursor-driven loop goes through. *)
Inductive visits (lines : list string) : Carve -> Prop :=
| visits_init : visits lines carve_init
| visits_step st :
    visits lines st -> cursor st < length lines -> visits lines (carve_step lines st).

(** The five-line input of the end-to-end scenario. *)
Definition scenario : list string :=
  ["int a = 10;"; "int b = 5;"; "if (a > b) {"; "    int sum = a + b;"; "}"].

(** Conditional arcs are the dashed ones. *)
Definition is_conditional (a : Arc) : bool :=
  match arc_type a with dashed => true | _ => false end.

(** A variable written on three lines. *)
Definition three_writes_source : list string := ["x = 1;"; "x = 2;"; "x = 3;"].

(** The preview as the specification words it: the first non-comment,
    non-blank captured line, cut to its first 47 characters followed by an
    ellipsis if it is longer, and the sentinel when there is no such line. *)
Definition preview_as_specified (lines : list string) : string :=
  match filter meaningful lines with
  | first :: _ =>
      if 47 <? String.length first then Str.take 47 first +++ "..." else first
  | [] => "{ ... }"
  end.

(** A statement of 48 characters. *)
Definition line_of_48 : string := "int total_count = first_value + second_value_x1;".

(** Sources used to run the theorems. *)
Definition redefinition_source : list string := ["int x = 1;"; "int y = x;"; "x = 2;"].

Definition free_source : list string := ["p = q;"; "free(p);"].

Definition main_source : list string := ["int main() {"; "    return 0;"; "}"].

Definition return_source : list string := ["returnValue = compute();"].

(** [v] has a definition, a use, at line [L] in the variable table. *)
Definition defined_at (vs : Variables) (v : string) (L : nat) : Prop :=
  exists rec det, var_get vs v = Some rec /\ In (L, det) (definitions rec).

Definition used_at (vs : Variables) (v : string) (L : nat) : Prop :=
  exists rec det, var_get vs v = Some rec /\ In (L, det) (uses rec).

(** The record of line [L] lists [v] among its writes, its reads. *)
Definition written_at (la : LineAnalysis) (v : string) (L : nat) : Prop :=
  exists r, la_get la L = Some r /\ In v (writes r).

Definition read_at (la : LineAnalysis) (v : string) (L : nat) : Prop :=
  exists r, la_get la L = Some r /\ In v (reads r).

(** What the classifier does to the locals of a line: it appends the names
    [new] to [writes], records a definition at line [i] for each of them,
    and leaves the uses alone. *)
Definition classify_effect (i : nat) (a a' : LineAcc) (new : list string) : Prop :=
  acc_writes a' = acc_writes a ++ new /\
  (forall v L, defined_at (acc_variables a') v L <->
               defined_at (acc_variables a) v L \/ (L = i /\ In v new)) /\
  (forall v L, used_at (acc_variables a') v L <-> used_at (acc_variables a) v L).

(** The invariant of the loop of [analyze_variables] before line [i]. *)
Definition tables_agree (i : nat) (st : Analyzer) : Prop :=
  (forall v L, defined_at (variables st) v L <-> written_at (line_analysis st) v L) /\
  (forall v L, used_at (variables st) v L <-> read_at (line_analysis st) v L) /\
  Forall (fun k => k < i) (dict_keys (line_analysis st)).

(** The line number of an event. *)
Definition event_line (e : string * OpKind * nat * string) : nat := snd (fst e).

(** An event that the tables justify: a WRITE or READ of a variable that the
    record of its line writes or reads, with the label of that record; a
    KILL that is the explicit deallocation of its line, or the redefinition
    of a variable written on its line, naming an earlier or equal line that
    wrote the variable. *)
Definition sound_event (la : LineAnalysis) (lines : list string)
  (e : string * OpKind * nat * string) : Prop :=
  let '(v, k, L, d) := e in
  exists r, la_get la L = Some r /\
    match k with
    | WRITE => In v (writes r) /\ d = operation r
    | READ => In v (reads r) /\ d = operation r
    | KILL =>
        (freed_variable lines L = Some v /\ d = freed_details v) \/
        (In v (writes r) /\
         exists prev r', prev <= L /\ la_get la prev = Some r' /\
                         In v (writes r') /\ d = redefinition_details v prev)
    end.

(** Every recorded definition line is at most [bound] and is a line of the
    table that writes the variable. *)
Definition recorded_ok (la : LineAnalysis) (bound : nat) (b : Builder) : Prop :=
  forall w prev, recorded b w = Some prev ->
    prev <= bound /\ exists r', la_get la prev = Some r' /\ In w (writes r').

(** What the first line of a block looks like, by the type of the block:
    the rule that carved the block matched, and the rules before it did
    not. *)
Definition line_fits (line : string) (t : NodeType) : Prop :=
  (Str.strip line =? "")%string = false /\
  Str.startswith "#" (Str.strip line) = false /\
  match t with
  | START => Re.matches Pat.MAIN_SIG line = true
  | LOOP => Re.matches Pat.MAIN_SIG line = false /\ Re.matches Pat.LOOP_HEAD line = true
  | XOR =>
      Re.matches Pat.MAIN_SIG line = false /\ Re.matches Pat.LOOP_HEAD line = false /\
      Re.matches Pat.IF_HEAD line = true
  | END =>
      Re.matches Pat.MAIN_SIG line = false /\ Re.matches Pat.LOOP_HEAD line = false /\
      Re.matches Pat.IF_HEAD line = false /\ Str.contains "return" line = true
  | ACTIVITY =>
      Re.matches Pat.MAIN_SIG line = false /\ Re.matches Pat.LOOP_HEAD line = false /\
      Re.matches Pat.IF_HEAD line = false /\ Str.contains "return" line = false
  end.

Definition starts_block (lines : list string) (b : Block) : Prop :=
  line_fits (nth (start_line b - 1) lines "") (node_type b).

(** One iteration moves the cursor forward, not beyond the last line, and
    appends no block or one block of type [t] that starts at the line of
    the cursor and ends before the new cursor. *)
Definition emits_one (lines : list string) (st st' : Carve) (t : NodeType) : Prop :=
  cursor st < cursor st' <= length lines /\
  ((blocks st' = blocks st /\ block_counter st' = block_counter st) \/
   exists b, blocks st' = blocks st ++ [b] /\
     block_counter st' = block_counter st + 1 /\
     block_id b = block_counter st /\ node_type b = t /\
     start_line b = cursor st + 1 /\
     start_line b <= end_line b <= cursor st').

(** The invariant of the carving loop. *)
Definition carve_inv (lines : list string) (st : Carve) : Prop :=
  cursor st <= length lines /\
  block_counter st = length (blocks st) /\
  map block_id (blocks st) = seq 0 (length (blocks st)) /\
  length (blocks st) <= cursor st /\
  Forall (fun b => 1 <= start_line b <= end_line b /\ end_line b <= cursor st /\
                   starts_block lines b) (blocks st) /\
  StronglySorted (fun b1 b2 => end_line b1 < start_line b2) (blocks st).

(** An arc between two blocks of the list, of a type that fits its ends:
    a sequential arc leaves a START or ACTIVITY block and goes forward; a
    conditional arc leaves a LOOP or XOR block and goes forward; a loop-back
    arc goes backward to a LOOP block. *)
Definition arc_fits (blocks : list Block) (a : Arc) : Prop :=
  arc_from a < length blocks /\ arc_to a < length blocks /\
  match arc_type a with
  | solid => arc_from a < arc_to a /\ has_type blocks (arc_from a) [START; ACTIVITY] = true
  | dashed => arc_from a < arc_to a /\ has_type blocks (arc_from a) [LOOP; XOR] = true
  | dotted => arc_to a < arc_from a /\ has_type blocks (arc_to a) [LOOP] = true
  end.

(** The lines that the check counts: all but comment and preprocessor
    lines. *)
Definition counted (lines : list string) : list string :=
  filter (fun l => negb (is_comment_or_preprocessor l)) lines.

(** The number of occurrences of [c] on the counted lines. *)
Definition total (c : ascii) (lines : list string) : nat :=
  list_sum (map (Str.count_char c) (counted lines)).

(** The messages on unterminated strings, the first line having number
    [i]. *)
Fixpoint unterminated (i : nat) (lines : list string) : list string :=
  match lines with
  | [] => []
  | l :: rest =>
      (if negb (is_comment_or_preprocessor l) && has_unterminated_string l
       then [unterminated_message i] else [])
      ++ unterminated (S i) rest
  end.

(** A line that the look-ahead of the return rule passes over. *)
Definition blank_or_comment (l : string) : Prop :=
  Str.strip l = "" \/ Str.startswith "//" (Str.strip l) = true.

(** An END block holds its return line only, or that line and a lone
    closing brace further down: then only blank and comment lines lie
    between the two, and no later line of the source contains a closing
    brace. *)
Definition end_shape (lines : list string) (b : Block) : Prop :=
  (end_line b = start_line b /\ block_lines b = [nth (start_line b - 1) lines ""]) \/
  (start_line b < end_line b /\
   block_lines b = [nth (start_line b - 1) lines ""; nth (end_line b - 1) lines ""] /\
   Str.strip (nth (end_line b - 1) lines "") = "}" /\
   (forall k, start_line b < k < end_line b -> blank_or_comment (nth (k - 1) lines "")) /\
   (forall k, end_line b < k <= length lines ->
              Str.contains "}" (nth (k - 1) lines "") = false)).

(** The captured lines of a block, by its type. *)
Definition block_shape (lines : list string) (b : Block) : Prop :=
  match node_type b with
  | START | LOOP | XOR =>
      end_line b = start_line b /\ block_lines b = [nth (start_line b - 1) lines ""]
  | END => end_shape lines b
  | ACTIVITY => length (block_lines b) = end_line b - start_line b + 1
  end.

(** One iteration appends no block, or one block of the right shape. *)
Definition shaped_step (lines : list string) (st st' : Carve) : Prop :=
  blocks st' = blocks st \/
  exists b, blocks st' = blocks st ++ [b] /\ block_shape lines b.

(** The blocks of [main_source], of [scenario], and values used below. *)
Definition main_start_block : Block :=
  mkBlock 0 START 1 1 ["int main() {"] "int main() {" [].

Definition main_end_block : Block :=
  mkBlock 1 END 2 3 ["    return 0;"; "}"] "return 0;" [].

Definition scenario_first_block : Block :=
  mkBlock 0 ACTIVITY 1 2 ["int a = 10;"; "int b = 5;"] "int a = 10;" [].

Definition no_block : Block := mkBlock 0 END 0 0 [] "" [].

Definition scenario_first_write : Operation :=
  mkOperation 0 "a" WRITE 1 "Declaration and assignment of a" (Some 1).

(** * Properties *)

(** ** Dictionaries *)

Section DictFacts.
Context {K V : Type} (keq : K -> K -> bool).
Hypothesis keq_eq : forall a b, keq a b = true <-> a = b.

Lemma keq_refl (a : K) : keq a a = true.
Proof. now apply keq_eq. Qed.

Lemma keq_neq (a b : K) : a <> b -> keq a b = false.
Proof.
  intro H. destruct (keq a b) eqn:E; [|reflexivity].
  apply keq_eq in E. contradiction.
Qed.

Lemma dict_get_set_same (d : list (K * V)) k v :
  dict_get keq (dict_set keq d k v) k = Some v.
Proof.
  induction d as [|[k' v'] d IH]; simpl.
  - now rewrite keq_refl.
  - destruct (keq k k') eqn:E; simpl; rewrite E; auto.
Qed.

Lemma dict_get_set_other (d : list (K * V)) k k' v :
  k' <> k -> dict_get keq (dict_set keq d k v) k' = dict_get keq d k'.
Proof.
  intro Hne. induction d as [|[k0 v0] d IH]; simpl.
  - now rewrite (keq_neq k' k).
  - destruct (keq k k0) eqn:E; simpl.
    + apply keq_eq in E. subst k0. now rewrite (keq_neq k' k).
    + now rewrite IH.
Qed.

Lemma dict_get_In (d : list (K * V)) k v :
  dict_get keq d k = Some v -> In (k, v) d.
Proof.
  induction d as [|[k0 v0] d IH]; simpl; [discriminate|].
  destruct (keq k k0) eqn:E.
  - apply keq_eq in E. intros [= ->]. subst. now left.
  - intro H. right. auto.
Qed.

Lemma dict_get_key (d : list (K * V)) k v :
  dict_get keq d k = Some v -> In k (dict_keys d).
Proof.
  intro H. apply dict_get_In in H. unfold dict_keys.
  change k with (fst (k, v)). now apply in_map.
Qed.

Lemma dict_get_None (d : list (K * V)) k :
  dict_get keq d k = None <-> ~ In k (dict_keys d).
Proof.
  induction d as [|[k0 v0] d IH]; simpl.
  - tauto.
  - destruct (keq k k0) eqn:E.
    + apply keq_eq in E. subst. split; [discriminate|]. intro H. exfalso. apply H. now left.
    + rewrite IH. split.
      * intros H [H1|H1]; [|tauto]. subst. rewrite keq_refl in E. discriminate.
      * tauto.
Qed.

Lemma dict_keys_set (d : list (K * V)) k v :
  dict_keys (dict_set keq d k v) =
  if dict_mem keq d k then dict_keys d else dict_keys d ++ [k].
Proof.
  unfold dict_mem. induction d as [|[k0 v0] d IH]; simpl; [reflexivity|].
  destruct (keq k k0) eqn:E; simpl; [reflexivity|].
  rewrite IH. now destruct (dict_get keq d k).
Qed.

Lemma NoDup_get_of_In (d : list (K * V)) k v :
  NoDup (dict_keys d) -> In (k, v) d -> dict_get keq d k = Some v.
Proof.
  induction d as [|[k0 v0] d IH]; simpl; [tauto|].
  intros Hnd [H|H].
  - injection H as -> ->. now rewrite keq_refl.
  - inversion Hnd as [|? ? Hnotin Hnd']; subst.
    destruct (keq k k0) eqn:E.
    + apply keq_eq in E. subst. exfalso. apply Hnotin.
      change k0 with (fst (k0, v)). now apply in_map.
    + auto.
Qed.

End DictFacts.

Lemma nat_eqb_eq (a b : nat) : Nat.eqb a b = true <-> a = b.
Proof. apply Nat.eqb_eq. Qed.

Lemma str_eqb_eq (a b : string) : String.eqb a b = true <-> a = b.
Proof. apply String.eqb_eq. Qed.

Lemma mem_In (x : string) (xs : list string) : Str.mem x xs = true <-> In x xs.
Proof.
  unfold Str.mem. rewrite existsb_exists. split.
  - intros [y [Hy E]]. apply String.eqb_eq in E. now subst.
  - intro H. exists x. split; [assumption|apply String.eqb_refl].
Qed.

(** ** [sorted] *)

Lemma insert_sorted_In n l x : In x (insert_sorted n l) <-> x = n \/ In x l.
Proof.
  induction l as [|m l IH]; simpl.
  - intuition.
  - destruct (n <=? m); simpl; [intuition|]. rewrite IH. intuition.
Qed.

Lemma sorted_In l x : In x (sorted l) <-> In x l.
Proof.
  induction l as [|n l IH]; simpl; [tauto|].
  rewrite insert_sorted_In, IH. intuition.
Qed.

Lemma insert_sorted_sorted n l :
  StronglySorted le l -> StronglySorted le (insert_sorted n l).
Proof.
  induction 1 as [|m l Hs IH Hall]; simpl.
  - constructor; constructor.
  - destruct (n <=? m) eqn:E.
    + apply Nat.leb_le in E. constructor.
      * now constructor.
      * constructor; [assumption|].
        eapply Forall_impl; [|exact Hall]. simpl. intros; lia.
    + apply Nat.leb_gt in E. constructor; [assumption|].
      apply Forall_forall. intros x Hx. apply insert_sorted_In in Hx.
      destruct Hx as [->|Hx]; [lia|]. rewrite Forall_forall in Hall. auto.
Qed.

Lemma sorted_sorted l : StronglySorted le (sorted l).
Proof.
  induction l; simpl; [constructor|now apply insert_sorted_sorted].
Qed.

(** A sorted list splits around the first, and around the last, occurrence
    of an element. *)
Lemma sorted_split_first ks x :
  StronglySorted le ks -> In x ks ->
  exists ks1 ks2, ks = ks1 ++ x :: ks2 /\
    Forall (fun y => y < x) ks1 /\ Forall (fun y => x <= y) ks2.
Proof.
  induction 1 as [|k ks Hs IH Hall]; simpl; [tauto|].
  intro Hin. destruct (Nat.eq_dec k x) as [->|Hne].
  - exists [], ks. auto.
  - destruct Hin as [?|Hin]; [contradiction|].
    destruct (IH Hin) as (ks1 & ks2 & -> & H1 & H2).
    exists (k :: ks1), ks2. repeat split; auto.
    constructor; [|assumption]. rewrite Forall_forall in Hall.
    specialize (Hall x Hin). lia.
Qed.

Lemma sorted_split_last ks x :
  StronglySorted le ks -> In x ks ->
  exists ks1 ks2, ks = ks1 ++ x :: ks2 /\
    Forall (fun y => y <= x) ks1 /\ Forall (fun y => x < y) ks2.
Proof.
  induction 1 as [|k ks Hs IH Hall]; simpl; [tauto|].
  intro Hin. destruct (in_dec Nat.eq_dec x ks) as [Hx|Hx].
  - destruct (IH Hx) as (ks1 & ks2 & -> & H1 & H2).
    exists (k :: ks1), ks2. repeat split; auto.
    constructor; [|assumption]. rewrite Forall_forall in Hall.
    specialize (Hall x Hx). lia.
  - destruct Hin as [->|Hin]; [|contradiction].
    exists [], ks. repeat split; auto.
    apply Forall_forall. intros y Hy. rewrite Forall_forall in Hall.
    specialize (Hall y Hy). assert (y <> x) by (intro; subst; contradiction). lia.
Qed.

Lemma StronglySorted_app_inv (l1 l2 : list nat) :
  StronglySorted le (l1 ++ l2) -> StronglySorted le l1 /\ StronglySorted le l2.
Proof.
  induction l1 as [|x l1 IH]; simpl; intro H.
  - split; [constructor|assumption].
  - inversion H as [|? ? Hs Hall]; subst. destruct (IH Hs) as [H1 H2].
    split; [|assumption]. constructor; [assumption|].
    apply Forall_app in Hall. tauto.
Qed.

(** ** The operation sequence builder *)

Lemma extends_refl b : extends b b [].
Proof. split; [now rewrite app_nil_r|simpl; lia]. Qed.

Lemma extends_trans b1 b2 b3 l1 l2 :
  extends b1 b2 l1 -> extends b2 b3 l2 -> extends b1 b3 (l1 ++ l2).
Proof.
  intros [H1 H1'] [H2 H2']. split.
  - now rewrite H2, H1, app_assoc.
  - rewrite H2', H1', length_app. lia.
Qed.

Lemma emit_extends b var k n det :
  extends b (emit b var k n det)
    [mkOperation (next_id b) var k n det (Some (next_id b + 1))].
Proof. split; reflexivity. Qed.

Lemma chained_nil start : chained start [].
Proof. intros i o H. destruct i; discriminate. Qed.

Lemma chained_one start var k n det :
  chained start [mkOperation start var k n det (Some (start + 1))].
Proof.
  intros i o H. destruct i as [|i]; simpl in H.
  - injection H as <-. simpl. split; [lia|f_equal; lia].
  - destruct i; discriminate.
Qed.

Lemma chained_app start l1 l2 :
  chained start l1 -> chained (start + length l1) l2 -> chained start (l1 ++ l2).
Proof.
  intros H1 H2 i o H. destruct (Nat.lt_ge_cases i (length l1)) as [Hlt|Hge].
  - rewrite nth_error_app1 in H by assumption. now apply H1.
  - rewrite nth_error_app2 in H by assumption. apply H2 in H.
    destruct H as [Ha Hb]. rewrite Ha, Hb. split; [lia|f_equal; lia].
Qed.

Lemma emits_refl n b : emits n b b [].
Proof.
  split; [apply extends_refl|]. split; [apply chained_nil|constructor].
Qed.

Lemma emits_trans n b1 b2 b3 l1 l2 :
  emits n b1 b2 l1 -> emits n b2 b3 l2 -> emits n b1 b3 (l1 ++ l2).
Proof.
  intros (E1 & C1 & L1) (E2 & C2 & L2). split; [|split].
  - apply (extends_trans _ _ _ _ _ E1 E2).
  - apply chained_app; [assumption|]. destruct E1 as [_ <-]. assumption.
  - apply Forall_app. split; assumption.
Qed.

Lemma emit_emits b var k n det :
  emits n b (emit b var k n det)
    [mkOperation (next_id b) var k n det (Some (next_id b + 1))].
Proof.
  split; [apply emit_extends|]. split; [apply chained_one|].
  constructor; [reflexivity|constructor].
Qed.

Lemma emit_write_emits n r b var :
  exists l, emits n b (emit_write n r b var) l.
Proof.
  unfold emit_write.
  destruct (dict_get String.eqb (variable_definitions b) var) as [prev|].
  - eexists. eapply emits_trans; [apply emit_emits|].
    match goal with |- emits _ ?b1 _ _ =>
      pose proof (emit_emits b1 var WRITE n (operation r)) as H end.
    exact H.
  - eexists. exact (emit_emits b var WRITE n (operation r)).
Qed.

Lemma fold_emits {A : Type} (f : Builder -> A -> Builder) n :
  (forall b x, exists l, emits n b (f b x) l) ->
  forall xs b, exists l, emits n b (fold_left f xs b) l.
Proof.
  intros Hf xs. induction xs as [|x xs IH]; intro b; simpl.
  - exists []. apply emits_refl.
  - destruct (Hf b x) as [l1 H1]. destruct (IH (f b x)) as [l2 H2].
    exists (l1 ++ l2). eapply emits_trans; eassumption.
Qed.

Lemma emit_writes_emits n r ws b :
  exists l, emits n b (fold_left (emit_write n r) ws b) l.
Proof. apply fold_emits. intros. apply emit_write_emits. Qed.

Lemma emit_reads_emits n r rs b :
  exists l, emits n b (fold_left (emit_read n r) rs b) l.
Proof.
  apply fold_emits. intros b0 x. eexists. unfold emit_read. apply emit_emits.
Qed.

Lemma emit_free_emits lines n b :
  exists l, emits n b (emit_free lines n b) l.
Proof.
  unfold emit_free. destruct (freed_variable lines n).
  - eexists. apply emit_emits.
  - exists []. apply emits_refl.
Qed.

Lemma process_line_emits lines b n r :
  exists l, emits n b (process_line lines b n r) l.
Proof.
  unfold process_line.
  destruct (emit_writes_emits n r (writes r) b) as [l1 H1].
  destruct (emit_reads_emits n r (reads r) (fold_left (emit_write n r) (writes r) b))
    as [l2 H2].
  destruct (emit_free_emits lines n
              (fold_left (emit_read n r) (reads r)
                 (fold_left (emit_write n r) (writes r) b))) as [l3 H3].
  exists (l1 ++ l2 ++ l3).
  eapply emits_trans; [eassumption|]. eapply emits_trans; eassumption.
Qed.

(** The run over a list of keys extends the builder by a chained list whose
    operations carry line numbers among the keys. *)
Lemma run_builder_extends la lines keys b :
  exists l, extends b (run_builder la lines keys b) l /\
    chained (next_id b) l /\ Forall (fun o => In (line_number o) keys) l.
Proof.
  unfold run_builder. revert b. induction keys as [|k keys IH]; intro b; simpl.
  - exists []. split; [apply extends_refl|]. split; [apply chained_nil|constructor].
  - set (b1 := match la_get la k with
               | Some analysis => process_line lines b k analysis
               | None => b
               end).
    assert (H1 : exists l, emits k b b1 l).
    { subst b1. destruct (la_get la k); [apply process_line_emits|].
      exists []. apply emits_refl. }
    destruct H1 as (l1 & E1 & C1 & L1).
    destruct (IH b1) as (l2 & E2 & C2 & L2).
    exists (l1 ++ l2). split; [|split].
    + apply (extends_trans _ _ _ _ _ E1 E2).
    + apply chained_app; [assumption|]. destruct E1 as [_ <-]. assumption.
    + apply Forall_app. split.
      * eapply Forall_impl; [|exact L1]. simpl. intros o ->. now left.
      * eapply Forall_impl; [|exact L2]. simpl. intros o Ho. now right.
Qed.

(** [terminate] changes nothing but the [next] of the last operation. *)
Lemma terminate_length ops : length (terminate ops) = length ops.
Proof.
  induction ops as [|o ops IH]; [reflexivity|].
  destruct ops as [|o' ops]; [reflexivity|].
  change (S (length (terminate (o' :: ops))) = S (length (o' :: ops))). now rewrite IH.
Qed.

Lemma terminate_event ops : map event (terminate ops) = map event ops.
Proof.
  induction ops as [|o ops IH]; [reflexivity|].
  destruct ops as [|o' ops]; [reflexivity|].
  change (event o :: map event (terminate (o' :: ops)) = event o :: map event (o' :: ops)).
  now rewrite IH.
Qed.

Lemma terminate_id ops : map operation_id (terminate ops) = map operation_id ops.
Proof.
  induction ops as [|o ops IH]; [reflexivity|].
  destruct ops as [|o' ops]; [reflexivity|].
  change (operation_id o :: map operation_id (terminate (o' :: ops))
          = operation_id o :: map operation_id (o' :: ops)).
  now rewrite IH.
Qed.

Lemma terminate_nth ops i o :
  nth_error (terminate ops) i = Some o ->
  exists o0, nth_error ops i = Some o0 /\ operation_id o = operation_id o0 /\
    (i + 1 < length ops -> next o = next o0) /\
    (i + 1 = length ops -> next o = None).
Proof.
  revert i. induction ops as [|o1 ops IH]; intros i H.
  - destruct i; discriminate.
  - destruct ops as [|o2 ops].
    + destruct i as [|i]; simpl in H.
      * injection H as <-. exists o1. simpl. repeat split; auto; intros; lia.
      * destruct i; discriminate.
    + change (terminate (o1 :: o2 :: ops)) with (o1 :: terminate (o2 :: ops)) in H.
      destruct i as [|i]; simpl in H.
      * injection H as <-. exists o1. simpl. repeat split; auto; intros; lia.
      * destruct (IH i H) as (o0 & H0 & Hid & Hn1 & Hn2).
        exists o0. simpl in *. split; [assumption|]. split; [assumption|].
        split; intros; [apply Hn1|apply Hn2]; lia.
Qed.

Lemma chained_ids start l : chained start l -> map operation_id l = seq start (length l).
Proof.
  revert start. induction l as [|o l IH]; intros start H; [reflexivity|].
  simpl. f_equal.
  - destruct (H 0 o eq_refl) as [E _]. lia.
  - apply IH. intros i o' Hi. destruct (H (S i) o' Hi) as [E1 E2].
    rewrite E1, E2. split; [lia|f_equal; lia].
Qed.

(** C3: the operation ids of a non-empty operation sequence are 0..N-1 in
    emission order; every operation but the last has [next] equal to its own
    id plus one; the last operation has the terminal value [None] as [next],
    and it is the only one. *)
Theorem operation_chain_dense_single_terminal
  (la : LineAnalysis) (lines : list string) :
  let ops := build_operation_sequence la lines in
  ops <> [] ->
  map operation_id ops = seq 0 (length ops) /\
  forall i o, nth_error ops i = Some o ->
    operation_id o = i /\
    (i + 1 < length ops -> next o = Some (operation_id o + 1)) /\
    (i + 1 = length ops -> next o = None) /\
    (next o = None -> i + 1 = length ops).
Proof.
  intros ops _. subst ops. unfold build_operation_sequence.
  destruct (run_builder_extends la lines (sorted (dict_keys la)) (mkBuilder [] 0 []))
    as (l & [E _] & C & _).
  simpl in E, C. rewrite E. split.
  - rewrite terminate_id, terminate_length. now apply chained_ids.
  - intros i o H. destruct (terminate_nth _ _ _ H) as (o0 & H0 & Hid & Hn1 & Hn2).
    destruct (C i o0 H0) as [Ci Cn]. simpl in Ci, Cn.
    rewrite terminate_length.
    assert (Hlt : i < length l) by (apply nth_error_Some; congruence).
    repeat split.
    + congruence.
    + intro Hi. rewrite (Hn1 Hi), Cn, Hid, Ci. f_equal; lia.
    + exact Hn2.
    + intro Hnone. destruct (Nat.eq_dec (i + 1) (length l)) as [|Hne]; [assumption|].
      assert (Hi : i + 1 < length l) by lia.
      rewrite (Hn1 Hi), Cn in Hnone. discriminate.
Qed.

Lemma extends_events b b' l :
  extends b b' l -> events b' = events b ++ map event l.
Proof. intros [E _]. unfold events. now rewrite E, map_app. Qed.

Lemma emit_events b var k n det :
  events (emit b var k n det) = events b ++ [(var, k, n, det)].
Proof. unfold events, emit. simpl. now rewrite map_app. Qed.

Lemma emit_recorded b var k n det w : recorded (emit b var k n det) w = recorded b w.
Proof. reflexivity. Qed.

Lemma emit_write_recorded_same n r b w : recorded (emit_write n r b w) w = Some n.
Proof.
  unfold recorded, emit_write. simpl.
  destruct (dict_get String.eqb (variable_definitions b) w); simpl;
    apply dict_get_set_same, str_eqb_eq.
Qed.

Lemma emit_write_recorded_other n r b v w :
  w <> v -> recorded (emit_write n r b v) w = recorded b w.
Proof.
  intro Hne. unfold recorded, emit_write. simpl.
  destruct (dict_get String.eqb (variable_definitions b) v); simpl;
    apply dict_get_set_other; auto using str_eqb_eq.
Qed.

Lemma emit_writes_recorded_in n r ws b w :
  In w ws -> recorded (fold_left (emit_write n r) ws b) w = Some n.
Proof.
  revert b. induction ws as [|v ws IH]; intros b Hin; simpl; [destruct Hin|].
  destruct (in_dec string_dec w ws) as [Hw|Hw].
  - now apply IH.
  - destruct Hin as [->|Hin]; [|contradiction].
    clear IH. revert Hw. generalize (emit_write n r b w) (emit_write_recorded_same n r b w).
    induction ws as [|v ws IH]; intros b0 Hb0 Hw; simpl; [assumption|].
    apply IH.
    + rewrite emit_write_recorded_other; [assumption|]. intro; subst. apply Hw. now left.
    + intro. apply Hw. now right.
Qed.

Lemma emit_writes_recorded_out n r ws b w :
  ~ In w ws -> recorded (fold_left (emit_write n r) ws b) w = recorded b w.
Proof.
  revert b. induction ws as [|v ws IH]; intros b Hw; simpl; [reflexivity|].
  rewrite IH by (intro; apply Hw; now right).
  apply emit_write_recorded_other. intro; subst. apply Hw. now left.
Qed.

Lemma emit_reads_recorded n r rs b w :
  recorded (fold_left (emit_read n r) rs b) w = recorded b w.
Proof.
  revert b. induction rs as [|v rs IH]; intro b; simpl; [reflexivity|].
  now rewrite IH.
Qed.

Lemma emit_free_recorded lines n b w : recorded (emit_free lines n b) w = recorded b w.
Proof. unfold emit_free. now destruct (freed_variable lines n). Qed.

Lemma process_line_recorded_in lines b n r w :
  In w (writes r) -> recorded (process_line lines b n r) w = Some n.
Proof.
  intro H. unfold process_line.
  now rewrite emit_free_recorded, emit_reads_recorded, emit_writes_recorded_in.
Qed.

Lemma process_line_recorded_out lines b n r w :
  ~ In w (writes r) -> recorded (process_line lines b n r) w = recorded b w.
Proof.
  intro H. unfold process_line.
  now rewrite emit_free_recorded, emit_reads_recorded, emit_writes_recorded_out.
Qed.

Lemma emits_events n b b' l : emits n b b' l -> events b' = events b ++ map event l.
Proof. intros [E _]. now apply extends_events. Qed.

(** Writing [w] emits its WRITE; when a definition of [w] is recorded, the
    KILL that refers to it comes immediately before. *)
Lemma emit_writes_write n r ws b w :
  In w ws ->
  exists l1 l2, events (fold_left (emit_write n r) ws b) =
    events b ++ l1 ++ [(w, WRITE, n, operation r)] ++ l2.
Proof.
  revert b. induction ws as [|v ws IH]; intros b Hin; simpl; [destruct Hin|].
  destruct (string_dec v w) as [->|Hne].
  - destruct (emit_writes_emits n r ws (emit_write n r b w)) as [l2 H2].
    apply emits_events in H2. rewrite H2. unfold emit_write.
    destruct (dict_get String.eqb (variable_definitions b) w) as [prev|]; simpl.
    + exists [(w, KILL, n, redefinition_details w prev)], (map event l2).
      unfold events. simpl. rewrite !map_app. simpl. now rewrite <- !app_assoc.
    + exists [], (map event l2). unfold events. simpl. rewrite !map_app. simpl.
      now rewrite <- !app_assoc.
  - destruct Hin as [?|Hin]; [contradiction|].
    destruct (IH (emit_write n r b v) Hin) as (l1 & l2 & E).
    destruct (emit_write_emits n r b v) as [l0 H0]. apply emits_events in H0.
    exists (map event l0 ++ l1), l2. rewrite E, H0. now rewrite <- !app_assoc.
Qed.

Lemma emit_writes_kill_write n r ws b w prev :
  In w ws -> recorded b w = Some prev ->
  exists l1 l2, events (fold_left (emit_write n r) ws b) =
    events b ++ l1
    ++ [(w, KILL, n, redefinition_details w prev); (w, WRITE, n, operation r)] ++ l2.
Proof.
  revert b. induction ws as [|v ws IH]; intros b Hin Hrec; simpl; [destruct Hin|].
  destruct (string_dec v w) as [->|Hne].
  - destruct (emit_writes_emits n r ws (emit_write n r b w)) as [l2 H2].
    apply emits_events in H2. rewrite H2. unfold emit_write.
    unfold recorded in Hrec. rewrite Hrec. simpl.
    exists [], (map event l2). unfold events. simpl. rewrite !map_app. simpl.
    now rewrite <- !app_assoc.
  - destruct Hin as [?|Hin]; [contradiction|].
    assert (Hrec' : recorded (emit_write n r b v) w = Some prev).
    { rewrite emit_write_recorded_other; auto. }
    destruct (IH (emit_write n r b v) Hin Hrec') as (l1 & l2 & E).
    destruct (emit_write_emits n r b v) as [l0 H0]. apply emits_events in H0.
    exists (map event l0 ++ l1), l2. rewrite E, H0. now rewrite <- !app_assoc.
Qed.

Lemma process_line_write lines b n r w :
  In w (writes r) ->
  exists l1 l2, events (process_line lines b n r) =
    events b ++ l1 ++ [(w, WRITE, n, operation r)] ++ l2.
Proof.
  intro Hin. unfold process_line.
  destruct (emit_writes_write n r (writes r) b w Hin) as (l1 & l2 & E).
  set (b1 := fold_left (emit_write n r) (writes r) b) in *.
  destruct (emit_reads_emits n r (reads r) b1) as [l3 H3].
  set (b2 := fold_left (emit_read n r) (reads r) b1) in *.
  destruct (emit_free_emits lines n b2) as [l4 H4].
  apply emits_events in H3, H4. rewrite H4, H3, E.
  exists l1, (l2 ++ map event l3 ++ map event l4). now rewrite <- !app_assoc.
Qed.

Lemma process_line_kill_write lines b n r w prev :
  In w (writes r) -> recorded b w = Some prev ->
  exists l1 l2, events (process_line lines b n r) =
    events b ++ l1
    ++ [(w, KILL, n, redefinition_details w prev); (w, WRITE, n, operation r)] ++ l2.
Proof.
  intros Hin Hrec. unfold process_line.
  destruct (emit_writes_kill_write n r (writes r) b w prev Hin Hrec) as (l1 & l2 & E).
  set (b1 := fold_left (emit_write n r) (writes r) b) in *.
  destruct (emit_reads_emits n r (reads r) b1) as [l3 H3].
  set (b2 := fold_left (emit_read n r) (reads r) b1) in *.
  destruct (emit_free_emits lines n b2) as [l4 H4].
  apply emits_events in H3, H4. rewrite H4, H3, E.
  exists l1, (l2 ++ map event l3 ++ map event l4). now rewrite <- !app_assoc.
Qed.

Lemma run_builder_app la lines ks1 ks2 b :
  run_builder la lines (ks1 ++ ks2) b =
  run_builder la lines ks2 (run_builder la lines ks1 b).
Proof. unfold run_builder. apply fold_left_app. Qed.

Lemma run_builder_cons la lines k ks b r :
  la_get la k = Some r ->
  run_builder la lines (k :: ks) b = run_builder la lines ks (process_line lines b k r).
Proof. intro H. unfold run_builder. simpl. now rewrite H. Qed.

Lemma run_builder_events la lines keys b :
  exists l, events (run_builder la lines keys b) = events b ++ l /\
    Forall (fun e => In (snd (fst e)) keys) l.
Proof.
  destruct (run_builder_extends la lines keys b) as (l & E & _ & L).
  exists (map event l). split; [now apply extends_events|].
  apply Forall_map. eapply Forall_impl; [|exact L]. auto.
Qed.

(** The recorded definition of [w] survives a run over lines that do not
    write [w], or that are the recorded line itself. *)
Lemma run_builder_keeps_recorded la lines w L1 r1 keys b :
  la_get la L1 = Some r1 -> In w (writes r1) ->
  (forall k r, In k keys -> k <> L1 -> la_get la k = Some r -> ~ In w (writes r)) ->
  recorded b w = Some L1 ->
  recorded (run_builder la lines keys b) w = Some L1.
Proof.
  intros H1 Hw1. revert b. induction keys as [|k keys IH]; intros b Hno Hrec; [assumption|].
  unfold run_builder. simpl. fold (run_builder la lines keys).
  apply IH.
  - intros k0 r0 Hk0. apply Hno. now right.
  - destruct (la_get la k) as [r|] eqn:Ek; [|assumption].
    destruct (Nat.eq_dec k L1) as [->|Hne].
    + rewrite H1 in Ek. injection Ek as <-. now apply process_line_recorded_in.
    + rewrite process_line_recorded_out; [assumption|].
      apply (Hno k r); [now left|assumption|assumption].
Qed.

(** For a line number from 1 on, the line of a key is the line at the
    0-based index [L - 1]. *)
Lemma line_of_key_pos (lines : list string) (L : nat) :
  1 <= L -> line_of_key lines L = nth (L - 1) lines "".
Proof.
  intro H. destruct L as [|i]; [lia|]. simpl. now rewrite Nat.sub_0_r.
Qed.

(** The explicit KILL of a line of the table is the last operation of that
    line. *)
Lemma freed_variable_kill_is_last
  (la : LineAnalysis) (lines : list string) (L : nat) (r : LineRecord) (p : string) :
  la_get la L = Some r -> freed_variable lines L = Some p ->
  exists pre post,
    map event (build_operation_sequence la lines) =
    pre ++ [(p, KILL, L, freed_details p)] ++ post /\
    Forall (fun e => snd (fst e) <> L) post.
Proof.
  intros Hr Hf.
  unfold build_operation_sequence. rewrite terminate_event.
  set (ks := sorted (dict_keys la)).
  assert (Hs : StronglySorted le ks) by apply sorted_sorted.
  assert (Hin : In L ks).
  { apply sorted_In. eapply dict_get_key; [apply nat_eqb_eq|exact Hr]. }
  destruct (sorted_split_last ks L Hs Hin) as (ks1 & ks2 & Eks & _ & Hup).
  fold (events (run_builder la lines ks (mkBuilder [] 0 []))).
  rewrite Eks, run_builder_app.
  set (b1 := run_builder la lines ks1 (mkBuilder [] 0 [])).
  rewrite (run_builder_cons la lines L _ b1 r Hr).
  destruct (run_builder_events la lines ks2 (process_line lines b1 L r)) as (l & E & Hl).
  rewrite E. unfold process_line at 1.
  set (b2 := fold_left (emit_read L r) (reads r) (fold_left (emit_write L r) (writes r) b1)).
  unfold emit_free. rewrite Hf, emit_events.
  exists (events b2), l. split; [now rewrite <- app_assoc|].
  rewrite Forall_forall in *. intros e He Heq. specialize (Hl e He). rewrite Heq in Hl.
  specialize (Hup L Hl). lia.
Qed.

(** C4 (as the code has it): for a line [L] that has a record in the
    line-analysis table, whose text contains "free(" and whose first match of
    the deallocation pattern names [p], the sequence holds a KILL of [p]
    with line number [L], and no operation of line [L] comes after it: it
    follows every WRITE and READ emitted for that line. *)
Theorem free_kill_follows_line_operations
  (la : LineAnalysis) (lines : list string) (L : nat) (r : LineRecord)
  (m : Re.rmatch_obj) :
  la_get la L = Some r ->
  1 <= L <= length lines ->
  Str.contains "free(" (nth (L - 1) lines "") = true ->
  Re.search Pat.FREE (nth (L - 1) lines "") = Some m ->
  let p := Re.group (nth (L - 1) lines "") m 1 in
  exists pre post,
    map event (build_operation_sequence la lines) =
    pre ++ [(p, KILL, L, freed_details p)] ++ post /\
    Forall (fun e => snd (fst e) <> L) post.
Proof.
  intros Hr HL Hc Hm p. apply (freed_variable_kill_is_last la lines L r p Hr).
  unfold freed_variable. rewrite line_of_key_pos by lia. rewrite Hc, Hm.
  assert (Hle : (L <=? length lines) = true) by (apply Nat.leb_le; lia).
  now rewrite Hle.
Qed.

(** ** The deallocation pattern on a line of the form [free(p)] *)


Lemma length_append_s (a b : string) :
  String.length (a +++ b) = String.length a + String.length b.
Proof. induction a as [|c a IH]; simpl; [reflexivity|now rewrite IH]. Qed.



















(** ** The dependency map *)

Lemma add_dependency_other w deps v w' :
  w' <> w -> deps_get (add_dependency w deps v) w' = deps_get deps w'.
Proof.
  intro Hne. unfold add_dependency, deps_get.
  destruct (negb (v =? w)%string && negb (Str.mem v _)); [|reflexivity].
  apply dict_get_set_other; auto using str_eqb_eq.
Qed.

Lemma fold_add_dependency_other w rs deps w' :
  w' <> w -> deps_get (fold_left (add_dependency w) rs deps) w' = deps_get deps w'.
Proof.
  intro Hne. revert deps. induction rs as [|v rs IH]; intro deps; simpl; [reflexivity|].
  rewrite IH. now apply add_dependency_other.
Qed.

Lemma fold_add_dependency_same w rs : forall deps ds,
  deps_get deps w = Some ds -> NoDup ds -> ~ In w ds ->
  exists ds', deps_get (fold_left (add_dependency w) rs deps) w = Some ds' /\
    NoDup ds' /\ ~ In w ds' /\
    forall v, In v ds' <-> In v ds \/ (v <> w /\ In v rs).
Proof.
  induction rs as [|x rs IH]; intros deps ds Hget Hnd Hself; simpl.
  - exists ds. split; [assumption|]. split; [assumption|]. split; [assumption|].
    intro v. tauto.
  - unfold add_dependency at 2. fold (deps_get deps w). rewrite Hget.
    destruct (negb (x =? w)%string && negb (Str.mem x ds)) eqn:E.
    + apply andb_true_iff in E as [E1 E2].
      apply negb_true_iff in E1, E2. apply String.eqb_neq in E1.
      assert (Hx : ~ In x ds).
      { intro Hx. apply mem_In in Hx. congruence. }
      destruct (IH (dict_set String.eqb deps w (ds ++ [x])) (ds ++ [x])) as (ds' & G & N & S & M).
      * apply dict_get_set_same, str_eqb_eq.
      * apply NoDup_app_remove_l with (l := []). simpl.
        apply Permutation_NoDup with (l := x :: ds);
          [apply Permutation_cons_append|now constructor].
      * intro H. apply in_app_or in H. destruct H as [H|[H|[]]]; [auto|congruence].
      * exists ds'. split; [assumption|]. split; [assumption|]. split; [assumption|].
        intro v. rewrite M, in_app_iff. simpl. split.
        -- intros [[H|[H|[]]]|[H1 H2]]; auto.
           right. subst. split; auto.
        -- intros [H|[H1 [H2|H2]]]; auto.
    + destruct (IH deps ds Hget Hnd Hself) as (ds' & G & N & S & M).
      exists ds'. split; [assumption|]. split; [assumption|]. split; [assumption|].
      intro v. rewrite M. simpl. split.
      * intros [H|[H1 H2]]; auto.
      * intros [H|[H1 [H2|H2]]]; auto.
        subst x. left. apply andb_false_iff in E. destruct E as [E|E].
        -- apply negb_false_iff, String.eqb_eq in E. contradiction.
        -- apply negb_false_iff, mem_In in E. assumption.
Qed.

Lemma add_written_other r deps w w' :
  w' <> w -> deps_get (add_written r deps w) w' = deps_get deps w'.
Proof.
  intro Hne. unfold add_written. rewrite fold_add_dependency_other by assumption.
  destruct (dict_mem String.eqb deps w); [reflexivity|].
  apply dict_get_set_other; auto using str_eqb_eq.
Qed.

Lemma add_written_same r deps w :
  NoDup (entry_of deps w) -> ~ In w (entry_of deps w) ->
  exists ds', deps_get (add_written r deps w) w = Some ds' /\
    NoDup ds' /\ ~ In w ds' /\
    forall v, In v ds' <-> In v (entry_of deps w) \/ (v <> w /\ In v (reads r)).
Proof.
  unfold entry_of, add_written, dict_mem. fold (deps_get deps w).
  destruct (deps_get deps w) as [ds|] eqn:E; intros Hnd Hself.
  - now apply fold_add_dependency_same.
  - apply fold_add_dependency_same; auto.
    apply dict_get_set_same, str_eqb_eq.
Qed.

Lemma deps_inv_mid_step done L r ws deps w0 :
  deps_inv_mid done L r ws deps ->
  deps_inv_mid done L r (ws ++ [w0]) (add_written r deps w0).
Proof.
  intros Hinv w. destruct (Hinv w) as (Hnd & Hself & Hkey & Hmem).
  destruct (string_dec w w0) as [->|Hne].
  - destruct (add_written_same r deps w0 Hnd Hself) as (ds' & G & N & S & M).
    unfold entry_of. rewrite G. split_inv v; auto.
    + intros _. right. apply in_or_app. right. now left.
    + intros _. discriminate.
    + intro H. apply M in H. split.
      * destruct H as [H|[H _]]; [|assumption]. now apply Hmem in H.
      * destruct H as [H|[H1 H2]].
        -- apply Hmem in H. destruct H as [_ [H|[H1 H2]]]; [now left|].
           right. split; [|assumption]. apply in_or_app. now left.
        -- right. split; [|assumption]. apply in_or_app. right. now left.
    + intros [Hv H]. apply M. destruct H as [H|[H1 H2]].
      * left. apply Hmem. split; [assumption|now left].
      * right. split; assumption.
  - unfold entry_of in *. rewrite (add_written_other r deps w0 w Hne).
    split_inv v; auto.
    + intro H. apply Hkey in H. destruct H as [H|H]; [now left|].
      right. apply in_or_app. now left.
    + intro H. apply Hkey. destruct H as [H|H]; [now left|].
      apply in_app_or in H. destruct H as [H|[H|[]]]; [now right|congruence].
    + intro H. apply Hmem in H. split; [tauto|].
      destruct H as [_ [H|[H1 H2]]]; [now left|].
      right. split; [|assumption]. apply in_or_app. now left.
    + intros [Hv H]. apply Hmem. split; [assumption|].
      destruct H as [H|[H1 H2]]; [now left|].
      apply in_app_or in H1. destruct H1 as [H1|[H1|[]]]; [now right|congruence].
Qed.

Lemma deps_inv_mid_fold done L r ws2 : forall ws1 deps,
  deps_inv_mid done L r ws1 deps ->
  deps_inv_mid done L r (ws1 ++ ws2) (fold_left (add_written r) ws2 deps).
Proof.
  induction ws2 as [|w0 ws2 IH]; intros ws1 deps H; simpl.
  - now rewrite app_nil_r.
  - replace (ws1 ++ w0 :: ws2) with ((ws1 ++ [w0]) ++ ws2) by now rewrite <- app_assoc.
    apply IH. now apply deps_inv_mid_step.
Qed.

Lemma deps_inv_line done L r deps :
  deps_inv done deps ->
  deps_inv (done ++ [(L, r)]) (fold_left (add_written r) (writes r) deps).
Proof.
  intro Hinv.
  assert (Hmid : deps_inv_mid done L r [] deps).
  { intro w. destruct (Hinv w) as (Hnd & Hself & Hkey & Hmem).
    split_inv v; auto.
    - intro H. left. now apply Hkey.
    - intros [H|[]]. now apply Hkey.
    - intro H. apply Hmem in H. split; [tauto|]. left. tauto.
    - intros [Hv [H|[[] _]]]. apply Hmem. split; assumption. }
  apply (deps_inv_mid_fold done L r (writes r) []) in Hmid. simpl in Hmid.
  intro w. destruct (Hmid w) as (Hnd & Hself & Hkey & Hmem).
  split_inv v; auto.
  - intro H. apply Hkey in H. destruct H as [(L' & r' & H1 & H2)|H].
    + exists L', r'. split; [apply in_or_app; now left|assumption].
    + exists L, r. split; [apply in_or_app; right; now left|assumption].
  - intros (L' & r' & H1 & H2). apply Hkey. apply in_app_or in H1.
    destruct H1 as [H1|[H1|[]]].
    + left. now exists L', r'.
    + injection H1 as <- <-. now right.
  - intro H. apply Hmem in H. split; [tauto|].
    destruct H as [_ [(L' & r' & H1 & H2 & H3)|[H1 H2]]].
    + exists L', r'. split; [apply in_or_app; now left|auto].
    + exists L, r. split; [apply in_or_app; right; now left|auto].
  - intros [Hv (L' & r' & H1 & H2 & H3)]. apply Hmem. split; [assumption|].
    apply in_app_or in H1. destruct H1 as [H1|[H1|[]]].
    + left. now exists L', r'.
    + injection H1 as <- <-. now right.
Qed.

Lemma deps_inv_fold la2 : forall la1 deps,
  deps_inv la1 deps ->
  deps_inv (la1 ++ la2)
    (fold_left (fun deps entry =>
                  fold_left (add_written (snd entry)) (writes (snd entry)) deps)
       la2 deps).
Proof.
  induction la2 as [|[L r] la2 IH]; intros la1 deps H; simpl.
  - now rewrite app_nil_r.
  - replace (la1 ++ (L, r) :: la2) with ((la1 ++ [(L, r)]) ++ la2)
      by now rewrite <- app_assoc.
    apply IH. now apply deps_inv_line.
Qed.

Lemma build_dependencies_inv la : deps_inv la (build_dependencies la).
Proof.
  unfold build_dependencies. apply (deps_inv_fold la [] []).
  intro w. unfold entry_of, deps_get. simpl. split_inv v; auto using NoDup_nil.
  - intro H. congruence.
  - intros (L & r & [] & _).
  - intros [].
  - intros [_ (L & r & [] & _)].
Qed.

(** C7: every variable [w] that a line of the table writes has a dependency
    entry; the entry never contains [w], has no repetition, and its elements
    are the variables other than [w] read on the lines of the table where
    [w] is written. *)
Theorem dependency_entry_is_union_of_reads
  (la : LineAnalysis) (w : string) (L0 : nat) (r0 : LineRecord) :
  In (L0, r0) la -> In w (writes r0) ->
  exists ds,
    dict_get String.eqb (build_dependencies la) w = Some ds /\
    ~ In w ds /\ NoDup ds /\
    forall v, In v ds <->
      v <> w /\ exists L r, In (L, r) la /\ In w (writes r) /\ In v (reads r).
Proof.
  intros H0 Hw. destruct (build_dependencies_inv la w) as (Hnd & Hself & Hkey & Hmem).
  unfold entry_of, deps_get in *.
  destruct (dict_get String.eqb (build_dependencies la) w) as [ds|] eqn:E.
  - exists ds. auto.
  - exfalso. assert (H : @None (list string) <> None) by (apply Hkey; eauto).
    now apply H.
Qed.

(** X28: a variable has a dependency entry exactly when some line writes it. *)
Lemma dependency_entry_exists_iff (la : LineAnalysis) (w : string) :
  dict_get String.eqb (build_dependencies la) w <> None <->
  exists L r, In (L, r) la /\ In w (writes r).
Proof. destruct (build_dependencies_inv la w) as (_ & _ & Hkey & _). exact Hkey. Qed.

(** ** Reaching definitions *)

Lemma latest_definition_fold defs L : forall acc,
  match fold_left (latest_step L) defs acc with
  | None => acc = None /\ forall d det, In (d, det) defs -> ~ d < L
  | Some m =>
      (acc = Some m \/ exists det, In (m, det) defs /\ m < L) /\
      (forall a, acc = Some a -> a <= m) /\
      (forall d det, In (d, det) defs -> d < L -> d <= m)
  end.
Proof.
  induction defs as [|[d0 det0] defs IH]; intro acc; simpl.
  - destruct acc as [a|].
    + split; [now left|]. split; [intros ? [= ->]; lia|intros ? ? []].
    + split; [reflexivity|intros ? ? []].
  - specialize (IH (latest_step L acc (d0, det0))).
    destruct (fold_left (latest_step L) defs (latest_step L acc (d0, det0))) as [m|].
    + destruct IH as (Hsrc & Hacc & Hall).
      unfold latest_step in Hsrc, Hacc. simpl in Hsrc, Hacc.
      destruct (d0 <? L) eqn:E0.
      * apply Nat.ltb_lt in E0. destruct acc as [a|].
        -- destruct (a <? d0) eqn:Ea.
           ++ apply Nat.ltb_lt in Ea. specialize (Hacc d0 eq_refl). split; [|split].
              ** destruct Hsrc as [[= <-]|(det & Hin & Hlt)].
                 --- right. exists det0. split; [now left|assumption].
                 --- right. exists det. split; [now right|assumption].
              ** intros ? [= <-]. lia.
              ** intros d det [[= <- <-]|Hin] Hlt; [lia|eauto].
           ++ apply Nat.ltb_ge in Ea. specialize (Hacc a eq_refl). split; [|split].
              ** destruct Hsrc as [H|(det & Hin & Hlt)]; [now left|].
                 right. exists det. split; [now right|assumption].
              ** intros ? [= <-]. lia.
              ** intros d det [[= <- <-]|Hin] Hlt; [lia|eauto].
        -- specialize (Hacc d0 eq_refl). split; [|split].
           ++ destruct Hsrc as [[= <-]|(det & Hin & Hlt)].
              ** right. exists det0. split; [now left|assumption].
              ** right. exists det. split; [now right|assumption].
           ++ intros ? [=].
           ++ intros d det [[= <- <-]|Hin] Hlt; [lia|eauto].
      * apply Nat.ltb_ge in E0. split; [|split].
        -- destruct Hsrc as [H|(det & Hin & Hlt)]; [now left|].
           right. exists det. split; [now right|assumption].
        -- assumption.
        -- intros d det [[= <- <-]|Hin] Hlt; [lia|eauto].
    + destruct IH as (Hacc & Hall). unfold latest_step in Hacc. simpl in Hacc.
      destruct (d0 <? L) eqn:E0.
      * destruct acc as [a|]; [destruct (a <? d0)|]; discriminate.
      * apply Nat.ltb_ge in E0. split; [assumption|].
        intros d det [[= <- <-]|Hin]; [lia|eauto].
Qed.

Lemma latest_definition_spec defs L :
  match latest_definition defs L with
  | None => forall d det, In (d, det) defs -> ~ d < L
  | Some m =>
      (exists det, In (m, det) defs) /\ m < L /\
      (forall d det, In (d, det) defs -> d < L -> d <= m)
  end.
Proof.
  pose proof (latest_definition_fold defs L None) as H.
  change (fold_left (latest_step L) defs None) with (latest_definition defs L) in H.
  destruct (latest_definition defs L) as [m|].
  - destruct H as ([[=]|(det & Hin & Hlt)] & _ & Hall). eauto.
  - tauto.
Qed.

(** *** The text of an entry determines the line and the variable *)

Lemma append_assoc_s (a b c : string) : (a +++ b) +++ c = a +++ b +++ c.
Proof. induction a as [|x a IH]; simpl; [reflexivity|now rewrite IH]. Qed.

Lemma append_inv_tail (s s' t : string) (c : ascii) :
  s +++ String c "" = s' +++ String c "" -> s = s'.
Proof.
  revert s'. induction s as [|x s IH]; intros [|y s'] H; simpl in H.
  - reflexivity.
  - injection H as _ H. destruct s'; discriminate.
  - injection H as _ H. destruct s; discriminate.
  - injection H as -> H. f_equal. now apply IH.
Qed.

Lemma digits_prefix_unique (s1 s2 t1 t2 : string) (c : ascii) :
  Str.all_digits s1 = true -> Str.all_digits s2 = true -> Str.is_digit c = false ->
  s1 +++ String c t1 = s2 +++ String c t2 -> s1 = s2 /\ t1 = t2.
Proof.
  intros H1 H2 Hc. revert s2 H2.
  induction s1 as [|x s1 IH]; intros [|y s2] H2 H; simpl in *.
  - injection H as ->. auto.
  - injection H as -> _. apply andb_true_iff in H2 as [H2 _]. congruence.
  - injection H as -> _. apply andb_true_iff in H1 as [H1 _]. congruence.
  - injection H as -> H. apply andb_true_iff in H1 as [_ H1].
    apply andb_true_iff in H2 as [_ H2].
    destruct (IH H1 s2 H2 H) as [-> ->]. auto.
Qed.

Lemma string_of_uint_digits (d : Decimal.uint) :
  Str.all_digits (NilEmpty.string_of_uint d) = true.
Proof. induction d; simpl; auto. Qed.

Lemma of_nat_inj (a b : nat) : Str.of_nat a = Str.of_nat b -> a = b.
Proof.
  unfold Str.of_nat. intro H.
  assert (E : Nat.to_uint a = Nat.to_uint b).
  { apply (f_equal NilEmpty.uint_of_string) in H. rewrite !NilEmpty.usu in H.
    now injection H. }
  apply (f_equal Nat.of_uint) in E. now rewrite !DecimalNat.Unsigned.of_to in E.
Qed.

Lemma reaching_entry_inj (d d' : nat) (v v' : string) :
  reaching_entry d v = reaching_entry d' v' -> d = d' /\ v = v'.
Proof.
  unfold reaching_entry. intro H. simpl in H. injection H as H.
  apply digits_prefix_unique in H; try apply string_of_uint_digits; [|reflexivity].
  destruct H as [Hd Hv]. split; [now apply of_nat_inj|].
  injection Hv as Hv. now apply append_inv_tail in Hv.
Qed.

(** *** The map computed by [compute_reaching_definitions] *)

Lemma reaching_fold_out vs la L keys : forall rd,
  ~ In L keys ->
  dict_get Nat.eqb
    (fold_left
       (fun rd line_num =>
          match la_get la line_num with
          | Some analysis =>
              dict_set Nat.eqb rd line_num (reaching_of_line vs line_num analysis)
          | None => rd
          end) keys rd) L
  = dict_get Nat.eqb rd L.
Proof.
  induction keys as [|k keys IH]; intros rd Hout; simpl; [reflexivity|].
  rewrite IH by (intro; apply Hout; now right).
  destruct (la_get la k); [|reflexivity].
  apply dict_get_set_other; [apply nat_eqb_eq|]. intro; subst. apply Hout. now left.
Qed.

Lemma reaching_fold_in vs la L r keys : forall rd,
  la_get la L = Some r -> In L keys ->
  dict_get Nat.eqb
    (fold_left
       (fun rd line_num =>
          match la_get la line_num with
          | Some analysis =>
              dict_set Nat.eqb rd line_num (reaching_of_line vs line_num analysis)
          | None => rd
          end) keys rd) L
  = Some (reaching_of_line vs L r).
Proof.
  intros rd Hr. revert rd. induction keys as [|k keys IH]; intros rd Hin; simpl; [destruct Hin|].
  destruct (in_dec Nat.eq_dec L keys) as [Hk|Hk]; [now apply IH|].
  destruct Hin as [->|Hin]; [|contradiction].
  rewrite reaching_fold_out by assumption. rewrite Hr.
  apply dict_get_set_same, nat_eqb_eq.
Qed.

Lemma reaching_entry_of_line vs la L r :
  la_get la L = Some r ->
  dict_get Nat.eqb (compute_reaching_definitions vs la) L
  = Some (reaching_of_line vs L r).
Proof.
  intro Hr. unfold compute_reaching_definitions. apply reaching_fold_in; [assumption|].
  eapply dict_get_key; [apply nat_eqb_eq|exact Hr].
Qed.

Lemma reaching_of_read_spec vs L x e :
  (forall rec d det, var_get vs x = Some rec -> In (d, det) (definitions rec) -> 1 <= d) ->
  In e (reaching_of_read vs L x) <->
  exists d, e = reaching_entry d x /\ nearest_definition vs x L d.
Proof.
  intro Hpos. unfold reaching_of_read, nearest_definition.
  destruct (var_get vs x) as [rec|] eqn:Ev.
  - pose proof (latest_definition_spec (definitions rec) L) as Hl.
    destruct (latest_definition (definitions rec) L) as [m|].
    + destruct Hl as ((det & Hin) & Hlt & Hmax).
      assert (Hm : 1 <= m) by (eapply Hpos; eauto).
      destruct m as [|n]; [lia|]. simpl. split.
      * intros [<-|[]]. exists (S n). split; [reflexivity|].
        exists rec. eauto 6.
      * intros (d & -> & rec' & [= <-] & (det' & Hin') & Hlt' & Hmax').
        left. f_equal.
        specialize (Hmax d det' Hin' Hlt'). specialize (Hmax' (S n) det Hin Hlt). lia.
    + simpl. split; [intros []|].
      intros (d & _ & rec' & [= <-] & (det' & Hin') & Hlt' & _).
      exact (Hl d det' Hin' Hlt').
  - simpl. split; [intros []|]. intros (d & _ & rec' & [=] & _).
Qed.

Lemma nearest_definition_exists vs v L :
  defined_before vs v L -> exists d, nearest_definition vs v L d.
Proof.
  intros (rec & d & det & Hv & Hin & Hlt).
  pose proof (latest_definition_spec (definitions rec) L) as Hl.
  destruct (latest_definition (definitions rec) L) as [m|].
  - destruct Hl as (Hin' & Hlt' & Hmax). exists m, rec. auto.
  - exfalso. exact (Hl d det Hin Hlt).
Qed.

(** C5: for a line [L] of the table and a variable [v] read at [L], the
    reaching-definitions entry of [L] holds a descriptive entry for [v]
    exactly when [v] has a recorded definition at a line strictly less than
    [L]; the line it names is the greatest such line; with no earlier
    definition there is no entry for [v].  Line numbers are 1-based
    ([definitions_positive], which holds of every analysis run by lemma
    [analyze_variables_positive]). *)
Theorem reaching_definition_is_nearest_preceding
  (vs : Variables) (la : LineAnalysis) (L : nat) (r : LineRecord) (v : string) :
  definitions_positive vs ->
  la_get la L = Some r -> In v (reads r) ->
  exists entries,
    dict_get Nat.eqb (compute_reaching_definitions vs la) L = Some entries /\
    (forall d, In (reaching_entry d v) entries <-> nearest_definition vs v L d) /\
    ((exists d, In (reaching_entry d v) entries) <-> defined_before vs v L).
Proof.
  intros Hpos Hr Hv. exists (reaching_of_line vs L r).
  split; [now apply reaching_entry_of_line|].
  assert (Hmain : forall d, In (reaching_entry d v) (reaching_of_line vs L r)
                            <-> nearest_definition vs v L d).
  { intro d. unfold reaching_of_line. rewrite in_flat_map. split.
    - intros (x & Hx & Hin). apply reaching_of_read_spec in Hin; [|now apply Hpos].
      destruct Hin as (d' & E & Hn). apply reaching_entry_inj in E as [-> ->]. assumption.
    - intro Hn. exists v. split; [assumption|].
      apply reaching_of_read_spec; [now apply Hpos|]. eauto. }
  split; [assumption|]. split.
  - intros [d Hd]. apply Hmain in Hd. destruct Hd as (rec & Hg & (det & Hin) & Hlt & _).
    exists rec, d, det. auto.
  - intro Hb. destruct (nearest_definition_exists vs v L Hb) as [d Hd].
    exists d. now apply Hmain.
Qed.

(** ** The text of a redefinition KILL *)

Lemma append_inv_head (a s s' : string) : a +++ s = a +++ s' -> s = s'.
Proof.
  induction a as [|x a IH]; simpl; intro H; [assumption|].
  injection H as H. now apply IH.
Qed.

(** The details of a redefinition KILL of [w] name one line: the text
    determines the line number. *)
Lemma redefinition_details_inj (w : string) (L L' : nat) :
  redefinition_details w L = redefinition_details w L' -> L = L'.
Proof.
  unfold redefinition_details. intro H.
  apply append_inv_head in H. apply append_inv_head in H.
  apply append_inv_head in H. now apply of_nat_inj.
Qed.

(** C2 (as the code has it): when [w] is written at line [L2] and the latest
    line before [L2] that writes [w] is [L1] (no line strictly between the
    two writes [w]), the sequence holds a KILL of [w] with line number [L2],
    immediately followed by the WRITE of [w] at [L2], and the WRITE of [w]
    at [L1] comes earlier.  The details of the KILL are the text
    "Variable 'w' redefined, killing previous definition from line L1", with
    [L1] in decimal, and this text names no other line. *)
Theorem redefinition_kill_precedes_write
  (la : LineAnalysis) (lines : list string) (w : string) (L1 L2 : nat)
  (r1 r2 : LineRecord) :
  la_get la L1 = Some r1 -> la_get la L2 = Some r2 -> L1 < L2 ->
  In w (writes r1) -> In w (writes r2) ->
  (forall L r, L1 < L < L2 -> la_get la L = Some r -> ~ In w (writes r)) ->
  let text := fun L : nat =>
    "Variable '" +++ w +++ "' redefined, killing previous definition from line "
    +++ Str.of_nat L in
  exists pre mid post d,
    map event (build_operation_sequence la lines) =
    pre ++ [(w, WRITE, L1, operation r1)] ++ mid
    ++ [(w, KILL, L2, d); (w, WRITE, L2, operation r2)]
    ++ post /\
    d = text L1 /\
    forall L, d = text L -> L = L1.
Proof.
  intros H1 H2 Hlt Hw1 Hw2 Hbetween text.
  unfold build_operation_sequence. rewrite terminate_event.
  set (ks := sorted (dict_keys la)).
  assert (Hs : StronglySorted le ks) by apply sorted_sorted.
  assert (Hin2 : In L2 ks).
  { apply sorted_In. eapply dict_get_key; [apply nat_eqb_eq|exact H2]. }
  assert (Hin1 : In L1 ks).
  { apply sorted_In. eapply dict_get_key; [apply nat_eqb_eq|exact H1]. }
  destruct (sorted_split_first ks L2 Hs Hin2) as (ks1 & ks2 & Eks & Hlow & _).
  assert (Hin1' : In L1 ks1).
  { rewrite Eks in Hin1. apply in_app_or in Hin1. destruct Hin1 as [?|[?|Hin1]]; auto; [lia|].
    exfalso. rewrite Eks in Hs. apply StronglySorted_app_inv in Hs as [_ Hs].
    inversion Hs as [|? ? _ Hall]; subst. rewrite Forall_forall in Hall.
    specialize (Hall L1 Hin1). lia. }
  assert (Hs1 : StronglySorted le ks1).
  { rewrite Eks in Hs. now apply StronglySorted_app_inv in Hs as [Hs _]. }
  destruct (sorted_split_first ks1 L1 Hs1 Hin1') as (ka & kc & Eks1 & _ & Hup).
  fold (events (run_builder la lines ks (mkBuilder [] 0 []))).
  rewrite Eks, Eks1. rewrite <- app_assoc. simpl.
  rewrite run_builder_app.
  set (ba := run_builder la lines ka (mkBuilder [] 0 [])).
  rewrite (run_builder_cons la lines L1 _ ba r1 H1).
  rewrite run_builder_app.
  set (b1 := process_line lines ba L1 r1).
  set (bc := run_builder la lines kc b1).
  rewrite (run_builder_cons la lines L2 _ bc r2 H2).
  assert (Hrec : recorded bc w = Some L1).
  { apply (run_builder_keeps_recorded la lines w L1 r1); auto.
    - intros k r Hk Hne Hr. apply (Hbetween k r); [|assumption].
      rewrite Forall_forall in Hup, Hlow. specialize (Hup k Hk).
      assert (In k ks1) by (rewrite Eks1; apply in_or_app; right; now right).
      specialize (Hlow k H). lia.
    - now apply process_line_recorded_in. }
  destruct (process_line_write lines ba L1 r1 w Hw1) as (l1 & l2 & E1).
  destruct (run_builder_events la lines kc b1) as (lc & Ec & _).
  destruct (process_line_kill_write lines bc L2 r2 w L1 Hw2 Hrec) as (l3 & l4 & E2).
  destruct (run_builder_events la lines ks2 (process_line lines bc L2 r2)) as (l5 & E5 & _).
  exists (events ba ++ l1), (l2 ++ lc ++ l3), (l4 ++ l5), (redefinition_details w L1).
  split; [|split].
  - fold bc in Ec. fold b1 in E1. rewrite E5, E2, Ec, E1.
    repeat (rewrite <- app_assoc; simpl). reflexivity.
  - reflexivity.
  - intros L E. symmetry. now apply (redefinition_details_inj w).
Qed.

(** ** The line-analysis table *)

Lemma analyze_line_skip i line st :
  analyzable line = false -> analyze_line i line st = st.
Proof.
  unfold analyzable, analyze_line. intro H.
  destruct (is_skipped line); [reflexivity|].
  destruct (is_function_definition line); [reflexivity|discriminate].
Qed.

Lemma analyze_line_store i line st :
  analyzable line = true ->
  line_analysis (analyze_line i line st) =
  dict_set Nat.eqb (line_analysis st) i
    (record_of (classify i line (mkLineAcc [] [] "" (variables st)))).
Proof.
  unfold analyzable, analyze_line. intro H.
  destruct (is_skipped line); [discriminate|].
  destruct (is_function_definition line); [discriminate|reflexivity].
Qed.

Lemma classify_no_rule i line a : no_rule_matches line = true -> classify i line a = a.
Proof.
  unfold no_rule_matches, classify. intro H.
  repeat (apply andb_true_iff in H; destruct H as [H ?]).
  repeat match goal with
         | E : negb ?b = true |- _ => apply negb_true_iff in E; rewrite E
         end.
  reflexivity.
Qed.

Lemma analyze_lines_keys lines : forall i st,
  Forall (fun k => k < i) (dict_keys (line_analysis st)) ->
  dict_keys (line_analysis (analyze_lines i lines st))
  = dict_keys (line_analysis st) ++ analyzable_from i lines.
Proof.
  induction lines as [|line rest IH]; intros i st Hlt; simpl.
  - now rewrite app_nil_r.
  - destruct (analyzable line) eqn:Ea.
    + rewrite IH.
      * rewrite analyze_line_store by assumption. rewrite dict_keys_set.
        assert (Hm : dict_mem Nat.eqb (line_analysis st) i = false).
        { unfold dict_mem. destruct (dict_get Nat.eqb (line_analysis st) i) eqn:E; [|reflexivity].
          apply dict_get_key in E; [|apply nat_eqb_eq].
          rewrite Forall_forall in Hlt. specialize (Hlt i E). lia. }
        rewrite Hm. now rewrite <- app_assoc.
      * rewrite analyze_line_store by assumption. rewrite dict_keys_set.
        destruct (dict_mem Nat.eqb (line_analysis st) i).
        -- eapply Forall_impl; [|exact Hlt]. simpl. intros; lia.
        -- apply Forall_app. split.
           ++ eapply Forall_impl; [|exact Hlt]. simpl. intros; lia.
           ++ constructor; [lia|constructor].
    + rewrite analyze_line_skip by assumption. simpl. apply IH.
      eapply Forall_impl; [|exact Hlt]. simpl. intros; lia.
Qed.

Lemma analyzable_from_bounds lines : forall i k,
  In k (analyzable_from i lines) -> i <= k < i + length lines.
Proof.
  induction lines as [|line rest IH]; intros i k H; simpl in *; [destruct H|].
  apply in_app_or in H. destruct H as [H|H].
  - destruct (analyzable line); [|destruct H]. destruct H as [<-|[]]. lia.
  - apply IH in H. lia.
Qed.

Lemma analyzable_from_count lines : forall i L,
  i <= L < i + length lines ->
  count_occ Nat.eq_dec (analyzable_from i lines) L
  = if analyzable (nth (L - i) lines "") then 1 else 0.
Proof.
  induction lines as [|line rest IH]; intros i L HL; simpl in *; [lia|].
  rewrite count_occ_app. destruct (Nat.eq_dec i L) as [->|Hne].
  - rewrite Nat.sub_diag.
    assert (Hz : count_occ Nat.eq_dec (analyzable_from (S L) rest) L = 0).
    { apply count_occ_not_In. intro H. apply analyzable_from_bounds in H. lia. }
    rewrite Hz. destruct (analyzable line); simpl; [|reflexivity].
    destruct (Nat.eq_dec L L); [reflexivity|contradiction].
  - rewrite IH by lia.
    replace (L - i) with (S (L - S i)) by lia.
    assert (Hz : count_occ Nat.eq_dec (if analyzable line then [i] else []) L = 0).
    { destruct (analyzable line); simpl; [|reflexivity].
      destruct (Nat.eq_dec i L); [contradiction|reflexivity]. }
    now rewrite Hz.
Qed.

Lemma analyze_line_get_other i line st L :
  L <> i -> la_get (line_analysis (analyze_line i line st)) L = la_get (line_analysis st) L.
Proof.
  intro Hne. destruct (analyzable line) eqn:Ea.
  - rewrite analyze_line_store by assumption.
    apply dict_get_set_other; [apply nat_eqb_eq|assumption].
  - now rewrite analyze_line_skip.
Qed.

Lemma analyze_lines_get_old lines : forall i st L,
  L < i ->
  la_get (line_analysis (analyze_lines i lines st)) L = la_get (line_analysis st) L.
Proof.
  induction lines as [|line rest IH]; intros i st L HL; simpl; [reflexivity|].
  rewrite IH by lia. apply analyze_line_get_other. lia.
Qed.

Lemma analyze_lines_record lines : forall i st L,
  i <= L < i + length lines ->
  analyzable (nth (L - i) lines "") = true ->
  exists vars,
    la_get (line_analysis (analyze_lines i lines st)) L
    = Some (record_of (classify L (nth (L - i) lines "") (mkLineAcc [] [] "" vars))).
Proof.
  induction lines as [|line rest IH]; intros i st L HL Ha; simpl in HL; [lia|].
  destruct (Nat.eq_dec i L) as [->|Hne].
  - rewrite Nat.sub_diag in *. simpl in *. exists (variables st).
    rewrite analyze_lines_get_old by lia.
    rewrite analyze_line_store by assumption.
    apply dict_get_set_same, nat_eqb_eq.
  - replace (L - i) with (S (L - S i)) in * by lia. simpl in *.
    apply IH; [lia|assumption].
Qed.

(** C6 (as the code has it): a line that is not blank, not a comment, not a
    preprocessor line and not a function definition line has exactly one
    record in the line-analysis table; a line of one of these four kinds has
    none; and an analyzable line that no classifier rule matches has the
    record with empty reads, empty writes and an empty operation label. *)
Theorem line_record_per_analyzable_line (lines : list string) (L : nat) :
  1 <= L <= length lines ->
  let la := line_analysis (analyze_variables lines) in
  let line := nth (L - 1) lines "" in
  count_occ Nat.eq_dec (dict_keys la) L = (if analyzable line then 1 else 0) /\
  (analyzable line = true -> exists r, la_get la L = Some r) /\
  (analyzable line = false -> la_get la L = None) /\
  (analyzable line = true -> no_rule_matches line = true ->
   la_get la L = Some (mkLineRecord [] [] "")).
Proof.
  intros HL la line. subst la line. unfold analyze_variables.
  assert (Hkeys := analyze_lines_keys lines 1 (mkAnalyzer [] []) (Forall_nil _)).
  simpl in Hkeys.
  assert (Hcount : count_occ Nat.eq_dec
                     (dict_keys (line_analysis (analyze_lines 1 lines (mkAnalyzer [] [])))) L
                   = if analyzable (nth (L - 1) lines "") then 1 else 0).
  { rewrite Hkeys. apply analyzable_from_count. lia. }
  split; [assumption|]. split; [|split].
  - intro Ha. destruct (analyze_lines_record lines 1 (mkAnalyzer [] []) L) as [vars E];
      [lia|assumption|]. eauto.
  - intro Ha. rewrite Ha in Hcount. apply dict_get_None; [apply nat_eqb_eq|].
    now apply count_occ_not_In in Hcount.
  - intros Ha Hn. destruct (analyze_lines_record lines 1 (mkAnalyzer [] []) L) as [vars E];
      [lia|assumption|].
    rewrite E. now rewrite classify_no_rule.
Qed.

(** ** The block partitioner *)

Lemma emit_block_blocks st c s e ls t :
  blocks (emit_block st c s e ls t)
  = blocks st ++ [mkBlock (block_counter st) t s e ls (preview_of ls) []].
Proof. reflexivity. Qed.

Lemma advances_emit st c s e ls t :
  cursor st < c -> advances st (emit_block st c s e ls t).
Proof.
  intro H. split; [assumption|]. eexists. split; [apply emit_block_blocks|].
  constructor; [split; reflexivity|constructor].
Qed.

Lemma advances_skip st c :
  cursor st < c -> advances st (mkCarve c (block_counter st) (blocks st)).
Proof.
  intro H. split; [assumption|]. exists []. split; [now rewrite app_nil_r|constructor].
Qed.

Lemma return_lookahead_ge rest : forall j0 j,
  return_lookahead rest j0 = Some j -> j0 <= j.
Proof.
  induction rest as [|l rest IH]; intros j0 j H; simpl in H; [discriminate|].
  destruct (Str.strip l =? "}")%string.
  - destruct (length (filter (Str.contains "}") rest) =? 0); [|discriminate].
    injection H as <-. lia.
  - destruct (negb (Str.strip l =? "")%string && negb (Str.startswith "//" (Str.strip l)));
      [discriminate|].
    apply IH in H. lia.
Qed.

Lemma return_rule_advances lines st : advances st (return_rule lines st).
Proof.
  unfold return_rule.
  destruct (return_lookahead (skipn (cursor st + 1) lines) (cursor st + 1)) as [j|] eqn:E.
  - apply return_lookahead_ge in E. apply advances_emit. lia.
  - apply advances_emit. lia.
Qed.

Lemma else_rule_advances lines st : advances st (else_rule lines st).
Proof.
  unfold else_rule. destruct (Str.contains "{" (nth (cursor st) lines "")).
  - match goal with |- context [2 <? ?n] => destruct (2 <? n) end.
    + apply advances_emit. simpl. lia.
    + apply advances_skip. simpl. lia.
  - apply advances_emit. destruct (cursor st + 1 <? length lines); simpl; lia.
Qed.

Lemma brace_rule_advances lines st : advances st (brace_rule lines st).
Proof.
  unfold brace_rule.
  destruct (collect_body (skipn (cursor st + 1) lines)) as [block_lines passed].
  match goal with |- context [if ?c then _ else _] => destruct c end.
  - apply advances_emit. lia.
  - apply advances_skip. lia.
Qed.

Lemma regular_rule_advances lines st : advances st (regular_rule lines st).
Proof.
  unfold regular_rule.
  match goal with |- context [if ?c then _ else _] => destruct c end.
  - apply advances_emit. simpl. lia.
  - apply advances_skip. simpl. lia.
Qed.

Lemma carve_step_advances lines st : advances st (carve_step lines st).
Proof.
  unfold carve_step.
  repeat match goal with
         | |- advances _ (if ?c then _ else _) => destruct c
         end;
    auto using return_rule_advances, else_rule_advances, brace_rule_advances,
      regular_rule_advances;
    try (apply advances_emit; lia); apply advances_skip; lia.
Qed.

(** The loop finishes within [length lines] iterations, and more fuel does
    not change its result. *)
Lemma carve_loop_done fuel lines st :
  length lines <= cursor st -> carve_loop fuel lines st = st.
Proof.
  intro H. destruct fuel; simpl; [reflexivity|].
  assert (E : (cursor st <? length lines) = false) by (apply Nat.ltb_ge; lia).
  now rewrite E.
Qed.

Lemma carve_loop_finished lines : forall fuel st,
  length lines - cursor st <= fuel ->
  length lines <= cursor (carve_loop fuel lines st).
Proof.
  induction fuel as [|fuel IH]; intros st H; simpl; [lia|].
  destruct (cursor st <? length lines) eqn:E.
  - apply IH. destruct (carve_step_advances lines st) as [Hc _]. lia.
  - apply Nat.ltb_ge in E. assumption.
Qed.

Lemma carve_loop_fuel lines : forall f1 f2 st,
  length lines - cursor st <= f1 -> length lines - cursor st <= f2 ->
  carve_loop f1 lines st = carve_loop f2 lines st.
Proof.
  induction f1 as [|f1 IH]; intros f2 st H1 H2.
  - rewrite !carve_loop_done by lia. reflexivity.
  - destruct f2 as [|f2]; [rewrite !carve_loop_done by lia; reflexivity|].
    simpl. destruct (cursor st <? length lines) eqn:E; [|reflexivity].
    apply Nat.ltb_lt in E. destruct (carve_step_advances lines st) as [Hc _].
    apply IH; lia.
Qed.

Lemma carve_loop_blocks lines : forall fuel st,
  exists bs, blocks (carve_loop fuel lines st) = blocks st ++ bs /\ Forall preview_ok bs.
Proof.
  induction fuel as [|fuel IH]; intro st; simpl.
  - exists []. split; [now rewrite app_nil_r|constructor].
  - destruct (cursor st <? length lines).
    + destruct (carve_step_advances lines st) as [_ (bs1 & E1 & P1)].
      destruct (IH (carve_step lines st)) as (bs2 & E2 & P2).
      exists (bs1 ++ bs2). split; [now rewrite E2, E1, app_assoc|].
      apply Forall_app. split; assumption.
    + exists []. split; [now rewrite app_nil_r|constructor].
Qed.

Lemma visits_result lines st :
  visits lines st ->
  carve_loop (length lines) lines st = carve_loop (length lines) lines carve_init.
Proof.
  induction 1 as [|st Hv IH Hlt]; [reflexivity|].
  rewrite <- IH.
  rewrite (carve_loop_fuel lines (length lines) (S (length lines)) st) by lia.
  simpl. apply Nat.ltb_lt in Hlt. now rewrite Hlt.
Qed.

Lemma visits_blocks lines st b :
  visits lines st -> In b (blocks st) -> In b (create_logical_blocks lines).
Proof.
  intros Hv Hb. unfold create_logical_blocks. rewrite <- (visits_result lines st Hv).
  destruct (carve_loop_blocks lines (length lines) st) as (bs & E & _).
  rewrite E. apply in_or_app. now left.
Qed.

Lemma create_logical_blocks_terminates lines :
  length lines <= cursor (carve_loop (length lines) lines carve_init).
Proof. apply carve_loop_finished. simpl. lia. Qed.

Lemma create_logical_blocks_preview lines :
  Forall preview_ok (create_logical_blocks lines).
Proof.
  unfold create_logical_blocks.
  destruct (carve_loop_blocks lines (length lines) carve_init) as (bs & E & P).
  now rewrite E.
Qed.

(** C10 (as the code has it): when the cursor of the carving pass is on a
    line that is neither blank nor a preprocessor line, that the main, loop
    and if rules do not match, and whose text contains the characters
    "return" anywhere, the pass carves an END block that starts at that
    line, whatever the else, brace and generic-statement rules would say. *)
Theorem return_text_carves_end (lines : list string) (st : Carve) :
  visits lines st -> cursor st < length lines ->
  let line := nth (cursor st) lines "" in
  (Str.strip line =? "")%string = false ->
  Str.startswith "#" (Str.strip line) = false ->
  Re.matches Pat.MAIN_SIG line = false ->
  Re.matches Pat.LOOP_HEAD line = false ->
  Re.matches Pat.IF_HEAD line = false ->
  Str.contains "return" line = true ->
  carve_step lines st = return_rule lines st /\
  exists end_line rest,
    cursor st + 1 <= end_line /\
    In (mkBlock (block_counter st) END (cursor st + 1) end_line (line :: rest)
          (preview_of (line :: rest)) [])
       (create_logical_blocks lines).
Proof.
  intros Hv Hlt line Hblank Hpre Hmain Hloop Hif Hret.
  assert (E : carve_step lines st = return_rule lines st).
  { unfold carve_step. fold line. now rewrite Hblank, Hpre, Hmain, Hloop, Hif, Hret. }
  split; [assumption|].
  assert (Hv' : visits lines (carve_step lines st)) by now constructor.
  rewrite E in Hv'. unfold return_rule in Hv'. fold line in Hv'.
  destruct (return_lookahead (skipn (cursor st + 1) lines) (cursor st + 1)) as [j|] eqn:El.
  - apply return_lookahead_ge in El.
    exists (j + 1), [nth j lines ""]. split; [lia|].
    apply (visits_blocks lines _ _ Hv'). rewrite emit_block_blocks.
    apply in_or_app. right. now left.
  - exists (cursor st + 1), []. split; [lia|].
    apply (visits_blocks lines _ _ Hv'). rewrite emit_block_blocks.
    apply in_or_app. right. now left.
Qed.

(** C9 (as the code has it): the preview of an emitted block is the
    sentinel "{ ... }" when the block has no meaningful line; otherwise it
    is the first meaningful line with the surrounding white space removed,
    kept whole when it has at most 50 characters and else cut to its first
    47 characters followed by "...". *)
Theorem block_preview_of_first_meaningful_line (lines : list string) (b : Block) :
  In b (create_logical_blocks lines) ->
  (filter meaningful (block_lines b) = [] -> code_preview b = "{ ... }") /\
  (forall l rest, filter meaningful (block_lines b) = l :: rest ->
     (String.length (Str.strip l) <= 50 -> code_preview b = Str.strip l) /\
     (50 < String.length (Str.strip l) ->
      code_preview b = Str.take 47 (Str.strip l) +++ "...")).
Proof.
  intro Hb. pose proof (create_logical_blocks_preview lines) as Hall.
  rewrite Forall_forall in Hall. destruct (Hall b Hb) as [Hp _].
  rewrite Hp. unfold preview_of. split.
  - intros ->. reflexivity.
  - intros l rest ->. simpl. split; intro Hlen.
    + assert (E : (50 <? String.length (Str.strip l)) = false) by (apply Nat.ltb_ge; lia).
      now rewrite E.
    + apply Nat.ltb_lt in Hlen. now rewrite Hlen.
Qed.

(** ** Line numbers recorded by [analyze_variables] are 1-based *)

Lemma add_variable_definition_positive vs x i det :
  1 <= i -> definitions_positive vs ->
  definitions_positive (add_variable_definition vs x i det).
Proof.
  intros Hi Hpos y rec d det' Hget Hin. unfold add_variable_definition, var_get in *.
  destruct (string_dec y x) as [->|Hne].
  - rewrite dict_get_set_same in Hget by apply str_eqb_eq.
    injection Hget as <-. simpl in Hin. apply in_app_or in Hin.
    destruct Hin as [Hin|[[= <- <-]|[]]]; [|assumption].
    destruct (dict_get String.eqb vs x) as [r|] eqn:E; [|destruct Hin].
    eapply Hpos; eauto.
  - rewrite dict_get_set_other in Hget by auto using str_eqb_eq.
    eapply Hpos; eauto.
Qed.

Lemma add_variable_use_positive vs x i det :
  definitions_positive vs -> definitions_positive (add_variable_use vs x i det).
Proof.
  intros Hpos y rec d det' Hget Hin. unfold add_variable_use, var_get in *.
  destruct (string_dec y x) as [->|Hne].
  - rewrite dict_get_set_same in Hget by apply str_eqb_eq.
    injection Hget as <-. simpl in Hin.
    destruct (dict_get String.eqb vs x) as [r|] eqn:E; [|destruct Hin].
    eapply Hpos; eauto.
  - rewrite dict_get_set_other in Hget by auto using str_eqb_eq.
    eapply Hpos; eauto.
Qed.

Lemma decl_list_fold_positive (i : nat) (is_pointer : bool) (names : list string) :
  forall a : LineAcc,
  1 <= i -> definitions_positive (acc_variables a) ->
  definitions_positive
    (acc_variables
       (fold_left
          (fun a var_name =>
             if negb (Str.mem var_name (acc_writes a)) then
               let writes := acc_writes a ++ [var_name] in
               let ptr_str := if is_pointer then " pointer" else "" in
               let operation := "Declaration of " +++ var_name +++ ptr_str in
               mkLineAcc (acc_reads a) writes operation
                 (add_variable_definition (acc_variables a) var_name i operation)
             else a)
          names a)).
Proof.
  induction names as [|x names IH]; intros a Hi Hpos; simpl; [assumption|].
  apply IH; [assumption|].
  destruct (negb (Str.mem x (acc_writes a))); [|assumption].
  simpl. now apply add_variable_definition_positive.
Qed.

Lemma classify_positive i line a :
  1 <= i -> definitions_positive (acc_variables a) ->
  definitions_positive (acc_variables (classify i line a)).
Proof.
  intros Hi Hpos. unfold classify.
  destruct (is_deref_assignment line).
  { unfold deref_assignment_branch. destruct (Re.search Pat.DEREF_ASSIGN line); [|assumption].
    simpl. now apply add_variable_definition_positive. }
  destruct (is_decl_init line).
  { unfold decl_init_branch. destruct (Re.search Pat.DECL_INIT line); [|assumption].
    simpl. now apply add_variable_definition_positive. }
  destruct (is_decl_list line).
  { unfold decl_list_branch. destruct (Re.search Pat.DECL_TYPE line); [|assumption].
    now apply decl_list_fold_positive. }
  destruct (is_assignment line).
  { unfold assignment_branch. destruct (Re.search Pat.ASSIGN line); [|assumption].
    simpl. now apply add_variable_definition_positive. }
  destruct (is_control line).
  { unfold control_branch. destruct (Re.search Pat.CONTROL line); assumption. }
  destruct (is_call line).
  { unfold call_branch. destruct (Re.search Pat.CALL_HEAD line) as [fm|]; [|assumption].
    match goal with |- context [if ?c then _ else _] => destruct c end; [|assumption].
    match goal with |- context [Re.search Pat.ASSIGN_TARGET ?s] =>
      destruct (Re.search Pat.ASSIGN_TARGET s) end; [|assumption].
    match goal with |- context [if ?c then _ else _] => destruct c end; [|assumption].
    simpl. now apply add_variable_definition_positive. }
  destruct (is_return line); assumption.
Qed.

Lemma add_uses_positive (i : nat) (det : string) (rs : list string) :
  forall vs : Variables,
  definitions_positive vs ->
  definitions_positive
    (fold_left (fun vs var => add_variable_use vs var i det) rs vs).
Proof.
  induction rs as [|x rs IH]; intros vs Hpos; simpl; [assumption|].
  apply IH. now apply add_variable_use_positive.
Qed.

Lemma analyze_line_positive i line st :
  1 <= i -> definitions_positive (variables st) ->
  definitions_positive (variables (analyze_line i line st)).
Proof.
  intros Hi Hpos. unfold analyze_line.
  destruct (is_skipped line); [assumption|].
  destruct (is_function_definition line); [assumption|].
  simpl. apply add_uses_positive. now apply classify_positive.
Qed.

Lemma analyze_lines_positive lines : forall i st,
  1 <= i -> definitions_positive (variables st) ->
  definitions_positive (variables (analyze_lines i lines st)).
Proof.
  induction lines as [|line rest IH]; intros i st Hi Hpos; simpl; [assumption|].
  apply IH; [lia|]. now apply analyze_line_positive.
Qed.

Lemma analyze_variables_positive (lines : list string) :
  definitions_positive (variables (analyze_variables lines)).
Proof.
  apply analyze_lines_positive; [lia|]. intros x rec d det H. discriminate.
Qed.

(** ** The end-to-end scenario *)

(** C1 (as the code has it): on the five-line scenario the variables a, b
    and sum are defined at lines 1, 2 and 4; sum depends on a and b; the
    record of line 3 reads a and b, writes nothing and is labelled
    "Control flow: if statement"; the blocks are ACTIVITY 1-2, XOR 3-3,
    ACTIVITY 4-4 and ACTIVITY 5-5 (the closing brace is a block of its own);
    and there are two conditional arcs from the XOR block: "If true" to the
    block of line 4 and "If false" to the block of the closing brace. *)
Theorem scenario_analysis :
  let df := analyze scenario in
  let g := tta_analyze scenario in
  map (fun e => (fst e, map fst (definitions (snd e)))) (df_variables df)
  = [("a", [1]); ("b", [2]); ("sum", [4])] /\
  (exists ds, dict_get String.eqb (df_dependencies df) "sum" = Some ds /\
              Permutation ds ["a"; "b"]) /\
  (exists r, la_get (df_line_analysis df) 3 = Some r /\
             Permutation (reads r) ["a"; "b"] /\ writes r = [] /\
             operation r = "Control flow: if statement") /\
  map (fun b => (block_id b, node_type b, start_line b, end_line b)) (tta_blocks g)
  = [(0, ACTIVITY, 1, 2); (1, XOR, 3, 3); (2, ACTIVITY, 4, 4); (3, ACTIVITY, 5, 5)] /\
  filter is_conditional (tta_arcs g)
  = [mkArc 1 2 dashed "If true"; mkArc 1 3 dashed "If false"] /\
  tta_arcs g
  = [mkArc 0 1 solid "Sequential"; mkArc 1 2 dashed "If true";
     mkArc 1 3 dashed "If false"].
Proof.
  cbv zeta. split; [vm_compute; reflexivity|]. split.
  { exists ["a"; "b"]. split; [vm_compute; reflexivity|apply Permutation_refl]. }
  split.
  { exists (mkLineRecord ["a"; "b"] [] "Control flow: if statement").
    split; [vm_compute; reflexivity|]. simpl. auto using Permutation_refl. }
  split; [vm_compute; reflexivity|]. split; vm_compute; reflexivity.
Qed.

(** The scenario has two conditional arcs, not one. *)
Lemma scenario_not_one_conditional_arc :
  ~ (exists x y,
        filter is_conditional (tta_arcs (tta_analyze scenario))
        = [mkArc x y dashed "If true"]).
Proof.
  intros (x & y & H). vm_compute in H. discriminate.
Qed.

(** ** Inputs on which the statements of the specification fail *)

(** A comment line holds the text of a deallocation, and the operation
    sequence is empty: no KILL is emitted for it. *)
Lemma comment_line_free_emits_no_kill :
  Str.contains "free(p);" (nth 0 ["// free(p);"] "") = true /\
  ~ (exists o, In o (source_operation_sequence ["// free(p);"]) /\
               kind o = KILL /\ variable_name o = "p" /\ line_number o = 1).
Proof.
  split; [reflexivity|]. intros (o & H & _). vm_compute in H. exact H.
Qed.

(** A function definition line is not blank, not a comment and not a
    preprocessor line, and it has no record in the line-analysis table. *)
Lemma function_definition_line_has_no_record :
  is_skipped (nth 0 ["int main() {"; "}"] "") = false /\
  la_get (line_analysis (analyze_variables ["int main() {"; "}"])) 1 = None.
Proof. split; vm_compute; reflexivity. Qed.

(** The KILL of a redefinition names the latest earlier definition only:
    [x] is written at lines 1 and 3, yet the one KILL of [x] at line 3 names
    line 2, not line 1. *)
Lemma redefinition_kill_names_latest_definition_only :
  let la := line_analysis (analyze_variables three_writes_source) in
  (exists r1 r3, la_get la 1 = Some r1 /\ la_get la 3 = Some r3 /\
                 In "x" (writes r1) /\ In "x" (writes r3)) /\
  In ("x", KILL, 3, "Variable 'x' redefined, killing previous definition from line 2")
     (map event (source_operation_sequence three_writes_source)) /\
  forall d, In ("x", KILL, 3, d)
              (map event (source_operation_sequence three_writes_source)) ->
            d = "Variable 'x' redefined, killing previous definition from line 2".
Proof.
  split; [|split].
  - vm_compute. do 2 eexists. repeat split; left; reflexivity.
  - vm_compute. auto 10.
  - intros d H. vm_compute in H.
    repeat (destruct H as [H|H]; [try discriminate H; now injection H as <-|]).
    destruct H.
Qed.

(** A function signature with a name other than main is not carved as a
    START block. *)
Lemma other_function_name_emits_no_start :
  is_function_definition (nth 0 ["int foo() {"; "}"] "") = true /\
  ~ (exists b, In b (create_logical_blocks ["int foo() {"; "}"]) /\
               node_type b = START).
Proof.
  split; [vm_compute; reflexivity|].
  intros (b & H & Ht). vm_compute in H.
  destruct H as [<-|[<-|[]]]; discriminate.
Qed.

(** A line of 48 characters is kept whole by the code. *)
Lemma preview_of_48_characters_is_not_cut :
  String.length line_of_48 = 48 /\
  exists b, create_logical_blocks [line_of_48] = [b] /\
            code_preview b = line_of_48 /\
            code_preview b <> preview_as_specified (block_lines b).
Proof.
  split; [reflexivity|]. eexists. split; [vm_compute; reflexivity|].
  split; [reflexivity|]. vm_compute. discriminate.
Qed.

(** A line that holds both an if header and the text return is carved as an
    XOR block; no END block starts at it. *)
Lemma if_line_with_return_is_not_end :
  Str.contains "return" (nth 0 ["if (x) return 1;"] "") = true /\
  ~ (exists b, In b (create_logical_blocks ["if (x) return 1;"]) /\
               node_type b = END /\ start_line b = 1).
Proof.
  split; [vm_compute; reflexivity|].
  intros (b & H & Ht & _). vm_compute in H.
  destruct H as [<-|[]]. discriminate.
Qed.

(** A main signature that follows a statement is taken into the ACTIVITY
    block of that statement: the cursor does not stop on it. *)
Lemma main_line_after_statement_is_absorbed :
  map (fun b => (node_type b, start_line b, end_line b))
    (create_logical_blocks ["int g;"; "int main() {"])
  = [(ACTIVITY, 1, 2)].
Proof. vm_compute. reflexivity. Qed.

(** The text return in a comment-only line, in a longer identifier and in a
    string literal starts an END block. *)
Lemma return_text_examples :
  map (fun b => (node_type b, start_line b, end_line b))
    (create_logical_blocks
       ["// return early"; ""; "returnValue = 1;"; "";
        "puts(" +++ String Pat.dquote ("return" +++ String Pat.dquote ");")])
  = [(END, 1, 1); (END, 3, 3); (END, 5, 5)].
Proof. vm_compute. reflexivity. Qed.

(** A line with the text return that follows a statement is taken into the
    ACTIVITY block of that statement when return is part of an identifier. *)
Lemma return_identifier_after_statement_is_absorbed :
  map (fun b => (node_type b, start_line b, end_line b))
    (create_logical_blocks ["int x;"; "returnValue = 1;"])
  = [(ACTIVITY, 1, 2)].
Proof. vm_compute. reflexivity. Qed.

(** ** The theorems on concrete inputs *)

Lemma redefinition_kill_precedes_write_witness :
  exists pre mid post d,
    map event (source_operation_sequence redefinition_source) =
    pre ++ [("x", WRITE, 1, "Declaration and assignment of x")] ++ mid
    ++ [("x", KILL, 3, d); ("x", WRITE, 3, "Assignment to x")]
    ++ post /\
    d = "Variable 'x' redefined, killing previous definition from line 1" /\
    forall L, d = "Variable 'x' redefined, killing previous definition from line "
                  +++ Str.of_nat L -> L = 1.
Proof.
  apply (redefinition_kill_precedes_write
           (line_analysis (analyze_variables redefinition_source)) redefinition_source
           "x" 1 3
           (mkLineRecord [] ["x"] "Declaration and assignment of x")
           (mkLineRecord [] ["x"] "Assignment to x")).
  - vm_compute; reflexivity.
  - vm_compute; reflexivity.
  - lia.
  - simpl; auto.
  - simpl; auto.
  - intros L r HL. assert (L = 2) as -> by lia. vm_compute.
    intros [= <-] [H|[]]. discriminate.
Defined.

Lemma operation_chain_dense_single_terminal_witness :
  let ops := source_operation_sequence redefinition_source in
  ops <> [] /\
  map operation_id ops = seq 0 (length ops) /\
  forall i o, nth_error ops i = Some o ->
    operation_id o = i /\
    (i + 1 < length ops -> next o = Some (operation_id o + 1)) /\
    (i + 1 = length ops -> next o = None) /\
    (next o = None -> i + 1 = length ops).
Proof.
  assert (H : source_operation_sequence redefinition_source <> [])
    by (vm_compute; discriminate).
  split; [exact H|].
  exact (operation_chain_dense_single_terminal
           (line_analysis (analyze_variables redefinition_source)) redefinition_source H).
Defined.

Lemma free_kill_follows_line_operations_witness :
  exists pre post,
    map event (source_operation_sequence free_source) =
    pre ++ [("p", KILL, 2, freed_details "p")] ++ post /\
    Forall (fun e => snd (fst e) <> 2) post.
Proof.
  destruct (Re.search Pat.FREE (nth (2 - 1) free_source "")) as [m|] eqn:Em;
    [|vm_compute in Em; discriminate].
  assert (Hg : Re.group (nth (2 - 1) free_source "") m 1 = "p").
  { vm_compute in Em. injection Em as <-. reflexivity. }
  rewrite <- Hg.
  apply (free_kill_follows_line_operations
           (line_analysis (analyze_variables free_source)) free_source 2
           (mkLineRecord ["p"] [] "Function call: free()") m).
  - vm_compute; reflexivity.
  - simpl; lia.
  - vm_compute; reflexivity.
  - exact Em.
Defined.

Lemma reaching_definition_is_nearest_preceding_witness :
  exists entries,
    dict_get Nat.eqb
      (compute_reaching_definitions (variables (analyze_variables redefinition_source))
         (line_analysis (analyze_variables redefinition_source))) 2 = Some entries /\
    (forall d, In (reaching_entry d "x") entries <->
               nearest_definition (variables (analyze_variables redefinition_source)) "x" 2 d) /\
    ((exists d, In (reaching_entry d "x") entries) <->
     defined_before (variables (analyze_variables redefinition_source)) "x" 2).
Proof.
  apply (reaching_definition_is_nearest_preceding
           (variables (analyze_variables redefinition_source))
           (line_analysis (analyze_variables redefinition_source)) 2
           (mkLineRecord ["x"] ["y"] "Declaration and assignment of y") "x").
  - apply analyze_variables_positive.
  - vm_compute; reflexivity.
  - simpl; auto.
Defined.

Lemma line_record_per_analyzable_line_witness :
  1 <= 5 <= length scenario /\
  la_get (line_analysis (analyze_variables scenario)) 5 = Some (mkLineRecord [] [] "").
Proof.
  assert (HL : 1 <= 5 <= length scenario) by (simpl; lia).
  split; [exact HL|].
  destruct (line_record_per_analyzable_line scenario 5 HL) as (_ & _ & _ & H).
  apply H; vm_compute; reflexivity.
Defined.

Lemma dependency_entry_is_union_of_reads_witness :
  exists ds,
    dict_get String.eqb
      (build_dependencies (line_analysis (analyze_variables scenario))) "sum" = Some ds /\
    ~ In "sum" ds /\ NoDup ds /\
    forall v, In v ds <->
      v <> "sum" /\
      exists L r, In (L, r) (line_analysis (analyze_variables scenario)) /\
                  In "sum" (writes r) /\ In v (reads r).
Proof.
  apply (dependency_entry_is_union_of_reads
           (line_analysis (analyze_variables scenario)) "sum" 4
           (mkLineRecord ["a"; "b"] ["sum"] "Declaration and assignment of sum")).
  - vm_compute. auto 10.
  - simpl; auto.
Defined.

Lemma return_text_carves_end_witness :
  carve_step return_source carve_init = return_rule return_source carve_init /\
  exists end_line rest,
    0 + 1 <= end_line /\
    In (mkBlock 0 END (0 + 1) end_line ("returnValue = compute();" :: rest)
          (preview_of ("returnValue = compute();" :: rest)) [])
       (create_logical_blocks return_source).
Proof.
  apply (return_text_carves_end return_source carve_init).
  - apply visits_init.
  - simpl; lia.
  - vm_compute; reflexivity.
  - vm_compute; reflexivity.
  - vm_compute; reflexivity.
  - vm_compute; reflexivity.
  - vm_compute; reflexivity.
  - vm_compute; reflexivity.
Defined.

Lemma block_preview_of_first_meaningful_line_witness :
  let b := mkBlock 0 ACTIVITY 1 1 [line_of_48] line_of_48 [] in
  In b (create_logical_blocks [line_of_48]) /\
  (filter meaningful (block_lines b) = [] -> code_preview b = "{ ... }") /\
  (forall l rest, filter meaningful (block_lines b) = l :: rest ->
     (String.length (Str.strip l) <= 50 -> code_preview b = Str.strip l) /\
     (50 < String.length (Str.strip l) ->
      code_preview b = Str.take 47 (Str.strip l) +++ "...")).
Proof.
  assert (Hb : In (mkBlock 0 ACTIVITY 1 1 [line_of_48] line_of_48 [])
                  (create_logical_blocks [line_of_48]))
    by (vm_compute; left; reflexivity).
  split; [exact Hb|].
  exact (block_preview_of_first_meaningful_line [line_of_48] _ Hb).
Defined.

(** ** More on the dataflow tables *)

Lemma list_set_In (x : string) (l : list string) : In x (list_set l) <-> In x l.
Proof.
  induction l as [|y l IH]; simpl; [tauto|].
  rewrite filter_In, IH. split.
  - intros [H|[H _]]; auto.
  - intros [H|H]; [now left|].
    destruct (string_dec y x) as [E|E]; [now left|].
    right. split; [assumption|]. apply negb_true_iff. now apply String.eqb_neq.
Qed.

Lemma list_set_NoDup (l : list string) : NoDup (list_set l).
Proof.
  induction l as [|y l IH]; simpl; constructor.
  - rewrite filter_In. intros [_ H]. apply negb_true_iff in H.
    rewrite String.eqb_refl in H. discriminate.
  - now apply NoDup_filter.
Qed.

Lemma add_definition_defined vs x i det v L :
  defined_at (add_variable_definition vs x i det) v L <->
  defined_at vs v L \/ (v = x /\ L = i).
Proof.
  unfold defined_at, add_variable_definition, var_get.
  destruct (string_dec v x) as [->|Hne].
  - rewrite dict_get_set_same by apply str_eqb_eq. split.
    + intros (rec & d & [= <-] & Hin). simpl in Hin. apply in_app_or in Hin.
      destruct Hin as [Hin|[[= -> ->]|[]]]; [|now right].
      left. destruct (dict_get String.eqb vs x) as [r|]; [eauto|destruct Hin].
    + intros [(rec & d & Hg & Hin)|[_ ->]].
      * rewrite Hg. eexists _, d. split; [reflexivity|]. simpl. apply in_or_app. now left.
      * eexists _, det. split; [reflexivity|]. simpl. apply in_or_app. right. now left.
  - rewrite dict_get_set_other by auto using str_eqb_eq. split; [now left|].
    intros [H|[H _]]; [assumption|contradiction].
Qed.

Lemma add_definition_used vs x i det v L :
  used_at (add_variable_definition vs x i det) v L <-> used_at vs v L.
Proof.
  unfold used_at, add_variable_definition, var_get.
  destruct (string_dec v x) as [->|Hne].
  - rewrite dict_get_set_same by apply str_eqb_eq. split.
    + intros (rec & d & [= <-] & Hin). simpl in Hin.
      destruct (dict_get String.eqb vs x) as [r|]; [eauto|destruct Hin].
    + intros (rec & d & Hg & Hin). rewrite Hg. eexists _, d. split; [reflexivity|assumption].
  - now rewrite dict_get_set_other by auto using str_eqb_eq.
Qed.

Lemma add_use_used vs x i det v L :
  used_at (add_variable_use vs x i det) v L <-> used_at vs v L \/ (v = x /\ L = i).
Proof.
  unfold used_at, add_variable_use, var_get.
  destruct (string_dec v x) as [->|Hne].
  - rewrite dict_get_set_same by apply str_eqb_eq. split.
    + intros (rec & d & [= <-] & Hin). simpl in Hin. apply in_app_or in Hin.
      destruct Hin as [Hin|[[= -> ->]|[]]]; [|now right].
      left. destruct (dict_get String.eqb vs x) as [r|]; [eauto|destruct Hin].
    + intros [(rec & d & Hg & Hin)|[_ ->]].
      * rewrite Hg. eexists _, d. split; [reflexivity|]. simpl. apply in_or_app. now left.
      * eexists _, det. split; [reflexivity|]. simpl. apply in_or_app. right. now left.
  - rewrite dict_get_set_other by auto using str_eqb_eq. split; [now left|].
    intros [H|[H _]]; [assumption|contradiction].
Qed.

Lemma add_use_defined vs x i det v L :
  defined_at (add_variable_use vs x i det) v L <-> defined_at vs v L.
Proof.
  unfold defined_at, add_variable_use, var_get.
  destruct (string_dec v x) as [->|Hne].
  - rewrite dict_get_set_same by apply str_eqb_eq. split.
    + intros (rec & d & [= <-] & Hin). simpl in Hin.
      destruct (dict_get String.eqb vs x) as [r|]; [eauto|destruct Hin].
    + intros (rec & d & Hg & Hin). rewrite Hg. eexists _, d. split; [reflexivity|assumption].
  - now rewrite dict_get_set_other by auto using str_eqb_eq.
Qed.

Lemma classify_effect_refl i a : classify_effect i a a [].
Proof.
  split; [now rewrite app_nil_r|]. split; intros v L; [|tauto].
  split; [now left|]. intros [H|[_ []]]. assumption.
Qed.

Lemma classify_effect_trans i a1 a2 a3 n1 n2 :
  classify_effect i a1 a2 n1 -> classify_effect i a2 a3 n2 ->
  classify_effect i a1 a3 (n1 ++ n2).
Proof.
  intros (W1 & D1 & U1) (W2 & D2 & U2). split; [|split].
  - now rewrite W2, W1, app_assoc.
  - intros v L. rewrite D2, D1, in_app_iff. tauto.
  - intros v L. now rewrite U2, U1.
Qed.

(** A branch that defines [x] and appends it to the writes. *)
Lemma classify_effect_define i a reads' op x :
  classify_effect i a
    (mkLineAcc reads' (acc_writes a ++ [x]) op
       (add_variable_definition (acc_variables a) x i op)) [x].
Proof.
  split; [reflexivity|]. split; intros v L; simpl.
  - rewrite add_definition_defined. split.
    + intros [H|[-> ->]]; auto.
    + intros [H|[-> [->|[]]]]; auto.
  - apply add_definition_used.
Qed.

(** A branch that leaves the writes and the table alone. *)
Lemma classify_effect_same i a reads' op :
  classify_effect i a (mkLineAcc reads' (acc_writes a) op (acc_variables a)) [].
Proof.
  split; [simpl; now rewrite app_nil_r|]. split; intros v L; simpl; [|tauto].
  split; [now left|]. intros [H|[_ []]]. assumption.
Qed.

Lemma decl_list_fold_effect (i : nat) (is_pointer : bool) (names : list string) :
  forall a : LineAcc,
  exists new,
    classify_effect i a
      (fold_left
         (fun a var_name =>
            if negb (Str.mem var_name (acc_writes a)) then
              let writes := acc_writes a ++ [var_name] in
              let ptr_str := if is_pointer then " pointer" else "" in
              let operation := "Declaration of " +++ var_name +++ ptr_str in
              mkLineAcc (acc_reads a) writes operation
                (add_variable_definition (acc_variables a) var_name i operation)
            else a)
         names a) new.
Proof.
  induction names as [|x names IH]; intro a; simpl.
  - exists []. apply classify_effect_refl.
  - destruct (negb (Str.mem x (acc_writes a))).
    + match goal with |- context [fold_left _ names ?a1] => destruct (IH a1) as [n2 H2] end.
      exists ([x] ++ n2). eapply classify_effect_trans; [|exact H2].
      apply classify_effect_define.
    + apply IH.
Qed.

Lemma classify_has_effect i line a : exists new, classify_effect i a (classify i line a) new.
Proof.
  unfold classify.
  destruct (is_deref_assignment line).
  { unfold deref_assignment_branch.
    destruct (Re.search Pat.DEREF_ASSIGN line); [|exists []; apply classify_effect_refl].
    eexists. apply classify_effect_define. }
  destruct (is_decl_init line).
  { unfold decl_init_branch.
    destruct (Re.search Pat.DECL_INIT line); [|exists []; apply classify_effect_refl].
    eexists. apply classify_effect_define. }
  destruct (is_decl_list line).
  { unfold decl_list_branch.
    destruct (Re.search Pat.DECL_TYPE line); [|exists []; apply classify_effect_refl].
    apply decl_list_fold_effect. }
  destruct (is_assignment line).
  { unfold assignment_branch.
    destruct (Re.search Pat.ASSIGN line); [|exists []; apply classify_effect_refl].
    eexists. apply classify_effect_define. }
  destruct (is_control line).
  { unfold control_branch.
    destruct (Re.search Pat.CONTROL line); [|exists []; apply classify_effect_refl].
    eexists. apply classify_effect_same. }
  destruct (is_call line).
  { unfold call_branch.
    destruct (Re.search Pat.CALL_HEAD line) as [fm|]; [|exists []; apply classify_effect_refl].
    match goal with |- context [if ?c then _ else _] => destruct c end;
      [|eexists; apply classify_effect_same].
    match goal with |- context [Re.search Pat.ASSIGN_TARGET ?s] =>
      destruct (Re.search Pat.ASSIGN_TARGET s) end;
      [|eexists; apply classify_effect_same].
    match goal with |- context [if ?c then _ else _] => destruct c end;
      [|eexists; apply classify_effect_same].
    eexists. eapply classify_effect_trans; [apply classify_effect_same|].
    apply classify_effect_define. }
  destruct (is_return line).
  { eexists. unfold return_branch. apply classify_effect_same. }
  exists []. apply classify_effect_refl.
Qed.

Lemma add_uses_effect (i : nat) (det : string) (rs : list string) :
  forall vs : Variables,
  (forall v L,
      used_at (fold_left (fun vs var => add_variable_use vs var i det) rs vs) v L <->
      used_at vs v L \/ (L = i /\ In v rs)) /\
  (forall v L,
      defined_at (fold_left (fun vs var => add_variable_use vs var i det) rs vs) v L <->
      defined_at vs v L).
Proof.
  induction rs as [|x rs IH]; intro vs; simpl.
  - split; intros v L; [|tauto]. split; [now left|]. intros [H|[_ []]]. assumption.
  - destruct (IH (add_variable_use vs x i det)) as [HU HD]. split; intros v L.
    + rewrite HU, add_use_used. split.
      * intros [[H|[-> ->]]|[-> H]]; auto.
      * intros [H|[-> [->|H]]]; auto.
    + now rewrite HD, add_use_defined.
Qed.

Lemma la_get_fresh (la : LineAnalysis) (i : nat) :
  Forall (fun k => k < i) (dict_keys la) -> la_get la i = None.
Proof.
  intro H. apply dict_get_None; [apply nat_eqb_eq|]. intro Hin.
  rewrite Forall_forall in H. specialize (H i Hin). lia.
Qed.

Lemma tables_agree_line i line st :
  tables_agree i st -> tables_agree (S i) (analyze_line i line st).
Proof.
  intros (HD & HU & HK). destruct (analyzable line) eqn:Ea.
  - assert (Hla := analyze_line_store i line st Ea).
    assert (Hvars : variables (analyze_line i line st)
                    = fold_left
                        (fun vs var =>
                           add_variable_use vs var i
                             ("Used in: " +++ acc_operation
                                (classify i line (mkLineAcc [] [] "" (variables st)))))
                        (acc_reads (classify i line (mkLineAcc [] [] "" (variables st))))
                        (acc_variables (classify i line (mkLineAcc [] [] "" (variables st))))).
    { unfold analyzable in Ea. unfold analyze_line.
      destruct (is_skipped line); [discriminate|].
      destruct (is_function_definition line); [discriminate|reflexivity]. }
    set (a := classify i line (mkLineAcc [] [] "" (variables st))) in *.
    destruct (classify_has_effect i line (mkLineAcc [] [] "" (variables st)))
      as (new & W & D & U).
    fold a in W, D, U. simpl in W, D, U.
    destruct (add_uses_effect i ("Used in: " +++ acc_operation a) (acc_reads a)
                (acc_variables a)) as [AU AD].
    assert (Hfresh := la_get_fresh _ _ HK).
    assert (Hget : forall L, la_get (line_analysis (analyze_line i line st)) L
                             = if L =? i then Some (record_of a) else la_get (line_analysis st) L).
    { intro L. rewrite Hla. unfold la_get. destruct (L =? i) eqn:E.
      - apply Nat.eqb_eq in E. subst. apply dict_get_set_same, nat_eqb_eq.
      - apply Nat.eqb_neq in E. apply dict_get_set_other; [apply nat_eqb_eq|assumption]. }
    split; [|split].
    + intros v L. rewrite Hvars, AD, D. unfold written_at. rewrite Hget.
      destruct (L =? i) eqn:E.
      * apply Nat.eqb_eq in E. subst L. split.
        -- intros [H|[_ H]].
           ++ apply HD in H. destruct H as (r & Hr & _). congruence.
           ++ exists (record_of a). split; [reflexivity|]. simpl.
              rewrite list_set_In. now rewrite W.
        -- intros (r & [= <-] & H). simpl in H. rewrite list_set_In, W in H.
           right. split; [reflexivity|exact H].
      * apply Nat.eqb_neq in E. rewrite HD. unfold written_at. split; [|now left].
        intros [H|[H _]]; [assumption|contradiction].
    + intros v L. rewrite Hvars, AU, U. unfold read_at. rewrite Hget.
      destruct (L =? i) eqn:E.
      * apply Nat.eqb_eq in E. subst L. split.
        -- intros [H|[_ H]].
           ++ apply HU in H. destruct H as (r & Hr & _). congruence.
           ++ exists (record_of a). split; [reflexivity|]. simpl. now rewrite list_set_In.
        -- intros (r & [= <-] & H). simpl in H. rewrite list_set_In in H. auto.
      * apply Nat.eqb_neq in E. rewrite HU. unfold read_at. split; [|now left].
        intros [H|[H _]]; [assumption|contradiction].
    + rewrite Hla, dict_keys_set.
      destruct (dict_mem Nat.eqb (line_analysis st) i).
      * eapply Forall_impl; [|exact HK]. simpl. intros; lia.
      * apply Forall_app. split.
        -- eapply Forall_impl; [|exact HK]. simpl. intros; lia.
        -- constructor; [lia|constructor].
  - rewrite analyze_line_skip by assumption. split; [assumption|]. split; [assumption|].
    eapply Forall_impl; [|exact HK]. simpl. intros; lia.
Qed.

Lemma tables_agree_lines lines : forall i st,
  tables_agree i st -> tables_agree (i + length lines) (analyze_lines i lines st).
Proof.
  induction lines as [|line rest IH]; intros i st H; simpl.
  - now rewrite Nat.add_0_r.
  - replace (i + S (length rest)) with (S i + length rest) by lia.
    apply IH. now apply tables_agree_line.
Qed.

Lemma analyze_variables_tables_agree (lines : list string) :
  tables_agree (1 + length lines) (analyze_variables lines).
Proof.
  apply tables_agree_lines. split; [|split]; [| |constructor].
  - intros v L. split.
    + intros (rec & det & H & _). discriminate.
    + intros (r & H & _). discriminate.
  - intros v L. split.
    + intros (rec & det & H & _). discriminate.
    + intros (r & H & _). discriminate.
Qed.

(** X1: the variable table records a definition of [v] at line [L] exactly
    when the record of line [L] lists [v] among its writes. *)
Theorem definitions_match_line_writes (lines : list string) (v : string) (L : nat) :
  defined_at (variables (analyze_variables lines)) v L <->
  written_at (line_analysis (analyze_variables lines)) v L.
Proof. destruct (analyze_variables_tables_agree lines) as (H & _ & _). apply H. Qed.

(** X2: the variable table records a use of [v] at line [L] exactly when the
    record of line [L] lists [v] among its reads. *)
Theorem uses_match_line_reads (lines : list string) (v : string) (L : nat) :
  used_at (variables (analyze_variables lines)) v L <->
  read_at (line_analysis (analyze_variables lines)) v L.
Proof. destruct (analyze_variables_tables_agree lines) as (_ & H & _). apply H. Qed.

(** The reads and writes of every line record are sets: no name twice. *)
Lemma dict_set_Forall_snd {K V : Type} (keq : K -> K -> bool) (Q : V -> Prop)
  (d : list (K * V)) (k : K) (v : V) :
  Forall (fun e => Q (snd e)) d -> Q v ->
  Forall (fun e => Q (snd e)) (dict_set keq d k v).
Proof.
  intros Hd Hv. induction d as [|[k0 v0] d IH]; simpl.
  - constructor; [assumption|constructor].
  - inversion Hd as [|? ? H0 Hd']; subst. destruct (keq k k0).
    + constructor; assumption.
    + constructor; [assumption|now apply IH].
Qed.

Lemma analyze_lines_records_are_sets lines : forall i st,
  Forall (fun e => NoDup (reads (snd e)) /\ NoDup (writes (snd e))) (line_analysis st) ->
  Forall (fun e => NoDup (reads (snd e)) /\ NoDup (writes (snd e)))
    (line_analysis (analyze_lines i lines st)).
Proof.
  induction lines as [|line rest IH]; intros i st H; simpl; [assumption|].
  apply IH. destruct (analyzable line) eqn:Ea.
  - rewrite analyze_line_store by assumption.
    apply (dict_set_Forall_snd Nat.eqb (fun r => NoDup (reads r) /\ NoDup (writes r)));
      [assumption|].
    split; apply list_set_NoDup.
  - now rewrite analyze_line_skip.
Qed.

(** X3: in every line record the reads hold no name twice, and neither do
    the writes. *)
Theorem line_record_reads_writes_are_sets (lines : list string) (L : nat) (r : LineRecord) :
  la_get (line_analysis (analyze_variables lines)) L = Some r ->
  NoDup (reads r) /\ NoDup (writes r).
Proof.
  intro H. apply dict_get_In in H; [|apply nat_eqb_eq].
  pose proof (analyze_lines_records_are_sets lines 1 (mkAnalyzer [] []) (Forall_nil _)) as Hall.
  rewrite Forall_forall in Hall. exact (Hall (L, r) H).
Qed.

(** The keys of the line-analysis table. *)
Lemma analyzable_from_sorted lines : forall i, StronglySorted lt (analyzable_from i lines).
Proof.
  induction lines as [|line rest IH]; intro i; simpl; [constructor|].
  destruct (analyzable line); simpl; [|apply IH].
  constructor; [apply IH|]. apply Forall_forall. intros k Hk.
  apply analyzable_from_bounds in Hk. lia.
Qed.

Lemma sorted_of_ascending (l : list nat) : StronglySorted lt l -> sorted l = l.
Proof.
  induction 1 as [|x l Hs IH Hall]; simpl; [reflexivity|].
  rewrite IH. destruct l as [|y l]; [reflexivity|]. simpl.
  inversion Hall as [|? ? Hxy _]; subst.
  assert (E : (x <=? y) = true) by (apply Nat.leb_le; lia). now rewrite E.
Qed.

Lemma analyze_variables_keys (lines : list string) :
  dict_keys (line_analysis (analyze_variables lines)) = analyzable_from 1 lines.
Proof.
  unfold analyze_variables.
  now rewrite (analyze_lines_keys lines 1 (mkAnalyzer [] []) (Forall_nil _)).
Qed.

(** X4: the line-analysis table lists its lines in strictly ascending order,
    every line number lies between 1 and the number of lines, and sorting
    the keys changes nothing. *)
Theorem line_analysis_keys_ascending (lines : list string) :
  let ks := dict_keys (line_analysis (analyze_variables lines)) in
  StronglySorted lt ks /\
  Forall (fun k => 1 <= k <= length lines) ks /\
  sorted ks = ks.
Proof.
  cbv zeta. rewrite analyze_variables_keys.
  assert (Hs := analyzable_from_sorted lines 1).
  split; [assumption|]. split; [|now apply sorted_of_ascending].
  apply Forall_forall. intros k Hk. apply analyzable_from_bounds in Hk. lia.
Qed.

(** *** Text after a line comment *)

Lemma prefix_nil (s : string) : String.prefix "" s = true.
Proof. now destruct s. Qed.

Lemma prefix_cons (a b : ascii) (s1 s2 : string) :
  String.prefix (String a s1) (String b s2)
  = if ascii_dec a b then String.prefix s1 s2 else false.
Proof. reflexivity. Qed.

Lemma prefix_slashes_same (e c1 c2 : string) :
  String.prefix "//" (e +++ "//" +++ c1) = String.prefix "//" (e +++ "//" +++ c2).
Proof.
  destruct e as [|a [|b e]]; cbn [String.append]; rewrite !prefix_cons, ?prefix_nil;
    reflexivity.
Qed.

Lemma find_cons (sub : string) (a : ascii) (s : string) :
  Str.find sub (String a s)
  = if String.prefix sub (String a s) then Some 0
    else match Str.find sub s with
         | Some n => Some (S n)
         | None => None
         end.
Proof. reflexivity. Qed.

Lemma find_comment_same (e c1 c2 : string) :
  exists n,
    Str.find "//" (e +++ "//" +++ c1) = Some n /\
    Str.find "//" (e +++ "//" +++ c2) = Some n /\
    Str.take n (e +++ "//" +++ c1) = Str.take n (e +++ "//" +++ c2).
Proof.
  induction e as [|a e IH].
  - exists 0. cbn [String.append]. rewrite !find_cons, !prefix_cons, !prefix_nil.
    destruct (ascii_dec "/" "/"); [|contradiction]. repeat split.
  - pose proof (prefix_slashes_same (String a e) c1 c2) as Hp.
    destruct IH as (n & H1 & H2 & H3).
    cbn [String.append] in Hp, H1, H2, H3 |- *. rewrite !find_cons, <- Hp.
    match goal with |- context [if ?p then _ else _] => destruct p end.
    + exists 0. repeat split.
    + exists (S n). rewrite H1, H2.
      split; [reflexivity|]. split; [reflexivity|].
      unfold Str.take in *. simpl. now rewrite H3.
Qed.

(** X5: the text that follows the first [//] of an expression has no effect
    on the variables extracted from it. *)
Theorem extract_ignores_comment_text (e c1 c2 : string) :
  extract_variables_from_expression (e +++ "//" +++ c1)
  = extract_variables_from_expression (e +++ "//" +++ c2).
Proof.
  destruct (find_comment_same e c1 c2) as (n & H1 & H2 & H3).
  unfold extract_variables_from_expression. rewrite H1, H2, H3.
  assert (E1 : ((e +++ "//" +++ c1) =? "")%string = false)
    by (apply String.eqb_neq; destruct e; discriminate).
  assert (E2 : ((e +++ "//" +++ c2) =? "")%string = false)
    by (apply String.eqb_neq; destruct e; discriminate).
  now rewrite E1, E2.
Qed.

(** *** The reaching-definitions map, line by line *)

Lemma reaching_fold_keys vs la ks : forall rd,
  NoDup ks -> (forall k, In k ks -> la_get la k <> None) ->
  (forall k, In k ks -> ~ In k (dict_keys rd)) ->
  dict_keys
    (fold_left
       (fun rd line_num =>
          match la_get la line_num with
          | Some analysis =>
              dict_set Nat.eqb rd line_num (reaching_of_line vs line_num analysis)
          | None => rd
          end) ks rd)
  = dict_keys rd ++ ks.
Proof.
  induction ks as [|k ks IH]; intros rd Hnd Hsome Hfresh; simpl.
  - now rewrite app_nil_r.
  - inversion Hnd as [|? ? Hk Hnd']; subst.
    destruct (la_get la k) as [r|] eqn:E;
      [|exfalso; apply (Hsome k); [now left|assumption]].
    rewrite IH; [|assumption|intros; apply Hsome; now right|].
    + rewrite dict_keys_set.
      assert (Hm : dict_mem Nat.eqb rd k = false).
      { unfold dict_mem. destruct (dict_get Nat.eqb rd k) eqn:G; [|reflexivity].
        apply dict_get_key in G; [|apply nat_eqb_eq].
        exfalso. apply (Hfresh k); [now left|assumption]. }
      rewrite Hm. now rewrite <- app_assoc.
    + intros k' Hk' Hin. rewrite dict_keys_set in Hin.
      destruct (dict_mem Nat.eqb rd k).
      * apply (Hfresh k'); [now right|assumption].
      * apply in_app_or in Hin. destruct Hin as [Hin|[->|[]]]; [|contradiction].
        apply (Hfresh k'); [now right|assumption].
Qed.

Lemma reaching_of_read_length vs L x : length (reaching_of_read vs L x) <= 1.
Proof.
  unfold reaching_of_read. destruct (var_get vs x) as [rec|]; [|simpl; lia].
  destruct (latest_definition (definitions rec) L) as [[|n]|]; simpl; lia.
Qed.

Lemma reaching_of_line_length vs L r : length (reaching_of_line vs L r) <= length (reads r).
Proof.
  unfold reaching_of_line. induction (reads r) as [|x xs IH]; simpl; [lia|].
  rewrite length_app. pose proof (reaching_of_read_length vs L x). lia.
Qed.

Lemma StronglySorted_lt_NoDup (l : list nat) : StronglySorted lt l -> NoDup l.
Proof.
  induction 1 as [|x l Hs IH Hall]; constructor; [|assumption].
  intro Hin. rewrite Forall_forall in Hall. specialize (Hall x Hin). lia.
Qed.

(** X6: the reaching-definitions map has one entry per line record, in the
    order of the line-analysis table, and the entry of a line holds at most
    one text per variable read on that line. *)
Theorem reaching_definitions_follow_line_table (lines : list string) :
  let df := analyze lines in
  dict_keys (df_reaching_definitions df) = dict_keys (df_line_analysis df) /\
  forall L r, la_get (df_line_analysis df) L = Some r ->
    exists entries,
      dict_get Nat.eqb (df_reaching_definitions df) L = Some entries /\
      length entries <= length (reads r).
Proof.
  cbv zeta. unfold analyze. cbn [df_reaching_definitions df_line_analysis]. split.
  - unfold compute_reaching_definitions.
    rewrite reaching_fold_keys; [reflexivity| | |auto].
    + rewrite analyze_variables_keys.
      apply StronglySorted_lt_NoDup, analyzable_from_sorted.
    + intros k Hk E. apply (dict_get_None Nat.eqb nat_eqb_eq) in E. contradiction.
  - intros L r Hr. exists (reaching_of_line (variables (analyze_variables lines)) L r).
    split; [now apply reaching_entry_of_line|apply reaching_of_line_length].
Qed.

(** ** More on the operation sequence *)

Lemma StronglySorted_app {A : Type} (R : A -> A -> Prop) (l1 l2 : list A) :
  StronglySorted R l1 -> StronglySorted R l2 ->
  (forall x y, In x l1 -> In y l2 -> R x y) ->
  StronglySorted R (l1 ++ l2).
Proof.
  induction 1 as [|x l1 Hs IH Hall]; intros H2 Hcross; simpl; [assumption|].
  constructor.
  - apply IH; [assumption|]. intros; apply Hcross; [now right|assumption].
  - apply Forall_app. split; [assumption|].
    apply Forall_forall. intros y Hy. apply Hcross; [now left|assumption].
Qed.

Lemma constant_sorted (k : nat) (l : list nat) :
  Forall (fun x => x = k) l -> StronglySorted le l.
Proof.
  induction 1 as [|x l Hx Hall IH]; constructor; [assumption|].
  subst x. eapply Forall_impl; [|exact Hall]. simpl. intros; lia.
Qed.

Lemma run_builder_sorted la lines keys : forall b,
  StronglySorted le keys ->
  exists l, events (run_builder la lines keys b) = events b ++ l /\
    StronglySorted le (map event_line l) /\
    Forall (fun e => In (event_line e) keys) l.
Proof.
  induction keys as [|k keys IH]; intros b Hs.
  - exists []. split; [unfold run_builder; simpl; now rewrite app_nil_r|].
    split; constructor.
  - inversion Hs as [|? ? Hs' Hall]; subst.
    set (b1 := match la_get la k with
               | Some analysis => process_line lines b k analysis
               | None => b
               end).
    assert (H1 : exists l, emits k b b1 l).
    { subst b1. destruct (la_get la k); [apply process_line_emits|].
      exists []. apply emits_refl. }
    destruct H1 as (l1 & H1).
    assert (L1 : of_line k l1) by apply H1.
    apply emits_events in H1.
    destruct (IH b1 Hs') as (l2 & E2 & S2 & F2).
    exists (map event l1 ++ l2).
    assert (Hl1 : Forall (fun x => x = k) (map event_line (map event l1))).
    { rewrite map_map. apply Forall_map. exact L1. }
    split; [|split].
    + change (run_builder la lines (k :: keys) b) with (run_builder la lines keys b1).
      now rewrite E2, H1, app_assoc.
    + rewrite map_app. apply StronglySorted_app; [now apply (constant_sorted k)|assumption|].
      intros x y Hx Hy. rewrite Forall_forall in Hl1. rewrite (Hl1 x Hx).
      apply in_map_iff in Hy. destruct Hy as (e & <- & He).
      rewrite Forall_forall in F2, Hall. apply Hall. now apply F2.
    + apply Forall_app. split.
      * apply Forall_forall. intros e He. left.
        rewrite Forall_forall in Hl1. symmetry. apply Hl1.
        now apply in_map.
      * eapply Forall_impl; [|exact F2]. simpl. intros e He. now right.
Qed.

Lemma event_line_number (ops : list Operation) :
  map event_line (map event ops) = map line_number ops.
Proof. rewrite map_map. reflexivity. Qed.

(** X7: the operations come in non-decreasing order of line number. *)
Theorem operations_ordered_by_line (la : LineAnalysis) (lines : list string) :
  StronglySorted le (map line_number (build_operation_sequence la lines)).
Proof.
  rewrite <- event_line_number. unfold build_operation_sequence.
  rewrite terminate_event.
  destruct (run_builder_sorted la lines (sorted (dict_keys la)) (mkBuilder [] 0 [])
              (sorted_sorted _)) as (l & E & S & _).
  unfold events in E. simpl in E. rewrite E. exact S.
Qed.

(** *** Every event is justified by the tables *)

Lemma recorded_ok_weaken la b k k' : k <= k' -> recorded_ok la k b -> recorded_ok la k' b.
Proof.
  intros Hle H w prev Hr. destruct (H w prev Hr) as [H1 H2]. split; [lia|assumption].
Qed.

Lemma emit_write_sound la lines k r b var :
  la_get la k = Some r -> In var (writes r) -> recorded_ok la k b ->
  exists l, events (emit_write k r b var) = events b ++ l /\
    Forall (sound_event la lines) l /\ recorded_ok la k (emit_write k r b var).
Proof.
  intros Hr Hin Hok.
  assert (Hw : sound_event la lines (var, WRITE, k, operation r)).
  { exists r. auto. }
  assert (Hrec : recorded_ok la k (emit_write k r b var)).
  { intros w prev H. destruct (string_dec w var) as [->|Hne].
    - rewrite emit_write_recorded_same in H. injection H as <-. split; [lia|eauto].
    - rewrite emit_write_recorded_other in H by assumption. now apply Hok. }
  unfold emit_write in *. fold (recorded b var) in *.
  destruct (recorded b var) as [prev|] eqn:E.
  - destruct (Hok var prev E) as (Hle & r' & Hr' & Hin').
    eexists. split; [|split; [|exact Hrec]].
    + unfold events. simpl. rewrite !map_app. simpl. rewrite <- app_assoc. reflexivity.
    + constructor; [|constructor; [exact Hw|constructor]].
      exists r. split; [assumption|]. right. split; [assumption|].
      exists prev, r'. auto.
  - eexists. split; [|split; [|exact Hrec]].
    + unfold events. simpl. rewrite map_app. reflexivity.
    + constructor; [exact Hw|constructor].
Qed.

Lemma emit_writes_sound la lines k r ws : forall b,
  la_get la k = Some r -> (forall w, In w ws -> In w (writes r)) -> recorded_ok la k b ->
  exists l, events (fold_left (emit_write k r) ws b) = events b ++ l /\
    Forall (sound_event la lines) l /\
    recorded_ok la k (fold_left (emit_write k r) ws b).
Proof.
  induction ws as [|w ws IH]; intros b Hr Hsub Hok; simpl.
  - exists []. split; [now rewrite app_nil_r|]. split; [constructor|assumption].
  - destruct (emit_write_sound la lines k r b w Hr (Hsub w (or_introl eq_refl)) Hok)
      as (l1 & E1 & S1 & R1).
    destruct (IH (emit_write k r b w) Hr (fun x Hx => Hsub x (or_intror Hx)) R1)
      as (l2 & E2 & S2 & R2).
    exists (l1 ++ l2). split; [now rewrite E2, E1, app_assoc|].
    split; [apply Forall_app; split; assumption|assumption].
Qed.

Lemma emit_reads_sound la lines k r rs : forall b,
  la_get la k = Some r -> (forall v, In v rs -> In v (reads r)) ->
  exists l, events (fold_left (emit_read k r) rs b) = events b ++ l /\
    Forall (sound_event la lines) l.
Proof.
  induction rs as [|v rs IH]; intros b Hr Hsub; simpl.
  - exists []. split; [now rewrite app_nil_r|constructor].
  - destruct (IH (emit_read k r b v) Hr (fun x Hx => Hsub x (or_intror Hx)))
      as (l2 & E2 & S2).
    exists ((v, READ, k, operation r) :: l2). split.
    + rewrite E2. unfold emit_read. rewrite emit_events. now rewrite <- app_assoc.
    + constructor; [|assumption]. exists r. split; [assumption|].
      split; [apply Hsub; now left|reflexivity].
Qed.

Lemma process_line_sound la lines k r b :
  la_get la k = Some r -> recorded_ok la k b ->
  exists l, events (process_line lines b k r) = events b ++ l /\
    Forall (sound_event la lines) l /\ recorded_ok la k (process_line lines b k r).
Proof.
  intros Hr Hok. unfold process_line.
  destruct (emit_writes_sound la lines k r (writes r) b Hr (fun w H => H) Hok)
    as (l1 & E1 & S1 & R1).
  set (b1 := fold_left (emit_write k r) (writes r) b) in *.
  destruct (emit_reads_sound la lines k r (reads r) b1 Hr (fun v H => H))
    as (l2 & E2 & S2).
  set (b2 := fold_left (emit_read k r) (reads r) b1) in *.
  assert (R2 : recorded_ok la k b2).
  { intros w prev H. subst b2. rewrite emit_reads_recorded in H. now apply R1. }
  unfold emit_free. destruct (freed_variable lines k) as [p|] eqn:Ef.
  - exists (l1 ++ l2 ++ [(p, KILL, k, freed_details p)]). split; [|split].
    + rewrite emit_events, E2, E1. now rewrite <- !app_assoc.
    + apply Forall_app. split; [assumption|]. apply Forall_app. split; [assumption|].
      constructor; [|constructor]. exists r. split; [assumption|]. left. auto.
    + intros w prev H. rewrite emit_recorded in H. now apply R2.
  - exists (l1 ++ l2). split; [|split].
    + rewrite E2, E1. now rewrite <- !app_assoc.
    + apply Forall_app. split; assumption.
    + assumption.
Qed.

Lemma run_builder_sound la lines keys : forall b bound,
  StronglySorted le keys -> Forall (fun k => bound <= k) keys ->
  recorded_ok la bound b ->
  exists l, events (run_builder la lines keys b) = events b ++ l /\
    Forall (sound_event la lines) l.
Proof.
  induction keys as [|k keys IH]; intros b bound Hs Hb Hok.
  - exists []. split; [unfold run_builder; simpl; now rewrite app_nil_r|constructor].
  - inversion Hs as [|? ? Hs' Hall]; subst. inversion Hb as [|? ? Hk Hb']; subst.
    assert (Hok' : recorded_ok la k b) by (eapply recorded_ok_weaken; eauto).
    destruct (la_get la k) as [r|] eqn:Er.
    + rewrite (run_builder_cons la lines k keys b r Er).
      destruct (process_line_sound la lines k r b Er Hok') as (l1 & E1 & S1 & R1).
      destruct (IH (process_line lines b k r) k Hs' Hall R1) as (l2 & E2 & S2).
      exists (l1 ++ l2). split; [now rewrite E2, E1, app_assoc|].
      apply Forall_app. split; assumption.
    + assert (E : run_builder la lines (k :: keys) b = run_builder la lines keys b).
      { unfold run_builder. simpl. now rewrite Er. }
      rewrite E. apply (IH b k Hs' Hall Hok').
Qed.

Lemma build_events_sound (la : LineAnalysis) (lines : list string) :
  Forall (sound_event la lines) (map event (build_operation_sequence la lines)).
Proof.
  unfold build_operation_sequence. rewrite terminate_event.
  destruct (run_builder_sound la lines (sorted (dict_keys la)) (mkBuilder [] 0 []) 0
              (sorted_sorted _)) as (l & E & S).
  - apply Forall_forall. intros; lia.
  - intros w prev H. discriminate.
  - unfold events in E. simpl in E. now rewrite E.
Qed.

(** *** Every read and write of the table has its event *)

Lemma emit_reads_read n r rs : forall b v,
  In v rs ->
  exists l1 l2, events (fold_left (emit_read n r) rs b) =
    events b ++ l1 ++ [(v, READ, n, operation r)] ++ l2.
Proof.
  induction rs as [|x rs IH]; intros b v Hin; simpl; [destruct Hin|].
  destruct Hin as [->|Hin].
  - destruct (emit_reads_emits n r rs (emit_read n r b v)) as [l2 H2].
    apply emits_events in H2. exists [], (map event l2).
    rewrite H2. unfold emit_read. rewrite emit_events. now rewrite <- app_assoc.
  - destruct (IH (emit_read n r b x) v Hin) as (l1 & l2 & E).
    exists ((x, READ, n, operation r) :: l1), l2.
    rewrite E. unfold emit_read. rewrite emit_events. now rewrite <- app_assoc.
Qed.

Lemma process_line_read lines b n r v :
  In v (reads r) ->
  exists l1 l2, events (process_line lines b n r) =
    events b ++ l1 ++ [(v, READ, n, operation r)] ++ l2.
Proof.
  intro Hin. unfold process_line.
  set (b1 := fold_left (emit_write n r) (writes r) b).
  destruct (emit_writes_emits n r (writes r) b) as [l0 H0]. fold b1 in H0.
  destruct (emit_reads_read n r (reads r) b1 v Hin) as (l1 & l2 & E).
  set (b2 := fold_left (emit_read n r) (reads r) b1) in *.
  destruct (emit_free_emits lines n b2) as [l4 H4].
  apply emits_events in H0, H4. rewrite H4, E, H0.
  exists (map event l0 ++ l1), (l2 ++ map event l4). now rewrite <- !app_assoc.
Qed.

(** An event of the line [L], once emitted, is in the final sequence. *)
Lemma build_events_of_line la lines L r e :
  la_get la L = Some r ->
  (forall b, exists l1 l2, events (process_line lines b L r) = events b ++ l1 ++ [e] ++ l2) ->
  In e (map event (build_operation_sequence la lines)).
Proof.
  intros Hr He. unfold build_operation_sequence. rewrite terminate_event.
  set (ks := sorted (dict_keys la)).
  assert (Hin : In L ks).
  { apply sorted_In. eapply dict_get_key; [apply nat_eqb_eq|exact Hr]. }
  apply in_split in Hin. destruct Hin as (ks1 & ks2 & Eks).
  fold (events (run_builder la lines ks (mkBuilder [] 0 []))).
  rewrite Eks, run_builder_app.
  set (b1 := run_builder la lines ks1 (mkBuilder [] 0 [])).
  rewrite (run_builder_cons la lines L _ b1 r Hr).
  destruct (run_builder_events la lines ks2 (process_line lines b1 L r)) as (l & E & _).
  destruct (He b1) as (l1 & l2 & E1).
  rewrite E, E1. rewrite !in_app_iff. simpl. tauto.
Qed.

(** X8: the sequence holds a READ of [v] with line number [L] and details
    [d] exactly when the record of line [L] reads [v] and [d] is the
    operation label of that record. *)
Theorem read_operations_match_line_reads
  (la : LineAnalysis) (lines : list string) (v : string) (L : nat) (d : string) :
  In (v, READ, L, d) (map event (build_operation_sequence la lines)) <->
  exists r, la_get la L = Some r /\ In v (reads r) /\ d = operation r.
Proof.
  split.
  - intro H. pose proof (build_events_sound la lines) as Hs.
    rewrite Forall_forall in Hs. apply Hs in H. exact H.
  - intros (r & Hr & Hv & ->). apply (build_events_of_line la lines L r); [assumption|].
    intro b. now apply process_line_read.
Qed.

(** X9: the sequence holds a WRITE of [v] with line number [L] and details
    [d] exactly when the record of line [L] writes [v] and [d] is the
    operation label of that record. *)
Theorem write_operations_match_line_writes
  (la : LineAnalysis) (lines : list string) (v : string) (L : nat) (d : string) :
  In (v, WRITE, L, d) (map event (build_operation_sequence la lines)) <->
  exists r, la_get la L = Some r /\ In v (writes r) /\ d = operation r.
Proof.
  split.
  - intro H. pose proof (build_events_sound la lines) as Hs.
    rewrite Forall_forall in Hs. apply Hs in H. exact H.
  - intros (r & Hr & Hv & ->). apply (build_events_of_line la lines L r); [assumption|].
    intro b. now apply process_line_write.
Qed.

(** X10: every KILL of the sequence with a line number [L] from 1 on
    belongs to a line that has a record, and is justified in one of two
    ways.  Either it is the explicit deallocation of line [L]: the line
    exists, holds the text free and an opening parenthesis, its first match
    of the deallocation pattern names [v], and the details are the text
    "Memory freed for variable 'v'".  Or it is a redefinition: line [L]
    writes [v], and the details are the text
    "Variable 'v' redefined, killing previous definition from line N" for a
    line [N] not after [L] whose record writes [v]; this text names no
    other line. *)
Theorem kill_operations_are_justified
  (la : LineAnalysis) (lines : list string) (v : string) (L : nat) (d : string) :
  1 <= L ->
  In (v, KILL, L, d) (map event (build_operation_sequence la lines)) ->
  let line := nth (L - 1) lines "" in
  let text := fun N : nat =>
    "Variable '" +++ v +++ "' redefined, killing previous definition from line "
    +++ Str.of_nat N in
  exists r, la_get la L = Some r /\
    ((L <= length lines /\ Str.contains "free(" line = true /\
      (exists m, Re.search Pat.FREE line = Some m /\ v = Re.group line m 1) /\
      d = "Memory freed for variable '" +++ v +++ "'") \/
     (In v (writes r) /\
      exists N r', N <= L /\ la_get la N = Some r' /\ In v (writes r') /\
                   d = text N /\ forall N', d = text N' -> N' = N)).
Proof.
  intros HL H line text. pose proof (build_events_sound la lines) as Hs.
  rewrite Forall_forall in Hs. apply Hs in H.
  destruct H as (r & Hr & [[Hf Hd]|(Hw & N & r' & HN & Hr' & Hw' & Hd)]).
  - exists r. split; [assumption|]. left.
    unfold freed_variable in Hf. rewrite line_of_key_pos in Hf by assumption.
    fold line in Hf.
    destruct (L <=? length lines) eqn:Hle; [|discriminate].
    destruct (Str.contains "free(" line) eqn:Hc; [|discriminate].
    simpl in Hf. destruct (Re.search Pat.FREE line) as [m|] eqn:Hm; [|discriminate].
    injection Hf as Hf. apply Nat.leb_le in Hle.
    split; [assumption|]. split; [reflexivity|]. split; [|exact Hd].
    exists m. split; [reflexivity|]. now symmetry.
  - exists r. split; [assumption|]. right. split; [assumption|].
    exists N, r'. split; [assumption|]. split; [assumption|]. split; [assumption|].
    split; [exact Hd|].
    intros N' E. apply (redefinition_details_inj v). now rewrite <- Hd.
Qed.

(** ** More on the block partitioner *)

Lemma emits_one_block lines st c s e ls t :
  cursor st < c <= length lines -> s = cursor st + 1 -> s <= e <= c ->
  emits_one lines st (emit_block st c s e ls t) t.
Proof.
  intros Hc Hs He. split; [exact Hc|]. right. eexists. split; [apply emit_block_blocks|].
  simpl. repeat split; auto; lia.
Qed.

Lemma emits_one_skip lines st c t :
  cursor st < c <= length lines ->
  emits_one lines st (mkCarve c (block_counter st) (blocks st)) t.
Proof. intro Hc. split; [exact Hc|]. left. auto. Qed.

Lemma return_lookahead_bounds rest : forall j0 j,
  return_lookahead rest j0 = Some j -> j0 <= j < j0 + length rest.
Proof.
  induction rest as [|l rest IH]; intros j0 j H; simpl in H; [discriminate|].
  destruct (Str.strip l =? "}")%string.
  - destruct (length (filter (Str.contains "}") rest) =? 0); [|discriminate].
    injection H as <-. simpl. lia.
  - destruct (negb (Str.strip l =? "")%string && negb (Str.startswith "//" (Str.strip l)));
      [discriminate|].
    apply IH in H. simpl. lia.
Qed.

Lemma collect_braces_length rest : forall c, length (collect_braces rest c) <= length rest.
Proof.
  induction rest as [|l rest IH]; intro c; simpl; [lia|].
  destruct (0 <? c)%Z; simpl; [|lia]. specialize (IH (c + Z.of_nat (Str.count_char "{" l)
    - Z.of_nat (Str.count_char "}" l))%Z). lia.
Qed.

Lemma collect_body_length rest :
  length (fst (collect_body rest)) <= snd (collect_body rest) /\
  snd (collect_body rest) <= length rest.
Proof.
  induction rest as [|l rest IH]; simpl; [lia|].
  destruct (Re.matches Pat.KEYWORD (Str.strip l) || Str.contains "}" (Str.strip l));
    simpl; [lia|].
  destruct (collect_body rest) as [kept passed]. simpl in *.
  destruct (negb (Str.strip l =? "")%string || Str.startswith "//" (Str.strip l));
    simpl; lia.
Qed.

Lemma collect_run_length rest : length (collect_run rest) <= length rest.
Proof.
  induction rest as [|l rest IH]; simpl; [lia|].
  match goal with |- context [if ?c then _ else _] => destruct c end; simpl; lia.
Qed.

Lemma skipn_length_after (lines : list string) (i : nat) :
  i < length lines -> length (skipn (i + 1) lines) = length lines - (i + 1).
Proof. intro H. apply length_skipn. Qed.

Lemma return_rule_one lines st :
  cursor st < length lines -> emits_one lines st (return_rule lines st) END.
Proof.
  intro Hlt. unfold return_rule.
  destruct (return_lookahead (skipn (cursor st + 1) lines) (cursor st + 1)) as [j|] eqn:E.
  - apply return_lookahead_bounds in E. rewrite skipn_length_after in E by assumption.
    apply emits_one_block; lia.
  - apply emits_one_block; lia.
Qed.

Lemma else_rule_one lines st :
  cursor st < length lines -> emits_one lines st (else_rule lines st) ACTIVITY.
Proof.
  intro Hlt. unfold else_rule. destruct (Str.contains "{" (nth (cursor st) lines "")).
  - pose proof (collect_braces_length (skipn (cursor st + 1) lines) 1) as Hb.
    rewrite skipn_length_after in Hb by assumption.
    match goal with |- context [2 <? ?n] => destruct (2 <? n) end.
    + apply emits_one_block; simpl; lia.
    + apply emits_one_skip. simpl. lia.
  - destruct (cursor st + 1 <? length lines) eqn:E.
    + apply Nat.ltb_lt in E. apply emits_one_block; simpl; lia.
    + apply emits_one_block; simpl; lia.
Qed.

Lemma brace_rule_one lines st :
  cursor st < length lines -> emits_one lines st (brace_rule lines st) ACTIVITY.
Proof.
  intro Hlt. unfold brace_rule.
  pose proof (collect_body_length (skipn (cursor st + 1) lines)) as [H1 H2].
  rewrite skipn_length_after in H2 by assumption.
  destruct (collect_body (skipn (cursor st + 1) lines)) as [kept passed]. simpl in H1, H2.
  destruct (negb (length kept =? 0) && negb (length (filter meaningful kept) =? 0)) eqn:E.
  - apply andb_true_iff in E as [E _]. apply negb_true_iff, Nat.eqb_neq in E.
    apply emits_one_block; lia.
  - apply emits_one_skip. lia.
Qed.

Lemma regular_rule_one lines st :
  cursor st < length lines -> emits_one lines st (regular_rule lines st) ACTIVITY.
Proof.
  intro Hlt. unfold regular_rule.
  pose proof (collect_run_length (skipn (cursor st + 1) lines)) as Hr.
  rewrite skipn_length_after in Hr by assumption.
  match goal with |- context [if ?c then _ else _] => destruct c end.
  - apply emits_one_block; simpl; lia.
  - apply emits_one_skip. simpl. lia.
Qed.

(** One iteration, with the type of the block it may append and the shape
    of the line under the cursor. *)
Lemma carve_step_one lines st :
  cursor st < length lines ->
  exists t, emits_one lines st (carve_step lines st) t /\
    (blocks (carve_step lines st) <> blocks st ->
     line_fits (nth (cursor st) lines "") t).
Proof.
  intro Hlt. unfold carve_step. set (line := nth (cursor st) lines "").
  destruct ((Str.strip line =? "")%string || Str.startswith "#" (Str.strip line)) eqn:E0.
  { exists ACTIVITY. split; [apply emits_one_skip; lia|]. simpl. congruence. }
  apply orb_false_iff in E0 as [Eb Ep].
  destruct (Re.matches Pat.MAIN_SIG line) eqn:E1.
  { exists START. split; [apply emits_one_block; lia|]. intros _. repeat split; auto. }
  destruct (Re.matches Pat.LOOP_HEAD line) eqn:E2.
  { exists LOOP. split; [apply emits_one_block; lia|]. intros _. repeat split; auto. }
  destruct (Re.matches Pat.IF_HEAD line) eqn:E3.
  { exists XOR. split; [apply emits_one_block; lia|]. intros _. repeat split; auto. }
  destruct (Str.contains "return" line) eqn:E4.
  { exists END. split; [now apply return_rule_one|]. intros _. repeat split; auto. }
  exists ACTIVITY.
  assert (Hfit : line_fits line ACTIVITY) by (repeat split; auto).
  destruct (Re.matches Pat.ELSE line); [split; [now apply else_rule_one|auto]|].
  destruct (brace_rule_applies lines (cursor st)); [split; [now apply brace_rule_one|auto]|].
  match goal with |- context [if ?c then _ else _] => destruct c end.
  - split; [now apply regular_rule_one|auto].
  - split; [apply emits_one_skip; lia|auto].
Qed.

Lemma carve_inv_step lines st :
  cursor st < length lines -> carve_inv lines st -> carve_inv lines (carve_step lines st).
Proof.
  intros Hlt (Hc & Hn & Hids & Hlen & Hall & Hs).
  destruct (carve_step_one lines st Hlt) as (t & [Hcur Hblk] & Hfit).
  destruct Hblk as [[Eb En]|(b & Eb & En & Hid & Ht & Hstart & Hend)].
  - rewrite Eb in *. unfold carve_inv. rewrite Eb, En.
    split; [lia|]. split; [assumption|]. split; [assumption|]. split; [lia|].
    split; [|assumption].
    eapply Forall_impl; [|exact Hall]. simpl. intros x (H1 & H2 & H3).
    split; [assumption|]. split; [lia|assumption].
  - assert (Hne : blocks (carve_step lines st) <> blocks st).
    { rewrite Eb. intro H. apply (f_equal (@length Block)) in H.
      rewrite length_app in H. simpl in H. lia. }
    specialize (Hfit Hne).
    unfold carve_inv. rewrite Eb, En, length_app. simpl.
    split; [lia|]. split; [lia|]. split; [|split; [lia|split]].
    + rewrite map_app, seq_app, Hids. simpl. now rewrite Hid, Hn.
    + apply Forall_app. split.
      * eapply Forall_impl; [|exact Hall]. simpl. intros x (H1 & H2 & H3).
        split; [assumption|]. split; [lia|assumption].
      * constructor; [|constructor]. split; [lia|]. split; [lia|].
        unfold starts_block. rewrite Hstart, Ht.
        replace (cursor st + 1 - 1) with (cursor st) by lia. exact Hfit.
    + apply StronglySorted_app; [assumption|constructor; constructor|].
      intros x y Hx [<-|[]]. rewrite Forall_forall in Hall.
      destruct (Hall x Hx) as (_ & H2 & _). lia.
Qed.

Lemma carve_inv_loop lines : forall fuel st,
  carve_inv lines st -> carve_inv lines (carve_loop fuel lines st).
Proof.
  induction fuel as [|fuel IH]; intros st H; simpl; [assumption|].
  destruct (cursor st <? length lines) eqn:E; [|assumption].
  apply Nat.ltb_lt in E. apply IH. now apply carve_inv_step.
Qed.

Lemma carve_inv_result (lines : list string) :
  carve_inv lines (carve_loop (length lines) lines carve_init).
Proof.
  apply carve_inv_loop. unfold carve_inv, carve_init. simpl.
  repeat split; auto; try lia; constructor.
Qed.

(** X11: the ids of the blocks are their positions in the block list:
    0, 1, 2, ... *)
Theorem block_ids_are_positions (lines : list string) :
  map block_id (create_logical_blocks lines)
  = seq 0 (length (create_logical_blocks lines)).
Proof. destruct (carve_inv_result lines) as (_ & _ & H & _). exact H. Qed.

(** X12: every block spans lines of the source: its first line is at least
    1, its last line at most the number of lines, and the first is not
    after the last. *)
Theorem block_range_within_source (lines : list string) (b : Block) :
  In b (create_logical_blocks lines) ->
  1 <= start_line b <= end_line b /\ end_line b <= length lines.
Proof.
  intro Hb. destruct (carve_inv_result lines) as (Hc & _ & _ & _ & Hall & _).
  rewrite Forall_forall in Hall. destruct (Hall b Hb) as (H1 & H2 & _).
  split; [assumption|]. unfold create_logical_blocks in *. lia.
Qed.

Lemma StronglySorted_nth {A : Type} (R : A -> A -> Prop) (l : list A) :
  StronglySorted R l ->
  forall i j x y, i < j -> nth_error l i = Some x -> nth_error l j = Some y -> R x y.
Proof.
  induction 1 as [|a l Hs IH Hall]; intros i j x y Hij Hi Hj.
  - destruct i; discriminate.
  - destruct j as [|j]; [lia|]. simpl in Hj. destruct i as [|i]; simpl in Hi.
    + injection Hi as <-. rewrite Forall_forall in Hall. apply Hall.
      eapply nth_error_In; eauto.
    + apply (IH i j); auto. lia.
Qed.

(** X13: the blocks follow one another without overlap: a block that comes
    earlier in the list ends before a later block starts. *)
Theorem blocks_do_not_overlap (lines : list string) (i j : nat) (b1 b2 : Block) :
  i < j ->
  nth_error (create_logical_blocks lines) i = Some b1 ->
  nth_error (create_logical_blocks lines) j = Some b2 ->
  end_line b1 < start_line b2.
Proof.
  destruct (carve_inv_result lines) as (_ & _ & _ & _ & _ & Hs).
  apply (StronglySorted_nth _ _ Hs).
Qed.

(** X14: the type of a block is decided by its first line, which is never
    blank nor a preprocessor line: START when it holds a main signature;
    else LOOP when it holds a for or while header; else XOR when it holds an
    if header; else END when it contains the text return; else ACTIVITY. *)
Theorem block_type_decided_by_first_line (lines : list string) (b : Block) :
  In b (create_logical_blocks lines) ->
  line_fits (nth (start_line b - 1) lines "") (node_type b).
Proof.
  intro Hb. destruct (carve_inv_result lines) as (_ & _ & _ & _ & Hall & _).
  rewrite Forall_forall in Hall. destruct (Hall b Hb) as (_ & _ & H). exact H.
Qed.

(** X15: there are at most as many blocks as lines. *)
Theorem at_most_one_block_per_line (lines : list string) :
  length (create_logical_blocks lines) <= length lines.
Proof.
  destruct (carve_inv_result lines) as (Hc & _ & _ & Hlen & _).
  unfold create_logical_blocks. lia.
Qed.

Lemma substring_length_le (s : string) : forall n m, String.length (substring n m s) <= m.
Proof.
  induction s as [|c s IH]; intros n m.
  - destruct n, m; simpl; lia.
  - destruct n as [|n]; [destruct m as [|m]; simpl; [lia|]|simpl; apply IH].
    specialize (IH 0 m). lia.
Qed.

Lemma preview_of_length (ls : list string) : String.length (preview_of ls) <= 50.
Proof.
  unfold preview_of. destruct (map Str.strip (filter meaningful ls)) as [|p ps];
    [simpl; lia|].
  destruct (50 <? String.length p) eqn:E.
  - rewrite length_append_s. unfold Str.take.
    pose proof (substring_length_le p 0 47). simpl. lia.
  - apply Nat.ltb_ge in E. exact E.
Qed.

(** X16: the code preview of a block has at most 50 characters. *)
Theorem block_preview_at_most_50 (lines : list string) (b : Block) :
  In b (create_logical_blocks lines) -> String.length (code_preview b) <= 50.
Proof.
  intro Hb. pose proof (create_logical_blocks_preview lines) as Hall.
  rewrite Forall_forall in Hall. destruct (Hall b Hb) as [Hp _].
  rewrite Hp. apply preview_of_length.
Qed.

(** ** The START rule *)

(** C8 (as the code has it): when the cursor of the carving pass is on a
    line that is neither blank nor a preprocessor line and whose text holds,
    anywhere, a type keyword followed by white space, the name main and an
    opening parenthesis, the pass emits a START block of that single line
    and moves to the next line.  Conversely the first line of every START
    block holds this pattern: a signature whose text does not hold it gives
    no START block. *)
Theorem main_signature_emits_start (lines : list string) :
  (forall st : Carve,
     visits lines st -> cursor st < length lines ->
     let line := nth (cursor st) lines "" in
     (Str.strip line =? "")%string = false ->
     Str.startswith "#" (Str.strip line) = false ->
     Re.matches Pat.MAIN_SIG line = true ->
     carve_step lines st
     = emit_block st (cursor st + 1) (cursor st + 1) (cursor st + 1) [line] START /\
     In (mkBlock (block_counter st) START (cursor st + 1) (cursor st + 1) [line]
           (preview_of [line]) [])
        (create_logical_blocks lines)) /\
  (forall b : Block,
     In b (create_logical_blocks lines) -> node_type b = START ->
     Re.matches Pat.MAIN_SIG (nth (start_line b - 1) lines "") = true).
Proof.
  split.
  - intros st Hv Hlt line Hblank Hpre Hmain.
    assert (E : carve_step lines st
                = emit_block st (cursor st + 1) (cursor st + 1) (cursor st + 1)
                    [line] START).
    { unfold carve_step. fold line. now rewrite Hblank, Hpre, Hmain. }
    split; [assumption|].
    apply (visits_blocks lines (carve_step lines st)); [now constructor|].
    rewrite E, emit_block_blocks. apply in_or_app. right. now left.
  - intros b Hb Ht.
    destruct (carve_inv_result lines) as (_ & _ & _ & _ & Hall & _).
    rewrite Forall_forall in Hall. destruct (Hall b Hb) as (_ & _ & H).
    unfold starts_block, line_fits in H. rewrite Ht in H.
    destruct H as (_ & _ & H). exact H.
Qed.

Lemma main_signature_emits_start_witness :
  (carve_step main_source carve_init
   = emit_block carve_init 1 1 1 ["int main() {"] START /\
   In (mkBlock 0 START 1 1 ["int main() {"] (preview_of ["int main() {"]) [])
      (create_logical_blocks main_source)) /\
  Re.matches Pat.MAIN_SIG (nth (1 - 1) main_source "") = true.
Proof.
  split.
  - apply (proj1 (main_signature_emits_start main_source) carve_init).
    + apply visits_init.
    + simpl; lia.
    + vm_compute; reflexivity.
    + vm_compute; reflexivity.
    + vm_compute; reflexivity.
  - apply (proj2 (main_signature_emits_start main_source)
             (mkBlock 0 START 1 1 ["int main() {"] "int main() {" [])).
    + vm_compute. auto.
    + reflexivity.
Defined.

(** The pattern is searched anywhere in the line: a signature of another
    function whose parameter list holds the text of a main signature is
    carved as a START block. *)
Lemma main_pattern_in_parameter_list_is_start :
  map (fun b => (node_type b, start_line b, end_line b))
    (create_logical_blocks ["void run(int main(void)) {"; "}"])
  = [(START, 1, 1); (ACTIVITY, 2, 2)].
Proof. vm_compute. reflexivity. Qed.

(** ** More on the arc builder *)

Lemma has_type_in_range blocks i ts : has_type blocks i ts = true -> i < length blocks.
Proof.
  unfold has_type, type_at. destruct (nth_error blocks i) eqn:E; [|discriminate].
  intros _. apply nth_error_Some. congruence.
Qed.

Lemma has_type_of blocks i b ts :
  nth_error blocks i = Some b ->
  has_type blocks i ts = existsb (NodeType_eqb (node_type b)) ts.
Proof. intro H. unfold has_type, type_at. now rewrite H. Qed.

Lemma xor_branches_eq (blocks : list Block) (i : nat) :
  _find_xor_branches blocks i
  = (if i + 1 <? length blocks then [i + 1] else [])
    ++ (if has_type blocks (i + 1) [ACTIVITY] && has_type blocks (i + 2) [ACTIVITY]
        then [i + 2] else []).
Proof.
  unfold _find_xor_branches, has_type, type_at.
  replace (i + 1 + 1) with (i + 2) by lia.
  destruct (nth_error blocks (i + 1)) as [b1|] eqn:E1.
  - assert (H1 : i + 1 < length blocks) by (apply nth_error_Some; congruence).
    apply Nat.ltb_lt in H1. rewrite H1. simpl. rewrite orb_false_r.
    destruct (NodeType_eqb (node_type b1) ACTIVITY); simpl; [|reflexivity].
    destruct (nth_error blocks (i + 2)) as [b2|]; simpl; [|reflexivity].
    rewrite orb_false_r.
    destruct (NodeType_eqb (node_type b2) ACTIVITY); [|reflexivity].
    rewrite Nat.eqb_refl, orb_true_r. reflexivity.
  - assert (H1 : (i + 1 <? length blocks) = false).
    { apply Nat.ltb_ge. now apply nth_error_None. }
    rewrite H1. reflexivity.
Qed.

(** X17: the branches of an if block are the next block, when there is one,
    and the block after it when both it and the next block are ACTIVITY
    blocks; whether a line of that block holds the text else plays no
    part. *)
Theorem xor_branches_closed_form (blocks : list Block) (i : nat) :
  _find_xor_branches blocks i
  = (if i + 1 <? length blocks then [i + 1] else [])
    ++ (if has_type blocks (i + 1) [ACTIVITY] && has_type blocks (i + 2) [ACTIVITY]
        then [i + 2] else []).
Proof. apply xor_branches_eq. Qed.

Lemma xor_branches_range blocks i j :
  In j (_find_xor_branches blocks i) -> i < j < length blocks.
Proof.
  rewrite xor_branches_eq. intro H. apply in_app_or in H. destruct H as [H|H].
  - destruct (i + 1 <? length blocks) eqn:E; [|destruct H].
    apply Nat.ltb_lt in E. destruct H as [<-|[]]. lia.
  - destruct (has_type blocks (i + 1) [ACTIVITY] && has_type blocks (i + 2) [ACTIVITY]) eqn:E;
      [|destruct H].
    apply andb_true_iff in E as [_ E]. apply has_type_in_range in E.
    destruct H as [<-|[]]. lia.
Qed.

Lemma find_in_range f a b i :
  List.find f (range a b) = Some i -> a <= i < b /\ f i = true.
Proof.
  intro H. apply find_some in H. destruct H as [Hin Hf]. unfold range in Hin.
  apply in_seq in Hin. split; [lia|assumption].
Qed.

Lemma loop_exit_scan_in blocks loop_idx idxs : forall depth j,
  loop_exit_scan blocks loop_idx idxs depth = Some j -> In j idxs.
Proof.
  induction idxs as [|i idxs IH]; intros depth j H; simpl in H; [discriminate|].
  repeat match type of H with
         | (if ?c then _ else _) = _ => destruct c
         end;
    try (injection H as <-; now left); right; eapply IH; exact H.
Qed.

Lemma find_loop_exit_range blocks i j :
  _find_loop_exit blocks i = Some j -> i < j < length blocks.
Proof.
  unfold _find_loop_exit.
  destruct (loop_exit_scan blocks i (range (i + 1) (length blocks)) 0) as [k|] eqn:E.
  - intros [= <-]. apply loop_exit_scan_in in E. unfold range in E.
    apply in_seq in E. lia.
  - intro H. apply find_in_range in H. lia.
Qed.

Lemma list_max_in (l : list nat) : l <> [] -> In (list_max l) l.
Proof.
  induction l as [|x l IH]; [congruence|]. intros _. unfold list_max in *. simpl.
  destruct l as [|y l].
  - simpl. left. lia.
  - destruct (Nat.max_spec x (fold_right Nat.max 0 (y :: l))) as [[_ E]|[_ E]];
      rewrite E; [right; apply IH; discriminate|now left].
Qed.

Lemma loop_body_scan_range blocks exit lo idxs : forall last j,
  (forall i, In i idxs -> lo < i < length blocks) ->
  (forall k, last = Some k -> lo < k < length blocks) ->
  loop_body_scan blocks exit idxs last = Some j -> lo < j < length blocks.
Proof.
  induction idxs as [|i idxs IH]; intros last j Hidx Hlast H; simpl in H.
  - now apply Hlast.
  - assert (Hi : lo < i < length blocks) by (apply Hidx; now left).
    assert (Hrest : forall k, In k idxs -> lo < k < length blocks)
      by (intros; apply Hidx; now right).
    destruct (match exit with Some e => e <=? i | None => false end).
    + now apply Hlast.
    + destruct (has_type blocks i [ACTIVITY]).
      * apply (IH (Some i) j Hrest); [|assumption]. intros k [= <-]. assumption.
      * destruct (has_type blocks i [XOR]); [|now apply (IH last j Hrest)].
        destruct (_find_xor_branches blocks i) as [|b0 bs] eqn:Eb;
          [now apply (IH last j Hrest)|].
        apply (IH (Some (list_max (b0 :: bs))) j Hrest); [|assumption].
        intros k [= <-].
        assert (Hin : In (list_max (b0 :: bs)) (b0 :: bs)) by (apply list_max_in; discriminate).
        assert (Hin' : In (list_max (b0 :: bs)) (_find_xor_branches blocks i))
          by (rewrite Eb; exact Hin).
        apply xor_branches_range in Hin'.
        change (list_max (b0 :: bs)) with (Nat.max b0 (list_max bs)) in Hin'. lia.
Qed.

Lemma find_loop_body_end_range blocks i j :
  _find_loop_body_end blocks i = Some j -> i < j < length blocks.
Proof.
  unfold _find_loop_body_end. apply loop_body_scan_range.
  - intros k Hk. unfold range in Hk. apply in_seq in Hk. lia.
  - intros k [=].
Qed.

Lemma find_merge_point_range blocks i j :
  _find_merge_point blocks i = Some j -> i < j < length blocks.
Proof. unfold _find_merge_point. intro H. apply find_in_range in H. lia. Qed.

Lemma arcs_of_block_fit blocks i b a :
  nth_error blocks i = Some b -> In a (arcs_of_block blocks i b) -> arc_fits blocks a.
Proof.
  intros Hb Ha.
  assert (Hi : i < length blocks) by (apply nth_error_Some; congruence).
  pose proof (has_type_of blocks i b) as Ht.
  unfold arcs_of_block in Ha. destruct (node_type b) eqn:Et.
  - (* START *)
    destruct (i + 1 <? length blocks) eqn:E; [|destruct Ha].
    apply Nat.ltb_lt in E. destruct Ha as [<-|[]]. unfold arc_fits. simpl.
    rewrite (Ht [START; ACTIVITY] Hb), ?Et. repeat split; auto; lia.
  - (* LOOP *)
    apply in_app_or in Ha. destruct Ha as [Ha|Ha].
    + destruct (i + 1 <? length blocks) eqn:E; [|destruct Ha].
      apply Nat.ltb_lt in E. destruct Ha as [<-|[]]. unfold arc_fits. simpl.
      rewrite (Ht [LOOP; XOR] Hb), ?Et. repeat split; auto; lia.
    + apply in_app_or in Ha. destruct Ha as [Ha|Ha].
      * destruct (_find_loop_exit blocks i) as [e|] eqn:E; [|destruct Ha].
        apply find_loop_exit_range in E. destruct Ha as [<-|[]]. unfold arc_fits. simpl.
        rewrite (Ht [LOOP; XOR] Hb), ?Et. repeat split; auto; lia.
      * destruct (_find_loop_body_end blocks i) as [e|] eqn:E; [|destruct Ha].
        apply find_loop_body_end_range in E. destruct Ha as [<-|[]]. unfold arc_fits. simpl.
        rewrite (Ht [LOOP] Hb), ?Et. repeat split; auto; lia.
  - (* XOR *)
    assert (Hx : forall j, In j (_find_xor_branches blocks i) -> i < j < length blocks)
      by (intros; now apply xor_branches_range).
    destruct (_find_xor_branches blocks i) as [|b0 [|b1 bs]]; [destruct Ha| |].
    + destruct Ha as [<-|[]]. unfold arc_fits. simpl.
      rewrite (Ht [LOOP; XOR] Hb), ?Et. specialize (Hx b0 (or_introl eq_refl)).
      repeat split; auto; lia.
    + pose proof (Hx b0 (or_introl eq_refl)) as H0.
      pose proof (Hx b1 (or_intror (or_introl eq_refl))) as H1.
      destruct Ha as [<-|[<-|[]]]; unfold arc_fits; simpl;
        rewrite (Ht [LOOP; XOR] Hb), ?Et; repeat split; auto; lia.
  - (* ACTIVITY *)
    destruct (_is_branch_block blocks i).
    + destruct (_find_merge_point blocks i) as [m|] eqn:E; [|destruct Ha].
      apply find_merge_point_range in E. destruct Ha as [<-|[]]. unfold arc_fits. simpl.
      rewrite (Ht [START; ACTIVITY] Hb), ?Et. repeat split; auto; lia.
    + destruct ((i + 1 <? length blocks) && negb (has_type blocks (i + 1) [END])) eqn:E;
        [|destruct Ha].
      apply andb_true_iff in E as [E _]. apply Nat.ltb_lt in E.
      destruct Ha as [<-|[]]. unfold arc_fits. simpl.
      rewrite (Ht [START; ACTIVITY] Hb), ?Et. repeat split; auto; lia.
  - (* END *)
    destruct Ha.
Qed.

Lemma arcs_from_in blocks rest : forall i a,
  In a (arcs_from blocks i rest) ->
  exists j b, nth_error rest j = Some b /\ In a (arcs_of_block blocks (i + j) b).
Proof.
  induction rest as [|b rest IH]; intros i a H; simpl in H; [destruct H|].
  apply in_app_or in H. destruct H as [H|H].
  - exists 0, b. split; [reflexivity|]. now rewrite Nat.add_0_r.
  - destruct (IH (S i) a H) as (j & b' & Hj & Ha).
    exists (S j), b'. split; [assumption|].
    replace (i + S j) with (S i + j) by lia. assumption.
Qed.

(** X18: every arc joins two blocks of the list, and its type fits its ends:
    a sequential arc leaves a START or ACTIVITY block and goes forward, a
    conditional arc leaves a LOOP or XOR block and goes forward, and a
    loop-back arc goes backward to a LOOP block. *)
Theorem arcs_fit_their_blocks (blocks : list Block) (a : Arc) :
  In a (create_control_flow_arcs blocks) -> arc_fits blocks a.
Proof.
  intro H. apply arcs_from_in in H. destruct H as (j & b & Hj & Ha).
  simpl in Ha. now apply (arcs_of_block_fit blocks j b).
Qed.

(** *** Operations bound to blocks *)

Lemma assign_nth ops blocks i b :
  nth_error (assign_operation_sequences ops blocks) i = Some b ->
  exists c, nth_error blocks i = Some c /\
    start_line b = start_line c /\ end_line b = end_line c /\
    forall op, In op (operation_sequence b) <->
               In op ops /\ start_line c <= line_number op <= end_line c.
Proof.
  unfold assign_operation_sequences. intro H. rewrite nth_error_map in H.
  destruct (nth_error blocks i) as [c|]; [|discriminate].
  injection H as <-. exists c. simpl. repeat split; auto.
  - apply filter_In in H. tauto.
  - apply filter_In in H. destruct H as [_ H]. apply andb_true_iff in H as [H _].
    now apply Nat.leb_le.
  - apply filter_In in H. destruct H as [_ H]. apply andb_true_iff in H as [_ H].
    now apply Nat.leb_le.
  - intros (H1 & H2 & H3). apply filter_In. split; [assumption|].
    apply andb_true_iff. split; now apply Nat.leb_le.
Qed.

(** X19: in the graph of a source text no operation is bound to two blocks. *)
Theorem operation_bound_to_one_block (lines : list string) (i j : nat)
  (b1 b2 : Block) (op : Operation) :
  i <> j ->
  nth_error (tta_blocks (tta_analyze lines)) i = Some b1 ->
  nth_error (tta_blocks (tta_analyze lines)) j = Some b2 ->
  In op (operation_sequence b1) -> ~ In op (operation_sequence b2).
Proof.
  intros Hij H1 H2 Hin1 Hin2. unfold tta_analyze in H1, H2. simpl in H1, H2.
  destruct (assign_nth _ _ _ _ H1) as (c1 & Hc1 & _ & _ & M1).
  destruct (assign_nth _ _ _ _ H2) as (c2 & Hc2 & _ & _ & M2).
  apply M1 in Hin1. apply M2 in Hin2.
  destruct (carve_inv_result lines) as (_ & _ & _ & _ & _ & Hs).
  fold (create_logical_blocks lines) in Hs.
  destruct (Nat.lt_ge_cases i j) as [Hlt|Hge].
  - pose proof (StronglySorted_nth _ _ Hs i j c1 c2 Hlt Hc1 Hc2). simpl in *. lia.
  - assert (Hlt : j < i) by lia.
    pose proof (StronglySorted_nth _ _ Hs j i c2 c1 Hlt Hc2 Hc1). simpl in *. lia.
Qed.

(** X20: the block that the editor looks up for a branch of an if block is a
    block of the list: the next one for the branch 'true', and for the
    branch 'false' the one after it, found only when both are ACTIVITY
    blocks. *)
Theorem find_next_block_result (tta : option (list Block)) (from_block : nat)
  (branch_type : string) (j : nat) :
  find_next_block tta from_block branch_type = Some j ->
  exists blocks, tta = Some blocks /\ j < length blocks /\
    ((branch_type = "true" /\ j = from_block + 1) \/
     (branch_type = "false" /\ j = from_block + 2 /\
      has_type blocks (from_block + 1) [ACTIVITY] = true /\
      has_type blocks (from_block + 2) [ACTIVITY] = true)).
Proof.
  unfold find_next_block. destruct tta as [blocks|]; [|discriminate].
  destruct (length blocks <=? from_block); [discriminate|].
  intro H. exists blocks. split; [reflexivity|].
  assert (Hr : forall k, In k (_find_xor_branches blocks from_block) ->
                         from_block < k < length blocks)
    by (intros; now apply xor_branches_range).
  rewrite xor_branches_eq in H, Hr.
  destruct (from_block + 1 <? length blocks) eqn:E1;
    destruct (has_type blocks (from_block + 1) [ACTIVITY]
              && has_type blocks (from_block + 2) [ACTIVITY]) eqn:E2;
    simpl in H, Hr.
  - apply andb_true_iff in E2 as [Ea Eb].
    destruct (branch_type =? "true")%string eqn:Bt.
    + simpl in H. injection H as <-. apply String.eqb_eq in Bt.
      split; [apply Hr; now left|]. left. auto.
    + simpl in H. destruct (branch_type =? "false")%string eqn:Bf; [|discriminate].
      simpl in H. injection H as <-. apply String.eqb_eq in Bf.
      split; [apply Hr; right; now left|]. right. auto.
  - destruct (branch_type =? "true")%string eqn:Bt.
    + simpl in H. injection H as <-. apply String.eqb_eq in Bt.
      split; [apply Hr; now left|]. left. auto.
    + simpl in H. destruct (branch_type =? "false")%string; simpl in H; discriminate.
  - apply andb_true_iff in E2 as [Ea _]. apply has_type_in_range in Ea.
    apply Nat.ltb_ge in E1. lia.
  - destruct (branch_type =? "true")%string; destruct (branch_type =? "false")%string;
      simpl in H; discriminate.
Qed.

(** ** The bracket and string check *)

Lemma scan_lines_spec lines : forall i s,
  brace_count (scan_lines i lines s)
  = (brace_count s + Z.of_nat (total "{" lines) - Z.of_nat (total "}" lines))%Z /\
  paren_count (scan_lines i lines s)
  = (paren_count s + Z.of_nat (total "(" lines) - Z.of_nat (total ")" lines))%Z /\
  bracket_count (scan_lines i lines s)
  = (bracket_count s + Z.of_nat (total "[" lines) - Z.of_nat (total "]" lines))%Z /\
  syntax_errors (scan_lines i lines s) = syntax_errors s ++ unterminated i lines.
Proof.
  induction lines as [|l rest IH]; intros i s; simpl.
  - unfold total. simpl. rewrite app_nil_r. repeat split; lia.
  - destruct (IH (S i) (scan_line i l s)) as (H1 & H2 & H3 & H4).
    rewrite H1, H2, H3, H4. unfold scan_line, total, counted in *. simpl.
    destruct (is_comment_or_preprocessor l); simpl.
    + repeat split; auto.
    + unfold count_diff. rewrite !Nat2Z.inj_add.
      destruct (has_unterminated_string l); simpl;
        repeat split; try lia; now rewrite <- ?app_assoc.
Qed.

Lemma unmatched_message_nil what c : unmatched_message what c = [] <-> c = 0%Z.
Proof.
  unfold unmatched_message. destruct (c =? 0)%Z eqn:E.
  - apply Z.eqb_eq in E. tauto.
  - apply Z.eqb_neq in E. split; [discriminate|contradiction].
Qed.

Lemma unterminated_nil lines : forall i,
  unterminated i lines = [] <->
  Forall (fun l => Nat.even (Str.count_char Pat.dquote l) = true) (counted lines).
Proof.
  induction lines as [|l rest IH]; intro i; simpl.
  - split; [constructor|reflexivity].
  - unfold counted in *. simpl. unfold has_unterminated_string.
    destruct (is_comment_or_preprocessor l); simpl; [apply IH|].
    destruct (Nat.even (Str.count_char Pat.dquote l)) eqn:E; simpl.
    + rewrite IH. split; [now constructor|]. intro H. now inversion H.
    + split; [discriminate|]. intro H. inversion H. congruence.
Qed.

Lemma check_syntax_errors_spec (lines : list string) :
  check_syntax_errors lines
  = unterminated 1 lines
    ++ unmatched_message "braces"
         (Z.of_nat (total "{" lines) - Z.of_nat (total "}" lines))
    ++ unmatched_message "parentheses"
         (Z.of_nat (total "(" lines) - Z.of_nat (total ")" lines))
    ++ unmatched_message "brackets"
         (Z.of_nat (total "[" lines) - Z.of_nat (total "]" lines)).
Proof.
  unfold check_syntax_errors.
  destruct (scan_lines_spec lines 1 (mkSyntaxScan 0 0 0 [])) as (H1 & H2 & H3 & H4).
  rewrite H1, H2, H3, H4. reflexivity.
Qed.

(** X21: the check reports nothing exactly when every counted line (every
    line but comment and preprocessor lines) holds an even number of double
    quotes and the counted lines hold as many opening as closing braces,
    parentheses and brackets. *)
Theorem no_diagnostic_iff_counts_balance (lines : list string) :
  check_syntax_errors lines = [] <->
  Forall (fun l => Nat.even (Str.count_char Pat.dquote l) = true) (counted lines) /\
  total "{" lines = total "}" lines /\
  total "(" lines = total ")" lines /\
  total "[" lines = total "]" lines.
Proof.
  rewrite check_syntax_errors_spec. split.
  - intro H. apply app_eq_nil in H as [H0 H]. apply app_eq_nil in H as [H1 H].
    apply app_eq_nil in H as [H2 H3].
    apply unterminated_nil in H0. apply unmatched_message_nil in H1, H2, H3.
    repeat split; [assumption|lia|lia|lia].
  - intros (H0 & H1 & H2 & H3). apply unterminated_nil with (i := 1) in H0.
    rewrite H0, H1, H2, H3, !Z.sub_diag. reflexivity.
Qed.

Lemma counted_permutation (l1 l2 : list string) :
  Permutation l1 l2 -> Permutation (counted l1) (counted l2).
Proof.
  unfold counted. induction 1 as [|x l1 l2 H IH|x y l|l1 l2 l3 H1 IH1 H2 IH2]; simpl.
  - constructor.
  - destruct (negb (is_comment_or_preprocessor x)); [now constructor|assumption].
  - destruct (negb (is_comment_or_preprocessor x));
      destruct (negb (is_comment_or_preprocessor y));
      try apply Permutation_refl. constructor.
  - eapply Permutation_trans; eassumption.
Qed.

Lemma list_sum_permutation (l1 l2 : list nat) :
  Permutation l1 l2 -> list_sum l1 = list_sum l2.
Proof.
  induction 1 as [|x l1 l2 H IH|x y l|l1 l2 l3 H1 IH1 H2 IH2]; simpl; lia.
Qed.

Lemma total_permutation (c : ascii) (l1 l2 : list string) :
  Permutation l1 l2 -> total c l1 = total c l2.
Proof.
  intro H. unfold total. apply list_sum_permutation, Permutation_map.
  now apply counted_permutation.
Qed.

(** X22: when no counted line holds an odd number of double quotes, the
    diagnostics do not depend on the order of the lines: the check counts
    brackets and does not look at their nesting. *)
Theorem diagnostics_ignore_line_order (lines lines' : list string) :
  Permutation lines lines' ->
  Forall (fun l => Nat.even (Str.count_char Pat.dquote l) = true) (counted lines) ->
  check_syntax_errors lines' = check_syntax_errors lines.
Proof.
  intros Hp Hq.
  assert (Hq' : Forall (fun l => Nat.even (Str.count_char Pat.dquote l) = true)
                  (counted lines')).
  { eapply Permutation_Forall; [|exact Hq]. now apply counted_permutation. }
  rewrite !check_syntax_errors_spec.
  apply unterminated_nil with (i := 1) in Hq. apply unterminated_nil with (i := 1) in Hq'.
  rewrite Hq, Hq'.
  now rewrite !(total_permutation _ lines lines' Hp).
Qed.

(** ** The shape of the blocks *)

Lemma nth_skipn_s (l : list string) : forall n m, nth m (skipn n l) "" = nth (n + m) l "".
Proof.
  induction l as [|x l IH]; intros n m.
  - rewrite skipn_nil. destruct m; destruct (n + _); reflexivity.
  - destruct n as [|n]; [reflexivity|]. simpl. apply IH.
Qed.

Lemma return_lookahead_shape rest : forall j0 j,
  return_lookahead rest j0 = Some j ->
  Str.strip (nth (j - j0) rest "") = "}" /\
  (forall m, m < j - j0 -> blank_or_comment (nth m rest "")) /\
  (forall m, j - j0 < m < length rest -> Str.contains "}" (nth m rest "") = false).
Proof.
  induction rest as [|l rest IH]; intros j0 j H; simpl in H; [discriminate|].
  destruct (Str.strip l =? "}")%string eqn:E.
  - destruct (length (filter (Str.contains "}") rest) =? 0) eqn:En; [|discriminate].
    injection H as <-. rewrite Nat.sub_diag. simpl.
    apply String.eqb_eq in E. split; [assumption|]. split; [intros; lia|].
    intros m Hm. destruct m as [|m]; [lia|].
    apply Nat.eqb_eq in En. apply length_zero_iff_nil in En.
    destruct (Str.contains "}" (nth m rest "")) eqn:Ec; [|reflexivity].
    assert (Hin : In (nth m rest "") (filter (Str.contains "}") rest)).
    { apply filter_In. split; [apply nth_In; lia|assumption]. }
    rewrite En in Hin. destruct Hin.
  - destruct (negb (Str.strip l =? "")%string && negb (Str.startswith "//" (Str.strip l)))
      eqn:Eb; [discriminate|].
    pose proof (return_lookahead_ge rest (S j0) j H) as Hge.
    destruct (IH (S j0) j H) as (H1 & H2 & H3).
    replace (j - j0) with (S (j - S j0)) by lia. simpl.
    split; [assumption|]. split.
    + intros m Hm. destruct m as [|m].
      * apply andb_false_iff in Eb. destruct Eb as [Eb|Eb]; apply negb_false_iff in Eb.
        -- left. now apply String.eqb_eq.
        -- now right.
      * apply H2. lia.
    + intros m Hm. destruct m as [|m]; [lia|]. apply H3. lia.
Qed.

Lemma return_rule_shaped lines st :
  cursor st < length lines -> shaped_step lines st (return_rule lines st).
Proof.
  intro Hlt. unfold return_rule. right.
  destruct (return_lookahead (skipn (cursor st + 1) lines) (cursor st + 1)) as [j|] eqn:E.
  - eexists. split; [apply emit_block_blocks|]. unfold block_shape, end_shape. simpl.
    pose proof (return_lookahead_bounds _ _ _ E) as Hb.
    rewrite skipn_length_after in Hb by assumption.
    destruct (return_lookahead_shape _ _ _ E) as (H1 & H2 & H3).
    right. replace (cursor st + 1 - 1) with (cursor st) by lia.
    replace (j + 1 - 1) with j by lia.
    split; [lia|]. split; [reflexivity|]. split; [|split].
    + rewrite nth_skipn_s in H1. now replace (cursor st + 1 + (j - (cursor st + 1))) with j in H1 by lia.
    + intros k Hk. specialize (H2 (k - 1 - (cursor st + 1))).
      rewrite nth_skipn_s in H2.
      replace (cursor st + 1 + (k - 1 - (cursor st + 1))) with (k - 1) in H2 by lia.
      apply H2. lia.
    + intros k Hk. specialize (H3 (k - 1 - (cursor st + 1))).
      rewrite nth_skipn_s in H3.
      replace (cursor st + 1 + (k - 1 - (cursor st + 1))) with (k - 1) in H3 by lia.
      apply H3. rewrite skipn_length_after by assumption. lia.
  - eexists. split; [apply emit_block_blocks|]. unfold block_shape, end_shape. simpl.
    left. replace (cursor st + 1 - 1) with (cursor st) by lia. auto.
Qed.

Lemma activity_shaped lines st c s ls :
  ls <> [] ->
  shaped_step lines st (emit_block st c s (s + length ls - 1) ls ACTIVITY).
Proof.
  intro Hne. right. eexists. split; [apply emit_block_blocks|].
  unfold block_shape. simpl. destruct ls; [contradiction|]. simpl. lia.
Qed.

Lemma skip_shaped lines st c : shaped_step lines st (mkCarve c (block_counter st) (blocks st)).
Proof. now left. Qed.

Lemma else_rule_shaped lines st : shaped_step lines st (else_rule lines st).
Proof.
  unfold else_rule. destruct (Str.contains "{" (nth (cursor st) lines "")).
  - match goal with |- context [2 <? ?n] => destruct (2 <? n) end.
    + apply activity_shaped. discriminate.
    + apply skip_shaped.
  - apply activity_shaped. destruct (cursor st + 1 <? length lines); discriminate.
Qed.

Lemma brace_rule_shaped lines st : shaped_step lines st (brace_rule lines st).
Proof.
  unfold brace_rule.
  destruct (collect_body (skipn (cursor st + 1) lines)) as [kept passed].
  destruct (negb (length kept =? 0) && negb (length (filter meaningful kept) =? 0)) eqn:E.
  - apply andb_true_iff in E as [E _]. apply negb_true_iff, Nat.eqb_neq in E.
    apply activity_shaped. intros ->. now apply E.
  - apply skip_shaped.
Qed.

Lemma regular_rule_shaped lines st : shaped_step lines st (regular_rule lines st).
Proof.
  unfold regular_rule.
  match goal with |- context [if ?c then _ else _] => destruct c end.
  - apply activity_shaped. discriminate.
  - apply skip_shaped.
Qed.

Lemma single_line_shaped lines st t :
  match t with START | LOOP | XOR => True | _ => False end ->
  shaped_step lines st
    (emit_block st (cursor st + 1) (cursor st + 1) (cursor st + 1)
       [nth (cursor st) lines ""] t).
Proof.
  intro Ht. right. eexists. split; [apply emit_block_blocks|].
  unfold block_shape. simpl. replace (cursor st + 1 - 1) with (cursor st) by lia.
  destruct t; try contradiction; auto.
Qed.

Lemma carve_step_shaped lines st :
  cursor st < length lines -> shaped_step lines st (carve_step lines st).
Proof.
  intro Hlt. unfold carve_step.
  repeat match goal with
         | |- shaped_step _ _ (if ?c then _ else _) => destruct c
         end;
    auto using return_rule_shaped, else_rule_shaped, brace_rule_shaped,
      regular_rule_shaped, skip_shaped;
    apply single_line_shaped; exact I.
Qed.

Lemma carve_loop_shaped lines : forall fuel st,
  Forall (block_shape lines) (blocks st) ->
  Forall (block_shape lines) (blocks (carve_loop fuel lines st)).
Proof.
  induction fuel as [|fuel IH]; intros st H; simpl; [assumption|].
  destruct (cursor st <? length lines) eqn:E; [|assumption].
  apply Nat.ltb_lt in E. apply IH.
  destruct (carve_step_shaped lines st E) as [Eb|(b & Eb & Hb)]; rewrite Eb.
  - assumption.
  - apply Forall_app. split; [assumption|]. constructor; [assumption|constructor].
Qed.

Lemma create_logical_blocks_shaped (lines : list string) :
  Forall (block_shape lines) (create_logical_blocks lines).
Proof. apply carve_loop_shaped. constructor. Qed.

(** X23: a START, LOOP or XOR block covers one line, and captures that line
    alone. *)
Theorem control_blocks_cover_one_line (lines : list string) (b : Block) :
  In b (create_logical_blocks lines) ->
  node_type b = START \/ node_type b = LOOP \/ node_type b = XOR ->
  end_line b = start_line b /\ block_lines b = [nth (start_line b - 1) lines ""].
Proof.
  intros Hb Ht. pose proof (create_logical_blocks_shaped lines) as Hall.
  rewrite Forall_forall in Hall. specialize (Hall b Hb). unfold block_shape in Hall.
  destruct Ht as [Ht|[Ht|Ht]]; rewrite Ht in Hall; exact Hall.
Qed.

(** X24: an END block covers its return line only, or reaches down to a lone
    closing brace: then the lines in between are blank or comment lines, the
    block captures the return line and the brace, and no line after the
    brace contains a closing brace. *)
Theorem end_block_absorbs_last_brace_only (lines : list string) (b : Block) :
  In b (create_logical_blocks lines) -> node_type b = END -> end_shape lines b.
Proof.
  intros Hb Ht. pose proof (create_logical_blocks_shaped lines) as Hall.
  rewrite Forall_forall in Hall. specialize (Hall b Hb). unfold block_shape in Hall.
  now rewrite Ht in Hall.
Qed.

(** X25: an ACTIVITY block captures as many lines as its range spans. *)
Theorem activity_block_line_count (lines : list string) (b : Block) :
  In b (create_logical_blocks lines) -> node_type b = ACTIVITY ->
  length (block_lines b) = end_line b - start_line b + 1.
Proof.
  intros Hb Ht. pose proof (create_logical_blocks_shaped lines) as Hall.
  rewrite Forall_forall in Hall. specialize (Hall b Hb). unfold block_shape in Hall.
  now rewrite Ht in Hall.
Qed.

(** ** Branch blocks *)

Lemma range_down_In (start stop z : Z) :
  In z (range_down start stop) <-> (stop < z <= start)%Z.
Proof.
  unfold range_down. rewrite in_map_iff. split.
  - intros (k & <- & Hk). apply in_seq in Hk. lia.
  - intro H. exists (Z.to_nat (start - z)). split; [lia|]. apply in_seq. lia.
Qed.

(** X26: a block counts as a branch block exactly when an XOR block stands
    one or two places before it and not at the head of the list: the block
    at position 0 is never looked at. *)
Theorem branch_block_iff_xor_just_before (blocks : list Block) (i : nat) :
  _is_branch_block blocks i = true <->
  exists k, (k = 1 \/ k = 2) /\ k < i /\ has_type blocks (i - k) [XOR] = true.
Proof.
  unfold _is_branch_block. rewrite existsb_exists. split.
  - intros (z & Hz & Ht). apply range_down_In in Hz.
    exists (i - Z.to_nat z). replace (i - (i - Z.to_nat z)) with (Z.to_nat z) by lia.
    split; [lia|]. split; [lia|assumption].
  - intros (k & Hk & Hlt & Ht). exists (Z.of_nat (i - k)). split.
    + apply range_down_In. lia.
    + now rewrite Nat2Z.id.
Qed.

(** ** Dependencies and the variable table *)

(** X27: when [v] is a dependency of [w], the two are different, and some
    line both defines [w] and uses [v] in the variable table. *)
Theorem dependencies_join_definitions_and_uses
  (lines : list string) (w v : string) (ds : list string) :
  dict_get String.eqb (df_dependencies (analyze lines)) w = Some ds -> In v ds ->
  v <> w /\
  exists L, defined_at (df_variables (analyze lines)) w L /\
            used_at (df_variables (analyze lines)) v L.
Proof.
  unfold analyze. cbn [df_dependencies df_variables]. intros Hget Hin.
  destruct (build_dependencies_inv (line_analysis (analyze_variables lines)) w)
    as (_ & _ & _ & Hmem).
  unfold entry_of, deps_get in Hmem. rewrite Hget in Hmem.
  apply Hmem in Hin. destruct Hin as (Hne & L & r & HLr & Hw & Hv).
  split; [assumption|]. exists L.
  assert (Hr : la_get (line_analysis (analyze_variables lines)) L = Some r).
  { apply NoDup_get_of_In; [apply nat_eqb_eq| |assumption].
    rewrite analyze_variables_keys. apply StronglySorted_lt_NoDup, analyzable_from_sorted. }
  destruct (analyze_variables_tables_agree lines) as (HD & HU & _).
  split; [apply HD|apply HU]; exists r; auto.
Qed.

(** ** The further properties on concrete inputs *)

Lemma line_record_reads_writes_are_sets_witness :
  NoDup ["a"; "b"] /\ NoDup ["sum"].
Proof.
  apply (line_record_reads_writes_are_sets scenario 4
           (mkLineRecord ["a"; "b"] ["sum"] "Declaration and assignment of sum")).
  vm_compute; reflexivity.
Defined.

Lemma kill_operations_are_justified_witness :
  exists r,
    la_get (line_analysis (analyze_variables redefinition_source)) 3 = Some r /\
    ((3 <= length redefinition_source /\
      Str.contains "free(" (nth (3 - 1) redefinition_source "") = true /\
      (exists m, Re.search Pat.FREE (nth (3 - 1) redefinition_source "") = Some m /\
                 "x" = Re.group (nth (3 - 1) redefinition_source "") m 1) /\
      "Variable 'x' redefined, killing previous definition from line 1"
      = "Memory freed for variable 'x'") \/
     (In "x" (writes r) /\
      exists N r',
        N <= 3 /\
        la_get (line_analysis (analyze_variables redefinition_source)) N = Some r' /\
        In "x" (writes r') /\
        "Variable 'x' redefined, killing previous definition from line 1"
        = "Variable 'x' redefined, killing previous definition from line "
          +++ Str.of_nat N /\
        forall N',
          "Variable 'x' redefined, killing previous definition from line 1"
          = "Variable 'x' redefined, killing previous definition from line "
            +++ Str.of_nat N' -> N' = N)).
Proof.
  apply (kill_operations_are_justified
           (line_analysis (analyze_variables redefinition_source)) redefinition_source
           "x" 3 "Variable 'x' redefined, killing previous definition from line 1").
  - lia.
  - vm_compute. auto 10.
Defined.

Lemma block_range_within_source_witness :
  1 <= start_line main_end_block <= end_line main_end_block /\
  end_line main_end_block <= length main_source.
Proof.
  apply (block_range_within_source main_source main_end_block).
  vm_compute. auto.
Defined.

Lemma blocks_do_not_overlap_witness :
  end_line main_start_block < start_line main_end_block.
Proof.
  apply (blocks_do_not_overlap main_source 0 1 main_start_block main_end_block).
  - lia.
  - vm_compute; reflexivity.
  - vm_compute; reflexivity.
Defined.

Lemma block_type_decided_by_first_line_witness :
  line_fits (nth (start_line main_end_block - 1) main_source "") (node_type main_end_block).
Proof.
  apply (block_type_decided_by_first_line main_source main_end_block).
  vm_compute. auto.
Defined.

Lemma block_preview_at_most_50_witness :
  String.length (code_preview main_end_block) <= 50.
Proof.
  apply (block_preview_at_most_50 main_source main_end_block).
  vm_compute. auto.
Defined.

Lemma control_blocks_cover_one_line_witness :
  end_line main_start_block = start_line main_start_block /\
  block_lines main_start_block = [nth (start_line main_start_block - 1) main_source ""].
Proof.
  apply (control_blocks_cover_one_line main_source main_start_block).
  - vm_compute. auto.
  - left. reflexivity.
Defined.

Lemma end_block_absorbs_last_brace_only_witness : end_shape main_source main_end_block.
Proof.
  apply (end_block_absorbs_last_brace_only main_source main_end_block).
  - vm_compute. auto.
  - reflexivity.
Defined.

Lemma activity_block_line_count_witness :
  length (block_lines scenario_first_block)
  = end_line scenario_first_block - start_line scenario_first_block + 1.
Proof.
  apply (activity_block_line_count scenario scenario_first_block).
  - vm_compute. auto.
  - reflexivity.
Defined.

Lemma arcs_fit_their_blocks_witness :
  arc_fits (create_logical_blocks scenario) (mkArc 1 3 dashed "If false").
Proof.
  apply (arcs_fit_their_blocks (create_logical_blocks scenario)).
  vm_compute. auto.
Defined.

Lemma operation_bound_to_one_block_witness :
  ~ In scenario_first_write
      (operation_sequence (nth 2 (tta_blocks (tta_analyze scenario)) no_block)).
Proof.
  apply (operation_bound_to_one_block scenario 0 2
           (nth 0 (tta_blocks (tta_analyze scenario)) no_block)
           (nth 2 (tta_blocks (tta_analyze scenario)) no_block)
           scenario_first_write).
  - lia.
  - vm_compute; reflexivity.
  - vm_compute; reflexivity.
  - vm_compute. auto.
Defined.

Lemma find_next_block_result_witness :
  exists blocks,
    Some (create_logical_blocks scenario) = Some blocks /\ 3 < length blocks /\
    (("false" = "true" /\ 3 = 1 + 1) \/
     ("false" = "false" /\ 3 = 1 + 2 /\
      has_type blocks (1 + 1) [ACTIVITY] = true /\
      has_type blocks (1 + 2) [ACTIVITY] = true)).
Proof.
  apply (find_next_block_result (Some (create_logical_blocks scenario)) 1 "false" 3).
  vm_compute; reflexivity.
Defined.

Lemma diagnostics_ignore_line_order_witness :
  check_syntax_errors ["{"; "}"] = check_syntax_errors ["}"; "{"].
Proof.
  apply (diagnostics_ignore_line_order ["}"; "{"] ["{"; "}"]).
  - apply perm_swap.
  - vm_compute. repeat constructor.
Defined.

Lemma dependencies_join_definitions_and_uses_witness :
  "a" <> "sum" /\
  exists L, defined_at (df_variables (analyze scenario)) "sum" L /\
            used_at (df_variables (analyze scenario)) "a" L.
Proof.
  apply (dependencies_join_definitions_and_uses scenario "sum" "a" ["a"; "b"]).
  - vm_compute; reflexivity.
  - simpl; auto.
Defined.

